(** * NFSv3 client over ONC RPC: a shallow embedding of the protocol stack

    The development follows the Python sources
    [lib/hpccache/nfs3py/rpc_rfc1057.py], [lib/nfs3py/nfs3.py] and
    [lib/hpccache/nfs3py/nfs3_util.py].  Python integers are unbounded and
    are modelled by [Z]; byte strings are [list byte]; an [io.BytesIO] is a
    buffer with a read position; code that may raise returns an [outcome]. *)

From Stdlib Require Import ZArith Lia Strings.Byte Ascii String.
From stdpp Require Import base option list strings pretty gmap.

Local Open Scope string_scope.
Local Open Scope list_scope.
Local Open Scope Z_scope.

(** ** Python outcomes *)

Module Py.

(** The exception classes that the modelled code raises or catches.  An
    exception that the code raises itself carries its message; one that the
    interpreter or a library raises ([AssertionError] from [assert],
    [UnboundLocalError], [AttributeError], [OSError]) carries a label of
    what failed in place of the interpreter's message. *)
Inductive exn : Type :=
  | TypeError (msg : string)
  | ValueError (msg : string)
  | RuntimeError (msg : string)
  | AssertionError (msg : string)
  | UnboundLocalError (var : string)
  | IndexError
  | struct_error
  | ProtocolError (msg : string)
  | ShortRead (expected got : Z)
  | RPCTimeout
  | EOFError
  | ConnectionResetError
  | OSError (msg : string)
  | AttributeError (msg : string).

(** [class ShortRead(ProtocolError)] *)
Definition is_ProtocolError (e : exn) : bool :=
  match e with
  | ProtocolError _ | ShortRead _ _ => true
  | _ => false
  end.

Definition is_RuntimeError (e : exn) : bool :=
  match e with RuntimeError _ => true | _ => false end.

Definition is_RPCTimeout (e : exn) : bool :=
  match e with RPCTimeout => true | _ => false end.

(** The tuple of [except (ConnectionResetError, EOFError, ProtocolError, RPCTimeout)]. *)
Definition is_wire_error (e : exn) : bool :=
  match e with
  | ConnectionResetError | EOFError | RPCTimeout => true
  | _ => is_ProtocolError e
  end.

Inductive outcome (A : Type) : Type :=
  | Ret (a : A)
  | Raise (e : exn).
Arguments Ret {A} a.
Arguments Raise {A} e.

Definition bind {A B} (m : outcome A) (k : A -> outcome B) : outcome B :=
  match m with
  | Ret a => k a
  | Raise e => Raise e
  end.

Definition raises {A} (m : outcome A) : Prop :=
  match m with Ret _ => False | Raise _ => True end.

End Py.
Export Py.

(** ** [annotated_enum] and its subclasses *)

Module Enum.

(** The subclasses of [annotated_enum] declared in the two protocol files. *)
Inductive enum_class : Type :=
  | msg_type | reply_stat | accept_stat | reject_stat | Auth_stat
  | mountstat3 | nfsstat3 | ftype3 | stable_how | createmode3 | time_how.

#[global] Instance enum_class_eq_dec : EqDecision enum_class.
Proof. solve_decision. Defined.

Definition __name__ (c : enum_class) : string :=
  match c with
  | msg_type => "msg_type" | reply_stat => "reply_stat"
  | accept_stat => "accept_stat" | reject_stat => "reject_stat"
  | Auth_stat => "Auth_stat" | mountstat3 => "mountstat3"
  | nfsstat3 => "nfsstat3" | ftype3 => "ftype3"
  | stable_how => "stable_how" | createmode3 => "createmode3"
  | time_how => "time_how"
  end.

(** Class attributes.  The base class sets [_SUCCESSVAL = 0],
    [_MISMATCH_CMP_ALLOW = False], [_MISMATCH_CMP_EXCEPT = False]; a
    subclass overrides what its body assigns. *)
Definition _SUCCESSVAL (c : enum_class) : option Z :=
  match c with
  | reject_stat | Auth_stat | ftype3 | stable_how | createmode3 | time_how => None
  | msg_type | reply_stat | accept_stat | mountstat3 | nfsstat3 => Some 0
  end.

Definition _MISMATCH_CMP_ALLOW (c : enum_class) : bool :=
  match c with
  | reply_stat | accept_stat | reject_stat | Auth_stat | mountstat3 | nfsstat3 => true
  | msg_type | ftype3 | stable_how | createmode3 | time_how => false
  end.

Definition _MISMATCH_CMP_EXCEPT (c : enum_class) : bool := false.

Definition _XLAT (c : enum_class) : gmap Z string :=
  match c with
  | msg_type => list_to_map [(0, "CALL"); (1, "REPLY")]
  | reply_stat => list_to_map [(0, "MSG_ACCEPTED"); (1, "MSG_DENIED")]
  | accept_stat =>
      list_to_map [(0, "SUCCESS"); (1, "PROG_UNAVAIL"); (2, "PROG_MISMATCH");
                   (3, "PROC_UNAVAIL"); (4, "GARBAGE_ARGS")]
  | reject_stat => list_to_map [(0, "RPC_MISMATCH"); (1, "AUTH_ERROR")]
  | Auth_stat =>
      list_to_map [(1, "AUTH_BADCRED"); (2, "AUTH_REJECTEDCRED"); (3, "AUTH_BADVERF");
                   (4, "AUTH_REJECTEDVERF"); (5, "AUTH_TOOWEAK")]
  | mountstat3 =>
      list_to_map [(0, "MNT3_OK"); (1, "MNT3ERR_PERM"); (2, "MNT3ERR_NOENT");
                   (5, "MNT3ERR_IO"); (13, "MNT3ERR_ACCES"); (20, "MNT3ERR_NOTDIR");
                   (22, "MNT3ERR_INVAL"); (63, "MNT3ERR_NAMETOOLONG");
                   (10004, "MNT3ERR_NOTSUPP"); (10006, "MNT3ERR_SERVERFAULT")]
  | nfsstat3 =>
      list_to_map [(0, "NFS3_OK"); (1, "NFS3ERR_PERM"); (2, "NFS3ERR_NOENT");
                   (5, "NFS3ERR_IO"); (6, "NFS3ERR_NXIO"); (13, "NFS3ERR_ACCES");
                   (17, "NFS3ERR_EXIST"); (18, "NFS3ERR_XDEV"); (19, "NFS3ERR_NODEV");
                   (20, "NFS3ERR_NOTDIR"); (21, "NFS3ERR_ISDIR"); (22, "NFS3ERR_INVAL");
                   (27, "NFS3ERR_FBIG"); (28, "NFS3ERR_NOSPC"); (30, "NFS3ERR_ROFS");
                   (31, "NFS3ERR_MLINK"); (63, "NFS3ERR_NAMETOOLONG");
                   (66, "NFS3ERR_NOTEMPTY"); (69, "NFS3ERR_DQUOT"); (70, "NFS3ERR_STALE");
                   (71, "NFS3ERR_REMOTE"); (10001, "NFS3ERR_BADHANDLE");
                   (10002, "NFS3ERR_NOT_SYNC"); (10003, "NFS3ERR_BAD_COOKIE");
                   (10004, "NFS3ERR_NOTSUPP"); (10005, "NFS3ERR_TOOSMALL");
                   (10006, "NFS3ERR_SERVERFAULT"); (10007, "NFS3ERR_BADTYPE");
                   (10008, "NFS3ERR_JUKEBOX")]
  | ftype3 =>
      list_to_map [(0, "invalid"); (1, "NF3REG"); (2, "NF3DIR"); (3, "NF3BLK");
                   (4, "NF3CHR"); (5, "NF3LNK"); (6, "NF3SOCK"); (7, "NF3FIFO")]
  | stable_how => list_to_map [(0, "UNSTABLE"); (1, "DATA_SYNC"); (2, "FILE_SYNC")]
  | createmode3 => list_to_map [(0, "UNCHECKED"); (1, "GUARDED"); (2, "EXCLUSIVE")]
  | time_how =>
      list_to_map [(0, "DONT_CHANGE"); (1, "SET_TO_SERVER_TIME"); (2, "SET_TO_CLIENT_TIME")]
  end.

(** An instance: its class ([type(self)]) and [self._val]. *)
Record annotated_enum : Type := mk_enum { type_of : enum_class; _val : Z }.

#[global] Instance annotated_enum_eq_dec : EqDecision annotated_enum.
Proof. solve_decision. Defined.

(** The values [__eq__] may meet on its right-hand side. *)
Inductive pyval : Type :=
  | PEnum (e : annotated_enum)
  | PStr (s : string)
  | PInt (z : Z)
  | PNone.

(** What [__eq__] sends to [logger.warning] before it answers. *)
Inductive warning : Type :=
  | warn_mismatched_enums (self_name other_name : string)
  | warn_non_enum (self_name other_type : string).

Definition py_type_name (v : pyval) : string :=
  match v with
  | PEnum e => __name__ (type_of e)
  | PStr _ => "str"
  | PInt _ => "int"
  | PNone => "NoneType"
  end.

(** [self._val == other] for an [other] that is no annotated_enum. *)
Definition val_eq_py (v : Z) (other : pyval) : bool :=
  match other with
  | PInt z => v =? z
  | _ => false
  end.

(** [annotated_enum.__eq__]: the warnings logged and the result. *)
Definition __eq__ (self : annotated_enum) (other : pyval) : list warning * outcome bool :=
  let c := type_of self in
  match other with
  | PEnum o =>
      if decide (c = type_of o) then ([], Ret (_val self =? _val o))
      else if _MISMATCH_CMP_ALLOW c then ([], Ret false)
      else
        let w := [warn_mismatched_enums (__name__ c) (__name__ (type_of o))] in
        if _MISMATCH_CMP_EXCEPT c
        then (w, Raise (TypeError "attempt to compare (eq) mismatched enums"))
        else (w, Ret (_val self =? _val o))
  | _ =>
      let w := [warn_non_enum (__name__ c) (py_type_name other)] in
      match other with
      | PStr _ =>
          if _MISMATCH_CMP_ALLOW c then ([], Ret false)
          else if _MISMATCH_CMP_EXCEPT c
          then (w, Raise (TypeError "attempt to compare (eq) with non-annotated_enum"))
          else (w, Ret (val_eq_py (_val self) other))
      | _ =>
          if _MISMATCH_CMP_EXCEPT c
          then (w, Raise (TypeError "attempt to compare (eq) with non-annotated_enum"))
          else (w, Ret (val_eq_py (_val self) other))
      end
  end.

(** [__ne__] is [not self.__eq__(other)]. *)
Definition __ne__ (self : annotated_enum) (other : pyval) : list warning * outcome bool :=
  let '(w, r) := __eq__ self other in (w, bind r (fun b => Ret (negb b))).

(** [__bool__]: the is-error check. *)
Definition __bool__ (self : annotated_enum) : bool :=
  match _SUCCESSVAL (type_of self) with
  | None => false
  | Some s => negb (_val self =? s)
  end.

Definition string_of (self : annotated_enum) : string :=
  default "?" (_XLAT (type_of self) !! _val self).

(** [valid] on an integer or enum value. *)
Definition valid (c : enum_class) (value : Z) : bool :=
  bool_decide (is_Some (_XLAT c !! value)).

End Enum.

(** ** XDR primitives of [ONCRPCwire] *)

Module Wire.

(** An [io.BytesIO]: the buffer and the current position.  A position past
    the end is legal (reads then return nothing). *)
Record BytesIO : Type := mk_stream { getvalue : list byte; tell : nat }.

Definition BytesIO_of (b : list byte) : BytesIO := mk_stream b 0.

#[global] Instance byte_eq_dec : EqDecision byte := Byte.byte_eq_dec.

(** The bytes between the position and the end. *)
Definition unread (s : BytesIO) : list byte := drop (tell s) (getvalue s).

(** [stream.read(count)]: at most [count] bytes, all of them if [count < 0]. *)
Definition stream_read (count : Z) (s : BytesIO) : list byte * BytesIO :=
  let data := if count <? 0 then unread s else take (Z.to_nat count) (unread s) in
  (data, mk_stream (getvalue s) (tell s + length data)).

(** [stream.seek(off, io.SEEK_CUR)] for [off >= 0]. *)
Definition seek_cur (off : Z) (s : BytesIO) : BytesIO :=
  mk_stream (getvalue s) (tell s + Z.to_nat off).

(** A decoder: reads from a stream, returns a value and the stream after it,
    or raises. *)
Definition reader (A : Type) : Type := BytesIO -> outcome (A * BytesIO).

Definition rret {A} (a : A) : reader A := fun s => Ret (a, s).
Definition rraise {A} (e : exn) : reader A := fun _ => Raise e.
Definition rbind {A B} (m : reader A) (k : A -> reader B) : reader B :=
  fun s => match m s with
           | Ret (a, s') => k a s'
           | Raise e => Raise e
           end.

Declare Scope reader_scope.
Delimit Scope reader_scope with reader.
Notation "x <- m ;; k" := (rbind m (fun x => k))
  (at level 100, m at level 99, k at level 200) : reader_scope.
Notation "m ;;; k" := (rbind m (fun _ => k))
  (at level 100, k at level 200) : reader_scope.
Local Open Scope reader_scope.

(** Big-endian unsigned value of a byte string. *)
Definition be_uint (b : list byte) : Z :=
  fold_left (fun acc x => acc * 256 + Z.of_N (Byte.to_N x)) b 0.

(** Two's complement reading of a [w]-byte unsigned value. *)
Definition to_signed (w : Z) (v : Z) : Z :=
  if v <? 2 ^ (8 * w - 1) then v else v - 2 ^ (8 * w).

(** The [struct] format characters of the modelled decoders:
    [I] (uint32), [i] (int32) and [Q] (uint64), in network order. *)
Inductive fmt : Type := fI | fi | fQ.

Definition fmt_size (f : fmt) : nat :=
  match f with fI | fi => 4%nat | fQ => 8%nat end.

Definition calcsize (fmts : list fmt) : nat := sum_list (fmt_size <$> fmts).

(** [struct.unpack('!...', b)]: one integer per field. *)
Fixpoint unpack_fields (fmts : list fmt) (b : list byte) : list Z :=
  match fmts with
  | [] => []
  | f :: fmts' =>
      let field := take (fmt_size f) b in
      let v := match f with
               | fi => to_signed 4 (be_uint field)
               | _ => be_uint field
               end in
      v :: unpack_fields fmts' (drop (fmt_size f) b)
  end.

Definition unpack (fmts : list fmt) (b : list byte) : outcome (list Z) :=
  if decide (length b = calcsize fmts) then Ret (unpack_fields fmts b)
  else Raise struct_error.

(** [read_exact] *)
Definition read_exact (count : Z) : reader (list byte) := fun s =>
  let '(ret, s') := stream_read count s in
  if decide (Z.of_nat (length ret) = count) then Ret (ret, s')
  else Raise (ShortRead count (Z.of_nat (length ret))).

(** [read_then_align] *)
Definition read_then_align (count align : Z) : reader (list byte) :=
  ret <- read_exact count ;;
  let extra := count mod align in
  if extra =? 0 then rret ret
  else read_exact (align - extra) ;;; rret ret.

Definition read_uint64 : reader Z := b <- read_exact 8 ;; rret (be_uint b).
Definition read_uint32 : reader Z := b <- read_exact 4 ;; rret (be_uint b).
Definition read_int32 : reader Z := b <- read_exact 4 ;; rret (to_signed 4 (be_uint b)).
Definition read_bool : reader bool :=
  b <- read_exact 4 ;; rret (negb (to_signed 4 (be_uint b) =? 0)).
Definition read_enum : reader Z := b <- read_exact 4 ;; rret (to_signed 4 (be_uint b)).

(** [read_bytes] *)
Definition read_bytes : reader (list byte) :=
  count <- read_uint32 ;; read_exact count.

(** [discard_auth]: flavor and length, then a seek over the body. *)
Definition discard_auth : reader unit :=
  b <- read_exact 8 ;;
  let stuff_len := be_uint (drop 4 b) in
  fun s => Ret (tt, seek_cur stuff_len s).

(** [read_array]: a count, then that many items. *)
Fixpoint read_items {A} (read_item : reader A) (n : nat) : reader (list A) :=
  match n with
  | O => rret []
  | S n' => x <- read_item ;; xs <- read_items read_item n' ;; rret (x :: xs)
  end.

Definition read_array {A} (read_item : reader A) : reader (list A) :=
  count <- read_uint32 ;; read_items read_item (Z.to_nat count).

(** [read_list]: the [while True] loop, bounded by [fuel] iterations.
    [None] means the bound was reached before the loop left. *)
Fixpoint read_list_loop {A} (fuel : nat) (read_item : reader A) (ret : list A)
    (s : BytesIO) : option (outcome (list A * BytesIO)) :=
  match fuel with
  | O => None
  | S fuel' =>
      match read_uint32 s with
      | Raise e => Some (Raise e)
      | Ret (nextval, s1) =>
          if nextval =? 0 then Some (Ret (ret, s1))
          else if negb (nextval =? 1)
          then Some (Raise (ProtocolError "unexpected nextval"))
          else match read_item s1 with
               | Raise e => Some (Raise e)
               | Ret (x, s2) => read_list_loop fuel' read_item (ret ++ [x]) s2
               end
      end
  end.

(** Every iteration reads a four-byte marker, so the unread length bounds
    the number of iterations of a decoder that only reads forward. *)
Definition read_list {A} (read_item : reader A) (s : BytesIO)
    : option (outcome (list A * BytesIO)) :=
  read_list_loop (S (length (unread s))) read_item [] s.

End Wire.

(** ** RPC results and the NFSv3 decoders *)

Module NFS3.
Import Enum Wire.
Local Open Scope reader_scope.

(** [ONCRPCres]: the transaction id, the status (an enum for a decoded reply,
    a string for a failure below the protocol) and, unless the object is an
    [ONCRPCresfail], the decoded fields of the result class. *)
Record ONCRPCres (B : Type) : Type :=
  mk_res { xid : option Z; status : pyval; body : option B }.
Arguments mk_res {B} xid status body.
Arguments xid {B} _.
Arguments status {B} _.
Arguments body {B} _.

Definition ONCRPCresfail {B} (x : Z) (st : pyval) : ONCRPCres B :=
  mk_res (Some x) st None.

Definition ONCRPCresfailTimeout {B} (x : Z) : ONCRPCres B :=
  ONCRPCresfail x (PStr "RPCTimeout").

Definition set_xid {B} (x : Z) (r : ONCRPCres B) : ONCRPCres B :=
  mk_res (Some x) (status r) (body r).

Definition set_status {B} (st : pyval) (r : ONCRPCres B) : ONCRPCres B :=
  mk_res (xid r) st (body r).

Definition NFS3_FHSIZE : Z := 64.

Definition nfsstat3_NFS3_OK : annotated_enum := mk_enum nfsstat3 0.
Definition nfsstat3_NFS3ERR_NOENT : annotated_enum := mk_enum nfsstat3 2.
Definition nfsstat3_NFS3ERR_JUKEBOX : annotated_enum := mk_enum nfsstat3 10008.
Definition mountstat3_MNT3_OK : annotated_enum := mk_enum mountstat3 0.

(** [isinstance(v, nfs3.nfsstat3)] *)
Definition isinstance_nfsstat3 (v : pyval) : bool :=
  match v with
  | PEnum e => bool_decide (type_of e = nfsstat3)
  | _ => false
  end.

(** [status != const] for a constant of an enum class that sets
    [_MISMATCH_CMP_ALLOW]: Python asks the left operand first, and a string,
    an integer or [None] on the left defers to the enum on the right. *)
Definition status_ne (st : pyval) (const : annotated_enum) : bool :=
  match st with
  | PEnum e =>
      match snd (__ne__ e (PEnum const)) with Ret b => b | Raise _ => true end
  | _ =>
      match snd (__ne__ const st) with Ret b => b | Raise _ => true end
  end.

(** [vararray.read] *)
Definition vararray_read : reader (list byte) :=
  count <- read_uint32 ;; read_then_align count 4.

(** [vararray_limited.read] with the class's [_MAXSIZE] *)
Definition vararray_limited_read (_MAXSIZE : Z) : reader (list byte) :=
  count <- read_uint32 ;;
  if _MAXSIZE <? count then rraise (ProtocolError "count exceeds limit")
  else read_then_align count 4.

Definition nfs_fh3_read : reader (list byte) := vararray_limited_read NFS3_FHSIZE.

Record nfstime3 : Type := mk_time { seconds : Z; nseconds : Z }.
Record specdata3 : Type := mk_spec { specdata1 : Z; specdata2 : Z }.

Record fattr3 : Type := mk_fattr3 {
  ftype : annotated_enum; mode : Z; nlink : Z; uid : Z; gid : Z;
  size : Z; used : Z; rdev : specdata3; fsid : Z; fileid : Z;
  atime : nfstime3; mtime : nfstime3; ctime : nfstime3 }.

(** [fattr3._RFMT = '!iIIIIQQIIQQIIIIII'] *)
Definition fattr3_RFMT : list fmt :=
  [fi; fI; fI; fI; fI; fQ; fQ; fI; fI; fQ; fQ; fI; fI; fI; fI; fI; fI].
Definition fattr3_RSZ : Z := Z.of_nat (calcsize fattr3_RFMT).

Definition fattr3_read : reader fattr3 :=
  b <- read_exact fattr3_RSZ ;;
  match unpack fattr3_RFMT b with
  | Ret [t; m; n; u; g; sz; us; r1; r2; fsd; fid; a1; a2; m1; m2; c1; c2] =>
      rret (mk_fattr3 (mk_enum ftype3 t) m n u g sz us (mk_spec r1 r2) fsd fid
              (mk_time a1 a2) (mk_time m1 m2) (mk_time c1 c2))
  | Ret _ => rraise struct_error
  | Raise e => rraise e
  end.

(** [post_op_attr]: [attributes_follow] and, when set, the attributes. *)
Definition post_op_attr : Type := option fattr3.

Definition post_op_attr_read : reader post_op_attr :=
  attributes_follow <- read_bool ;;
  if attributes_follow then (a <- fattr3_read ;; rret (Some a)) else rret None.

(** [entry3] *)
Record entry3 : Type := mk_entry3 { e_fileid : Z; e_name : list byte; e_cookie : Z }.

Definition entry3_read : reader entry3 :=
  b <- read_exact 12 ;;
  match unpack [fQ; fI] b with
  | Ret [fid; count] =>
      nm <- read_then_align count 4 ;;
      ck <- read_uint64 ;;
      rret (mk_entry3 fid nm ck)
  | Ret _ => rraise struct_error
  | Raise e => rraise e
  end.

(** [NFS3RPCres.generate_from_status] *)
Definition generate_from_status : reader annotated_enum :=
  v <- read_int32 ;; rret (mk_enum nfsstat3 v).

(** The fields of [READ3res] besides the status. *)
Record READ3fields : Type := mk_READ3 {
  file_attributes : post_op_attr;
  count : option Z;
  eof : option bool;
  data : option (list byte) }.

(** [READ3res.read] *)
Definition READ3res_read : reader (ONCRPCres READ3fields) :=
  st <- generate_from_status ;;
  if _val st =? _val nfsstat3_NFS3_OK then
    fa <- post_op_attr_read ;;
    b <- read_exact 12 ;;
    match unpack [fI; fi; fI] b with
    | Ret [cnt; eof_val; oc] =>
        data_val <- read_exact oc ;;
        rret (mk_res None (PEnum st)
                (Some (mk_READ3 fa (Some cnt) (Some (negb (eof_val =? 0))) (Some data_val))))
    | Ret _ => rraise struct_error
    | Raise e => rraise e
    end
  else
    fa <- post_op_attr_read ;;
    rret (mk_res None (PEnum st) (Some (mk_READ3 fa None None None))).

(** [READLINK3res.read]: the link text is an [nfspath3], read by [vararray.read]. *)
Record READLINK3fields : Type := mk_READLINK3 {
  symlink_attributes : post_op_attr;
  link_data : option (list byte) }.

Definition READLINK3res_read : reader (ONCRPCres READLINK3fields) :=
  st <- generate_from_status ;;
  if _val st =? _val nfsstat3_NFS3_OK then
    sa <- post_op_attr_read ;;
    d <- vararray_read ;;
    rret (mk_res None (PEnum st) (Some (mk_READLINK3 sa (Some d))))
  else
    sa <- post_op_attr_read ;;
    rret (mk_res None (PEnum st) (Some (mk_READLINK3 sa None))).

End NFS3.

(** ** The TCP transport: [_RawTCPClient] *)

Module RawTCPClient.
Import Enum Wire NFS3.

Definition RPCVERSION : Z := 2.
Definition AUTH_NULL : Z := 0.
Definition AUTH_UNIX : Z := 1.
Definition callTries_default : Z := 2.

Definition CALL : annotated_enum := mk_enum msg_type 0.
Definition REPLY : annotated_enum := mk_enum msg_type 1.
Definition MSG_ACCEPTED : annotated_enum := mk_enum reply_stat 0.
Definition MSG_DENIED : annotated_enum := mk_enum reply_stat 1.
Definition SUCCESS : annotated_enum := mk_enum accept_stat 0.
Definition RPC_MISMATCH : annotated_enum := mk_enum reject_stat 0.
Definition AUTH_ERROR : annotated_enum := mk_enum reject_stat 1.
Definition AUTH_BADCRED : annotated_enum := mk_enum Auth_stat 1.
Definition AUTH_TOOWEAK : annotated_enum := mk_enum Auth_stat 5.

(** [Credential(flavor, data)] *)
Record Credential : Type := mk_cred { flavor : Z; cred_data : list byte }.

(** The client classes of the three files: [_RawTCPClient], its subclasses
    in [rpc_rfc1057.py], the MOUNT3 and NFS3 clients of [nfs3.py] and their
    subclasses of the same names in [nfs3_util.py]. *)
Inductive client_class : Type :=
  | _RawTCPClient
  | TCPPortMapperClient
  | TCPClient
  | nfs3_MOUNT3_Client
  | nfs3_NFS3_Client
  | nfs3_util_MOUNT3_Client
  | nfs3_util_NFS3_Client.

#[global] Instance client_class_eq_dec : EqDecision client_class.
Proof. solve_decision. Defined.

Definition client_class_index (c : client_class) : nat :=
  match c with
  | _RawTCPClient => 0 | TCPPortMapperClient => 1 | TCPClient => 2
  | nfs3_MOUNT3_Client => 3 | nfs3_NFS3_Client => 4
  | nfs3_util_MOUNT3_Client => 5 | nfs3_util_NFS3_Client => 6
  end%nat.

Definition client_class_of_index (n : nat) : client_class :=
  match n with
  | 0 => _RawTCPClient | 1 => TCPPortMapperClient | 2 => TCPClient
  | 3 => nfs3_MOUNT3_Client | 4 => nfs3_NFS3_Client
  | 5 => nfs3_util_MOUNT3_Client | _ => nfs3_util_NFS3_Client
  end%nat.

#[global] Instance client_class_countable : Countable client_class.
Proof.
  apply (inj_countable' client_class_index client_class_of_index).
  intros []; reflexivity.
Defined.

(** The method resolution order of each class: the class, then its bases. *)
Definition mro (c : client_class) : list client_class :=
  match c with
  | _RawTCPClient => [_RawTCPClient]
  | TCPPortMapperClient => [TCPPortMapperClient; _RawTCPClient]
  | TCPClient => [TCPClient; _RawTCPClient]
  | nfs3_MOUNT3_Client => [nfs3_MOUNT3_Client; TCPClient; _RawTCPClient]
  | nfs3_NFS3_Client => [nfs3_NFS3_Client; TCPClient; _RawTCPClient]
  | nfs3_util_MOUNT3_Client =>
      [nfs3_util_MOUNT3_Client; nfs3_MOUNT3_Client; TCPClient; _RawTCPClient]
  | nfs3_util_NFS3_Client =>
      [nfs3_util_NFS3_Client; nfs3_NFS3_Client; TCPClient; _RawTCPClient]
  end.

(** The [_lastxid] attributes that assignments have put on classes are kept
    in a map from classes.  The body of [_RawTCPClient] sets [_lastxid = 0];
    an assignment through [cls._lastxid] in a class method sets the
    attribute on [cls] itself.  Reading [cls._lastxid] finds the first class
    of the resolution order that holds the attribute, down to the 0 of the
    class body. *)
Fixpoint lookup_mro (attrs : gmap client_class Z) (classes : list client_class) : Z :=
  match classes with
  | [] => 0
  | c :: classes' =>
      match attrs !! c with
      | Some v => v
      | None => lookup_mro attrs classes'
      end
  end.

Definition getattr_lastxid (cls : client_class) (attrs : gmap client_class Z) : Z :=
  lookup_mro attrs (mro cls).

(** What the constructor fixes: the class of the object, program, version,
    and which [mkcred] the class binds ([mkcred_null] for the base class,
    [mkcred_unix] for the MOUNT3 and NFS3 clients, whose body
    [make_auth_unix] builds from the host's clock, name and ids). *)
Record config : Type := mk_config {
  prog : Z; vers : Z;
  mkcred_is_unix : bool;
  make_auth_unix : list byte;
  client_cls : client_class }.

(** The fields of a client object that the call path reads or writes.  A
    socket is named by its serial number. *)
Record client : Type := mk_client {
  sock : option nat;
  _ever_tried_reconnect : bool;
  need_reconnect : bool;
  cred : option Credential;
  verf : option Credential }.

(** [__init__] *)
Definition client_init : client := mk_client None false true None None.

(** The network, as the sequence of results that the socket layer will give
    to the successive connection attempts, sends and receives.
    [*_deadline] stands for a per-attempt deadline that has already passed
    when the call is about to touch the socket.  [send_ok]: [sock.send]
    takes the whole buffer; [send_short n]: it takes the first [n] bytes
    only and returns that count. *)
Inductive connect_result : Type :=
  | connect_ok
  | makesocket_raises (e : exn)
  | bind_or_connect_raises (e : exn).

Inductive send_result : Type :=
  | send_ok | send_short (n : nat) | send_deadline | send_timeout | send_raises (e : exn).

Inductive recv_result : Type :=
  | recv_data (b : list byte) | recv_deadline | recv_timeout | recv_raises (e : exn).

Record network : Type := mk_net {
  connects : list connect_result;
  sends : list send_result;
  recvs : list recv_result }.

(** What an observer of the sockets sees. *)
Inductive wire_event : Type :=
  | Closed (k : nat)
  | Connected (k : nat)
  | Sent (k : nat) (record : list byte).

(** The process: the client object, the [_lastxid] attributes of the
    classes, the network still to come and the events so far. *)
Record world : Type := mk_world {
  cli : client;
  _lastxid : gmap client_class Z;
  net : network;
  nsock : nat;
  events : list wire_event }.

(** Computations over the process.  An exception leaves the state as it was
    when it was raised.  [None]: the network script or a loop bound ended. *)
Definition M (A : Type) : Type := world -> option (outcome A * world).

Definition mret {A} (a : A) : M A := fun w => Some (Ret a, w).
Definition mraise {A} (e : exn) : M A := fun w => Some (Raise e, w).
Definition mbind {A B} (m : M A) (k : A -> M B) : M B :=
  fun w => match m w with
           | Some (Ret a, w') => k a w'
           | Some (Raise e, w') => Some (Raise e, w')
           | None => None
           end.

Declare Scope rpc_scope.
Delimit Scope rpc_scope with rpc.
Notation "x <- m ;; k" := (mbind m (fun x => k))
  (at level 100, m at level 99, k at level 200) : rpc_scope.
Notation "m ;;; k" := (mbind m (fun _ => k))
  (at level 100, k at level 200) : rpc_scope.
Local Open Scope rpc_scope.

Definition lift {A} (o : outcome A) : M A := fun w => Some (o, w).

Definition get_cli : M client := fun w => Some (Ret (cli w), w).
Definition put_cli (c : client) : M unit := fun w =>
  Some (Ret tt, mk_world c (_lastxid w) (net w) (nsock w) (events w)).
Definition modify_cli (f : client -> client) : M unit :=
  c <- get_cli ;; put_cli (f c).
Definition emit (e : wire_event) : M unit := fun w =>
  Some (Ret tt, mk_world (cli w) (_lastxid w) (net w) (nsock w) (events w ++ [e])).

Definition set_need_reconnect (b : bool) (c : client) : client :=
  mk_client (sock c) (_ever_tried_reconnect c) b (cred c) (verf c).
Definition set_sock (s : option nat) (c : client) : client :=
  mk_client s (_ever_tried_reconnect c) (need_reconnect c) (cred c) (verf c).
Definition set_ever_tried (c : client) : client :=
  mk_client (sock c) true (need_reconnect c) (cred c) (verf c).
Definition set_cred (x : option Credential) (c : client) : client :=
  mk_client (sock c) (_ever_tried_reconnect c) (need_reconnect c) x (verf c).
Definition set_verf (x : option Credential) (c : client) : client :=
  mk_client (sock c) (_ever_tried_reconnect c) (need_reconnect c) (cred c) x.

(** The class methods [xid_used] and [get_new_xid]: the value read from
    [cls._lastxid] and the value assigned to it. *)
Definition xid_used_pure (xid lastxid : Z) : Z := Z.max lastxid xid.
Definition get_new_xid_pure (lastxid : Z) : Z * Z := (lastxid + 1, lastxid + 1).

(** On the attributes: [cls._lastxid = max(cls._lastxid, xid)] and
    [cls._lastxid += 1] read through the resolution order of [cls] and
    assign on [cls]. *)
Definition xid_used_attrs (cls : client_class) (xid : Z) (attrs : gmap client_class Z)
    : gmap client_class Z :=
  <[cls := xid_used_pure xid (getattr_lastxid cls attrs)]> attrs.

Definition get_new_xid_attrs (cls : client_class) (attrs : gmap client_class Z)
    : Z * gmap client_class Z :=
  let '(x, l) := get_new_xid_pure (getattr_lastxid cls attrs) in (x, <[cls := l]> attrs).

(** Called on the class [cls], or on an object of that class. *)
Definition xid_used (cls : client_class) (xid : Z) : M unit := fun w =>
  Some (Ret tt, mk_world (cli w) (xid_used_attrs cls xid (_lastxid w)) (net w) (nsock w)
                         (events w)).
Definition get_new_xid (cls : client_class) : M Z := fun w =>
  let '(x, attrs) := get_new_xid_attrs cls (_lastxid w) in
  Some (Ret x, mk_world (cli w) attrs (net w) (nsock w) (events w)).

(** Taking the next scripted result of each kind. *)
Definition next_connect : M connect_result := fun w =>
  match connects (net w) with
  | [] => None
  | r :: rest =>
      Some (Ret r, mk_world (cli w) (_lastxid w)
                     (mk_net rest (sends (net w)) (recvs (net w))) (nsock w) (events w))
  end.
Definition next_send : M send_result := fun w =>
  match sends (net w) with
  | [] => None
  | r :: rest =>
      Some (Ret r, mk_world (cli w) (_lastxid w)
                     (mk_net (connects (net w)) rest (recvs (net w))) (nsock w) (events w))
  end.
Definition next_recv : M recv_result := fun w =>
  match recvs (net w) with
  | [] => None
  | r :: rest =>
      Some (Ret r, mk_world (cli w) (_lastxid w)
                     (mk_net (connects (net w)) (sends (net w)) rest) (nsock w) (events w))
  end.
Definition fresh_sock : M nat := fun w =>
  Some (Ret (nsock w), mk_world (cli w) (_lastxid w) (net w) (S (nsock w)) (events w)).

(** [close] *)
Definition close : M unit :=
  c <- get_cli ;;
  match sock c with
  | Some k => emit (Closed k) ;;; put_cli (set_sock None c)
  | None => mret tt
  end.

(** [reconnect]: the [finally] clause runs on both paths. *)
Definition reconnect : M unit :=
  close ;;;
  r <- next_connect ;;
  match r with
  | makesocket_raises e => modify_cli set_ever_tried ;;; mraise e
  | bind_or_connect_raises e =>
      k <- fresh_sock ;;
      modify_cli (fun c => set_ever_tried (set_sock (Some k) c)) ;;; mraise e
  | connect_ok =>
      k <- fresh_sock ;;
      emit (Connected k) ;;;
      modify_cli (fun c =>
        set_ever_tried (set_need_reconnect false (set_verf None (set_cred None (set_sock (Some k) c)))))
  end.

(** [struct.pack] of one field; out-of-range values raise [struct.error]. *)
Definition byte_of (z : Z) : byte := default x00 (Byte.of_N (Z.to_N (z mod 256))).

Fixpoint be_bytes (w : nat) (v : Z) : list byte :=
  match w with
  | O => []
  | S w' => be_bytes w' (v / 256) ++ [byte_of v]
  end.

Definition pack_I (v : Z) : outcome (list byte) :=
  if (0 <=? v) && (v <? 2 ^ 32) then Ret (be_bytes 4 v) else Raise struct_error.

Definition pack_i (v : Z) : outcome (list byte) :=
  if (- 2 ^ 31 <=? v) && (v <? 2 ^ 31) then Ret (be_bytes 4 (v mod 2 ^ 32))
  else Raise struct_error.

(** [write_then_align]: the data, then zeros up to the alignment. *)
Definition write_then_align (data : list byte) (align : Z) : list byte :=
  let extra := Z.of_nat (length data) mod align in
  if extra =? 0 then data else data ++ replicate (Z.to_nat (align - extra)) x00.

(** [write_bytes] *)
Definition write_bytes (data : list byte) : outcome (list byte) :=
  Py.bind (pack_I (Z.of_nat (length data))) (fun l => Ret (l ++ write_then_align data 4)).

(** [Credential.write] *)
Definition Credential_write (c : Credential) : outcome (list byte) :=
  Py.bind (pack_i (flavor c)) (fun f =>
  Py.bind (write_bytes (cred_data c)) (fun d => Ret (f ++ d))).

(** [mkcred_null], [mkcred_unix] and [mkverf_null], with their caches. *)
Definition mkcred (cfg : config) : M Credential :=
  c <- get_cli ;;
  if mkcred_is_unix cfg then
    match cred c with
    | Some cr =>
        if flavor cr =? AUTH_UNIX then mret cr
        else let cr' := mk_cred AUTH_UNIX (make_auth_unix cfg) in
             put_cli (set_cred (Some cr') c) ;;; mret cr'
    | None =>
        let cr' := mk_cred AUTH_UNIX (make_auth_unix cfg) in
        put_cli (set_cred (Some cr') c) ;;; mret cr'
    end
  else
    match cred c with
    | Some cr => mret cr
    | None =>
        let cr' := mk_cred AUTH_NULL [] in
        put_cli (set_cred (Some cr') c) ;;; mret cr'
    end.

Definition mkverf : M Credential :=
  c <- get_cli ;;
  match verf c with
  | Some v => mret v
  | None =>
      let v := mk_cred AUTH_NULL [] in
      put_cli (set_verf (Some v) c) ;;; mret v
  end.

(** [_start_call]: returns what it appends to the stream. *)
Definition _start_call (cfg : config) (proc xid : Z) : M (list byte) :=
  xid_used (client_cls cfg) xid ;;;
  h <- lift (Py.bind (pack_I xid) (fun a =>
             Py.bind (pack_i (_val CALL)) (fun b =>
             Py.bind (pack_I RPCVERSION) (fun c =>
             Py.bind (pack_I (prog cfg)) (fun d =>
             Py.bind (pack_I (vers cfg)) (fun e =>
             Py.bind (pack_I proc) (fun f => Ret (a ++ b ++ c ++ d ++ e ++ f)))))))) ;;
  cr <- mkcred cfg ;;
  crw <- lift (Credential_write cr) ;;
  vf <- mkverf ;;
  vfw <- lift (Credential_write vf) ;;
  mret (h ++ crw ++ vfw).

(** [self.sock.settimeout(...)] on a client without a socket. *)
Definition no_sock : exn := AttributeError "'NoneType' object has no attribute 'settimeout'".

(** [_recvwrapper] *)
Definition _recvwrapper (bufsize : Z) : M (list byte) :=
  r <- next_recv ;;
  match r with
  | recv_deadline => mraise RPCTimeout
  | _ =>
      c <- get_cli ;;
      match sock c with
      | None => mraise no_sock
      | Some _ =>
          match r with
          | recv_data b => mret (take (Z.to_nat bufsize) b)
          | recv_timeout => modify_cli (set_need_reconnect true) ;;; mraise RPCTimeout
          | recv_raises e => modify_cli (set_need_reconnect true) ;;; mraise e
          | recv_deadline => mraise RPCTimeout
          end
      end
  end.

(** The [while n > 0] loop of [_recvfrag]. *)
Fixpoint _recvfrag_loop (fuel : nat) (n : Z) (recordbuf : list byte) : M (list byte) :=
  if 0 <? n then
    match fuel with
    | O => fun _ => None
    | S fuel' =>
        buf <- _recvwrapper n ;;
        match buf with
        | [] => modify_cli (set_need_reconnect true) ;;; mraise EOFError
        | _ => _recvfrag_loop fuel' (n - Z.of_nat (length buf)) (recordbuf ++ buf)
        end
    end
  else mret recordbuf.

(** [_recvfrag]: every turn of its loop takes one scripted receive. *)
Definition _recvfrag (recordbuf : list byte) : M (bool * list byte) :=
  header <- _recvwrapper 4 ;;
  if Z.of_nat (length header) <? 4 then
    modify_cli (set_need_reconnect true) ;;; mraise EOFError
  else
    let x := be_uint header in
    let last := negb (Z.land x 0x80000000 =? 0) in
    let n := Z.land x 0x7fffffff in
    fun w =>
      (buf <- _recvfrag_loop (length (recvs (net w))) n recordbuf ;; mret (last, buf)) w.

(** [_recvrecord] *)
Fixpoint _recvrecord_loop (fuel : nat) (recordbuf : list byte) : M BytesIO :=
  match fuel with
  | O => fun _ => None
  | S fuel' =>
      r <- _recvfrag recordbuf ;;
      if r.1 then mret (BytesIO_of r.2) else _recvrecord_loop fuel' r.2
  end.

Definition _recvrecord : M BytesIO :=
  fun w => _recvrecord_loop (length (recvs (net w))) [] w.

(** [_sendrecord]: [record_stream] starts with the four reserved bytes.
    [self.sock.send(record)] is called once and the count it returns is
    dropped, so after a short send the method returns as after a full one. *)
Definition _sendrecord (record_stream : list byte) : M unit :=
  let record_header := Z.of_nat (length record_stream) in
  if record_header <? 4 then mraise (AssertionError "record_header >= 4")
  else
    let record_header := Z.lor (record_header - 4) 0x80000000 in
    h <- lift (pack_I record_header) ;;
    let record := h ++ drop 4 record_stream in
    r <- next_send ;;
    match r with
    | send_deadline => mraise RPCTimeout
    | _ =>
        c <- get_cli ;;
        match sock c with
        | None => mraise no_sock
        | Some k =>
            match r with
            | send_ok => emit (Sent k record)
            | send_short n => emit (Sent k (take n record))
            | send_timeout => modify_cli (set_need_reconnect true) ;;; mraise RPCTimeout
            | send_raises e => modify_cli (set_need_reconnect true) ;;; mraise e
            | send_deadline => mraise RPCTimeout
            end
        end
    end.

(** The arguments object: its [xid] attribute, its [procname] and what its
    [write] appends to the stream (or raises). *)
Record ONCRPCargs : Type := mk_args {
  args_xid : option Z;
  procname : string;
  args_write : outcome (list byte) }.

(** [repr] of a [str] of printable ASCII characters: between single quotes,
    or between double quotes when the text holds a single quote and no
    double quote; a backslash and the delimiting quote are escaped. *)
Definition squote : ascii := "039"%char.
Definition dquote : ascii := "034"%char.
Definition bslash : ascii := "092"%char.

Fixpoint has_char (c : ascii) (s : string) : bool :=
  match s with
  | EmptyString => false
  | String a r => bool_decide (a = c) || has_char c r
  end.

Fixpoint escape (q : ascii) (s : string) : string :=
  match s with
  | EmptyString => EmptyString
  | String a r =>
      if bool_decide (a = bslash) || bool_decide (a = q)
      then String bslash (String a (escape q r))
      else String a (escape q r)
  end.

Definition str_repr (s : string) : string :=
  let q := if has_char squote s && negb (has_char dquote s) then dquote else squote in
  String q (escape q s) +:+ String q EmptyString.

(** [str(e)], as the ["%s" % e] of the handlers formats an exception: the
    message of an exception made with one. *)
Definition exn_str (e : exn) : string :=
  match e with
  | TypeError m | ValueError m | RuntimeError m | ProtocolError m
  | OSError m | AttributeError m | AssertionError m | UnboundLocalError m => m
  | ShortRead a b => "expected=" +:+ pretty a +:+ " got=" +:+ pretty b
  | IndexError | struct_error | RPCTimeout | EOFError | ConnectionResetError => ""
  end.

(** [repr(e)]: the class name and the arguments the exception was made
    with; for the labelled exceptions the label stands where the
    interpreter's message is. *)
Definition exn_repr (e : exn) : string :=
  match e with
  | TypeError m => "TypeError(" +:+ str_repr m +:+ ")"
  | ValueError m => "ValueError(" +:+ str_repr m +:+ ")"
  | RuntimeError m => "RuntimeError(" +:+ str_repr m +:+ ")"
  | AssertionError _ => "AssertionError()"
  | UnboundLocalError v => "UnboundLocalError(" +:+ str_repr v +:+ ")"
  | IndexError => "IndexError()"
  | struct_error => "error()"
  | ProtocolError m => "ProtocolError(" +:+ str_repr m +:+ ")"
  | ShortRead a b =>
      "ShortRead(" +:+ str_repr ("expected=" +:+ pretty a +:+ " got=" +:+ pretty b) +:+ ")"
  | RPCTimeout => "RPCTimeout()"
  | EOFError => "EOFError()"
  | ConnectionResetError => "ConnectionResetError()"
  | OSError m => "OSError(" +:+ str_repr m +:+ ")"
  | AttributeError m => "AttributeError(" +:+ str_repr m +:+ ")"
  end.

(** The second half of [_make_call_internal]: the reply record is read and
    dispatched.  The boolean asks for [self.need_reconnect = True]. *)
Definition reply_dispatch {B} (res_read : reader (ONCRPCres B)) (expect_xid : Z)
    : reader (ONCRPCres B * bool) :=
  (fun reply_stream =>
   let '(hdr, s0) := stream_read 12 reply_stream in
   match unpack [fI; fi; fi] hdr with
   | Raise e => Raise e
   | Ret [xid; mtype; stat] =>
       if negb (mtype =? _val REPLY) then
         Ret (ONCRPCresfail xid (PStr ("mtype " +:+ pretty mtype +:+ " is not REPLY")), true, s0)
       else if negb (xid =? expect_xid) then
         Ret (ONCRPCresfail expect_xid
                (PStr ("wrong xid in reply: got " +:+ pretty xid +:+ " expected "
                       +:+ pretty expect_xid)), true, s0)
       else if stat =? _val MSG_ACCEPTED then
         (discard_auth ;;;
          astat <- read_enum ;;
          if negb (astat =? _val SUCCESS)
          then rret (ONCRPCresfail xid (PEnum (mk_enum accept_stat astat)), false)
          else ret <- res_read ;; rret (set_xid xid ret, false)) s0
       else if stat =? _val MSG_DENIED then
         (dstat <- read_enum ;;
          if dstat =? _val RPC_MISMATCH then
            fun s => Ret (ONCRPCresfail xid (PEnum (mk_enum reject_stat dstat)), false,
                          seek_cur 8 s)
          else if dstat =? _val AUTH_ERROR then
            astat <- read_uint32 ;;
            rret (ONCRPCresfail xid (PEnum (mk_enum Auth_stat dstat)), false)
          else
            rret (ONCRPCresfail xid
                    (PStr ("MSG_DENIED with unexpected dstatus in reply ("
                           +:+ pretty dstat +:+ ")")), false)) s0
       else
         Ret (ONCRPCresfail xid
                (PStr ("unexpected status in reply (" +:+ pretty stat +:+ ")")), true, s0)
   | Ret _ => Raise struct_error
   end)%reader.

(** [_make_call_internal]: one try. *)
Definition _make_call_internal {B} (cfg : config) (proc : Z) (rpcargs : ONCRPCargs)
    (res_read : reader (ONCRPCres B)) (expect_xid : Z) : M (ONCRPCres B) :=
  c <- get_cli ;;
  (if need_reconnect c then reconnect else mret tt) ;;;
  c <- get_cli ;;
  if need_reconnect c then mret (ONCRPCresfail expect_xid (PStr "reconnect failed"))
  else
    h <- _start_call cfg proc expect_xid ;;
    a <- lift (args_write rpcargs) ;;
    _sendrecord (replicate 4 x00 ++ h ++ a) ;;;
    reply_stream <- _recvrecord ;;
    match reply_dispatch res_read expect_xid reply_stream with
    | Raise e => mraise e
    | Ret (res, flag, _) =>
        (if flag : bool then modify_cli (set_need_reconnect true) else mret tt) ;;;
        mret res
    end.

(** [logger.warning(...)] where [logger] is still the [None] it defaulted to. *)
Definition no_logger : exn := AttributeError "'NoneType' object has no attribute 'warning'".

(** The [while tries < callTries] loop of [make_call].  [logger] tells
    whether the local of that name holds a logger. *)
Fixpoint make_call_loop {B} (fuel : nat) (cfg : config) (proc : Z) (rpcargs : ONCRPCargs)
    (res_read : reader (ONCRPCres B)) (callTries xid tries : Z) (logger : bool)
    : M (ONCRPCres B) :=
  if tries <? callTries then
    match fuel with
    | O => fun _ => None
    | S fuel' =>
        let tries := tries + 1 in
        let again := make_call_loop fuel' cfg proc rpcargs res_read callTries xid tries true in
        fun w =>
          match _make_call_internal cfg proc rpcargs res_read xid w with
          | None => None
          | Some (Ret res, w') => Some (Ret (set_xid xid res), w')
          | Some (Raise e, w') =>
              (if is_RuntimeError e then
                 modify_cli (set_need_reconnect true) ;;;
                 if tries <? callTries then again
                 else if logger
                 then mret (ONCRPCresfail xid (PStr ("RuntimeError " +:+ exn_str e)))
                 else mraise no_logger
               else if is_wire_error e then
                 (if is_RPCTimeout e then mret tt
                  else modify_cli (set_need_reconnect true)) ;;;
                 if tries <? callTries then again
                 else if is_RPCTimeout e then mret (ONCRPCresfailTimeout xid)
                 else if logger then mret (ONCRPCresfail xid (PStr "RPCFailed"))
                 else mraise no_logger
               else
                 modify_cli (set_need_reconnect true) ;;;
                 if tries <? callTries then again
                 else mret (ONCRPCresfail xid (PStr ("Exception:" +:+ exn_repr e)))) w'
          end
    end
  else
    modify_cli (set_need_reconnect true) ;;;
    mret (ONCRPCresfail xid (PStr "RPCTriesExceeded")).

(** [make_call], for arguments of the types its callers in [nfs3.py] pass:
    [rpcargs_class] a subclass of [ONCRPCargs] with [rpcargs] an instance of
    it, [res_class] a subclass of [ONCRPCres] (here its [read]) and [xid] an
    [int] or [None].  The tests of the method on these types then pass; a
    call that fails one of them raises [TypeError] before anything else
    happens and is not a call of this function.  The timeouts only enter
    through the check that at most one of them is given; the passing of time
    is in the network script. *)
Definition make_call {B} (cfg : config) (proc : Z) (rpcargs : ONCRPCargs)
    (res_read : reader (ONCRPCres B)) (timeoutRel timeoutAbs : option Z)
    (callTries : option Z) (xid : option Z) (logger : bool) : M (ONCRPCres B) :=
  let callTries := default callTries_default callTries in
  if callTries <? 1 then mraise (ValueError "illegal callTries")
  else
    xid <- match xid with
           | Some x => mret x
           | None => match args_xid rpcargs with
                     | Some x => mret x
                     | None => get_new_xid (client_cls cfg)
                     end
           end ;;
    if bool_decide (is_Some timeoutAbs) && bool_decide (is_Some timeoutRel)
    then mraise (ValueError "may not specify both timeoutAbs and timeoutRel")
    else make_call_loop (Z.to_nat callTries) cfg proc rpcargs res_read callTries xid 0 logger.

End RawTCPClient.

(** ** The convenience layer: [nfs3_util.py] *)

Module NFS3Util.
Import Enum Wire NFS3.

Definition nfs3_callTries_default : Z := 5.

(** *** [NFS3_Client.make_call] *)

Section make_call.
Context {B W : Type}.

(** The process state [W] holds the class attribute [_lastxid], the client
    and its latency tracker.  [get_new_xid] allocates from the first,
    [transport xid] is the inherited [make_call] as the loop invokes it
    (one try, the given [xid], a logger), and [latencies_complete] is
    [self.latencies.complete] on the status of the attempt. *)
Variable get_new_xid : W -> Z * W.
Variable transport : Z -> W -> outcome (ONCRPCres B) * W.
Variable latencies_complete : pyval -> W -> W.

(** One attempt as an observer records it: the xid sent, what the inherited
    [make_call] gave back, and the state once the latency tracker has the
    status (before the loop decides what to do next). *)
Record attempt : Type := mk_attempt {
  a_xid : Z; a_res : outcome (ONCRPCres B); a_after : W }.

(** The code after the loop. *)
Definition finish (res : ONCRPCres B) : ONCRPCres B :=
  match status res with
  | PNone => set_status (PStr "Unexpected_NoneStatus") res
  | _ => res
  end.

(** The [while try_count < callTries] loop; the attempts made are
    returned next to the result.  [None]: the bound [fuel] was reached. *)
Fixpoint make_call_loop (fuel : nat) (callTries : Z) (in_xid : option Z)
    (try_count cur_xid next_xid : Z) (w : W)
    : option (outcome (ONCRPCres B) * W * list attempt) :=
  match fuel with
  | O => None
  | S fuel' =>
      let try_count := try_count + 1 in
      match transport cur_xid w with
      | (Raise e, w1) => Some (Raise e, w1, [mk_attempt cur_xid (Raise e) w1])
      | (Ret res, w1) =>
          let w2 := latencies_complete (status res) w1 in
          let att := mk_attempt cur_xid (Ret res) w2 in
          (* the tail of the loop body: [if try_count < callTries: ...] *)
          let continue (next_xid : Z) (w3 : W) :=
            if try_count <? callTries then
              let cur_xid := next_xid in
              match make_call_loop fuel' callTries in_xid try_count cur_xid next_xid w3 with
              | Some (r, w', atts) => Some (r, w', att :: atts)
              | None => None
              end
            else Some (Ret (finish res), w3, [att]) in
          match status res with
          | PEnum e =>
              if bool_decide (type_of e = nfsstat3) then
                match snd (__eq__ e (PEnum nfsstat3_NFS3ERR_JUKEBOX)) with
                | Ret true =>
                    match in_xid with
                    | Some _ => Some (Ret res, w2, [att])
                    | None =>
                        let '(x, w3) := get_new_xid w2 in continue x w3
                    end
                | _ => Some (Ret res, w2, [att])
                end
              else continue next_xid w2
          | _ => continue next_xid w2
          end
      end
  end.

(** [make_call]; [callTries] and [xid] are the keyword arguments. *)
Definition make_call (callTries : option Z) (in_xid : option Z) (w : W)
    : option (outcome (ONCRPCres B) * W * list attempt) :=
  let callTries := default nfs3_callTries_default callTries in
  if callTries <? 1 then Some (Raise (ValueError "illegal callTries"), w, [])
  else
    let '(cur_xid, w) := match in_xid with
                         | Some x => (x, w)
                         | None => get_new_xid w
                         end in
    let next_xid := cur_xid in
    make_call_loop (Z.to_nat callTries) callTries in_xid 0 cur_xid next_xid w.

End make_call.

Arguments a_xid {B W} _.
Arguments a_res {B W} _.
Arguments a_after {B W} _.

(** *** Directory listings *)

Record entryplus3 : Type := mk_entryplus3 {
  p_fileid : Z; p_name : list byte; p_cookie : Z;
  name_attributes : post_op_attr; name_handle : option (list byte) }.

(** [dirlist3] / [dirlistplus3] *)
Record dirlist (E : Type) : Type := mk_dirlist { entries : list E; dl_eof : bool }.
Arguments mk_dirlist {E} _ _.
Arguments entries {E} _.
Arguments dl_eof {E} _.

(** The fields of [_readdir3res]. *)
Record readdir3fields (E : Type) : Type := mk_readdir3 {
  dir_attributes : option post_op_attr;
  res_cookieverf : option (list byte);
  reply : option (dirlist E) }.
Arguments mk_readdir3 {E} _ _ _.
Arguments dir_attributes {E} _.
Arguments res_cookieverf {E} _.
Arguments reply {E} _.

Record READDIR3args : Type := mk_READDIR3args {
  rd_adir : list byte; rd_cookie : Z; rd_cookieverf : list byte; rd_count : Z }.

Record READDIRPLUS3args : Type := mk_READDIRPLUS3args {
  rdp_adir : list byte; rdp_cookie : Z; rdp_cookieverf : list byte;
  dircount : Z; maxcount : Z }.

(** [nfs_fh3(data=...)]: [check_size] against [_MAXSIZE]. *)
Definition nfs_fh3_new (data : list byte) : outcome (list byte) :=
  if NFS3_FHSIZE <? Z.of_nat (length data)
  then Raise (AssertionError "nfs_fh3: exceeds maximum")
  else Ret data.

(** [cookieverf3(data)]: eight zero bytes for [None], else the length is asserted. *)
Definition cookieverf3_new (data : option (list byte)) : outcome (list byte) :=
  match data with
  | None => Ret (replicate 8 x00)
  | Some d =>
      if decide (length d = 8%nat) then Ret d
      else Raise (AssertionError "len(data) == self._FIXEDSIZE")
  end.

Definition READDIR3args_new (adir : list byte) (cookie : Z) (cookieverf : option (list byte))
    : outcome READDIR3args :=
  Py.bind (nfs_fh3_new adir) (fun fh =>
  Py.bind (match cookieverf with
           | Some cv => Ret cv
           | None => cookieverf3_new None
           end) (fun cv =>
  Ret (mk_READDIR3args fh cookie cv (16 * 1024)))).

Definition READDIRPLUS3args_new (adir : list byte) (cookie : Z) (cookieverf : option (list byte))
    : outcome READDIRPLUS3args :=
  Py.bind (nfs_fh3_new adir) (fun fh =>
  Py.bind (cookieverf3_new cookieverf) (fun cv =>
  Ret (mk_READDIRPLUS3args fh cookie cv (16 * 1024) (16 * 1024)))).

(** Reading a local variable: unbound until the function assigns it. *)
Definition read_local {A} (name : string) (v : option A) : outcome A :=
  match v with
  | Some a => Ret a
  | None => Raise (UnboundLocalError name)
  end.

(** A logger argument: [None] or a logger. *)
Inductive logger_arg : Type := logger_None | logger_obj.

Definition missing_attr (attr : string) : exn :=
  AttributeError ("'NoneType' object has no attribute '" +:+ attr +:+ "'").

(** The server and the call path below, as the answers that the successive
    [rpc_readdir] calls will get, each a function of the arguments sent. *)
Definition readdir_script (E : Type) (Args : Type) : Type :=
  list (Args -> ONCRPCres (readdir3fields E)).

(** [readdir_entire_dir(self, dirfh)].  The function has no [logger]
    parameter, so its local [logger] is unbound until assigned.
    [None]: the script ended while the loop asked for more. *)
Fixpoint readdir_loop (script : readdir_script entry3 READDIR3args) (dirfh : list byte)
    (cookie : Z) (cookieverf : option (list byte)) (entries_acc : list entry3)
    (logger : option logger_arg) : option (outcome (bool * list entry3)) :=
  match script with
  | [] => None
  | rpc_readdir :: script' =>
      match READDIR3args_new dirfh cookie cookieverf with
      | Raise e => Some (Raise e)
      | Ret rd_args =>
          let rd_res := rpc_readdir rd_args in
          if status_ne (status rd_res) nfsstat3_NFS3_OK then
            match read_local "logger" logger with
            | Raise e => Some (Raise e)
            | Ret _ => Some (Ret (false, []))
            end
          else
            match body rd_res with
            | None => Some (Raise (missing_attr "entries"))
            | Some f =>
                match reply f with
                | None => Some (Raise (missing_attr "entries"))
                | Some rep =>
                    let entry_list := entries rep in
                    let entries_acc := entries_acc ++ entry_list in
                    if dl_eof rep then Some (Ret (true, entries_acc))
                    else match last entry_list with
                         | None => Some (Raise IndexError)
                         | Some last_entry =>
                             readdir_loop script' dirfh (e_cookie last_entry)
                               (res_cookieverf f) entries_acc logger
                         end
                end
            end
      end
  end.

Definition readdir_entire_dir (script : readdir_script entry3 READDIR3args)
    (dirfh : list byte) : option (outcome (bool * list entry3)) :=
  readdir_loop script dirfh 0 (Some (replicate 8 x00)) [] None.

(** [readdirplus_entire_dir(self, dirfh, logger=None)] *)
Fixpoint readdirplus_loop (script : readdir_script entryplus3 READDIRPLUS3args)
    (dirfh : list byte) (cookie : Z) (cookieverf : option (list byte))
    (entries_acc : list entryplus3) (logger : option logger_arg)
    : option (outcome (bool * list entryplus3)) :=
  match script with
  | [] => None
  | rpc_readdirplus :: script' =>
      match READDIRPLUS3args_new dirfh cookie cookieverf with
      | Raise e => Some (Raise e)
      | Ret rdp_args =>
          let rdp_res := rpc_readdirplus rdp_args in
          if status_ne (status rdp_res) nfsstat3_NFS3_OK then
            match read_local "logger" logger with
            | Raise e => Some (Raise e)
            | Ret _ => Some (Ret (false, []))
            end
          else
            match body rdp_res with
            | None => Some (Raise (missing_attr "entries"))
            | Some f =>
                match reply f with
                | None => Some (Raise (missing_attr "entries"))
                | Some rep =>
                    let entry_list := entries rep in
                    let entries_acc := entries_acc ++ entry_list in
                    if dl_eof rep then Some (Ret (true, entries_acc))
                    else match last entry_list with
                         | None => Some (Raise IndexError)
                         | Some last_entry =>
                             readdirplus_loop script' dirfh (p_cookie last_entry)
                               (res_cookieverf f) entries_acc logger
                         end
                end
            end
      end
  end.

Definition readdirplus_entire_dir (script : readdir_script entryplus3 READDIRPLUS3args)
    (dirfh : list byte) (logger : logger_arg) : option (outcome (bool * list entryplus3)) :=
  readdirplus_loop script dirfh 0 (Some (replicate 8 x00)) [] (Some logger).

(** *** Path resolution *)

(** [os.path.sep] *)
Definition sep : ascii := "/"%char.

(** [str.split(os.path.sep)] *)
Fixpoint split_sep (s : string) : list string :=
  match s with
  | EmptyString => [EmptyString]
  | String c r =>
      if decide (c = sep) then EmptyString :: split_sep r
      else match split_sep r with
           | h :: t => String c h :: t
           | [] => [String c EmptyString]
           end
  end.

(** [s.endswith(os.path.sep)] *)
Fixpoint endswith_sep (s : string) : bool :=
  match s with
  | EmptyString => false
  | String c EmptyString => bool_decide (c = sep)
  | String _ r => endswith_sep r
  end.

(** A Python variable holding a file handle or [None]. *)
Definition py_handle : Type := option (list byte).

(** [nfs_fh3.get_handle]: [self if self._buf else None] *)
Definition get_handle (h : list byte) : py_handle :=
  match h with [] => None | _ => Some h end.

Record MNTfields : Type := mk_MNT {
  fhandle : option (list byte); auth_flavors : option (list Z) }.

Record LOOKUP3args : Type := mk_LOOKUP3args { what_dir : list byte; what_name : string }.

Record LOOKUPfields : Type := mk_LOOKUP {
  aobject : option (list byte);
  obj_attributes : option post_op_attr;
  lk_dir_attributes : option post_op_attr }.

(** [LOOKUP3args(adir=fh, aname=comp)], through [diropargs3]. *)
Definition LOOKUP3args_new (adir : py_handle) (aname : string) : outcome LOOKUP3args :=
  Py.bind (match adir with
           | Some d => nfs_fh3_new d
           | None => Ret []
           end) (fun fh => Ret (mk_LOOKUP3args fh aname)).

Section resolve.
Context {S : Type}.

(** The two clients and the server behind them: [mnt.rpc_mnt] on a
    directory path and [cli.rpc_lookup], acting on the state [S]. *)
Variable rpc_mnt : string -> S -> ONCRPCres MNTfields * S.
Variable rpc_lookup : LOOKUP3args -> S -> ONCRPCres LOOKUPfields * S.

(** [MOUNT3_Client.get_rootfh_using_mnt] *)
Definition get_rootfh_using_mnt (s : S) : outcome py_handle * S :=
  let '(res, s1) := rpc_mnt "/" s in
  if status_ne (status res) mountstat3_MNT3_OK then (Ret None, s1)
  else match body res with
       | None => (Raise (AttributeError "fhandle"), s1)
       | Some f => (Ret (fhandle f), s1)
       end.

(** The [for comp in comps] loop of [resolve_path_from]. *)
Fixpoint resolve_loop (comps : list string) (fh : py_handle) (resolved : string) (s : S)
    : outcome py_handle * S :=
  match comps with
  | [] => (Ret fh, s)
  | comp :: comps' =>
      match comp with
      | EmptyString => (Raise (ValueError "invalid path"), s)
      | _ =>
          match LOOKUP3args_new fh comp with
          | Raise e => (Raise e, s)
          | Ret lookup_args =>
              let '(lookup_res, s1) := rpc_lookup lookup_args s in
              if status_ne (status lookup_res) nfsstat3_NFS3_OK
              then (Raise (RuntimeError "cannot resolve path"), s1)
              else
                match body lookup_res with
                | None => (Raise (AttributeError "get_handle"), s1)
                | Some f =>
                    match aobject f with
                    | None => (Raise (missing_attr "get_handle"), s1)
                    | Some h =>
                        let fh := get_handle h in
                        let resolved :=
                          if endswith_sep resolved then resolved
                          else resolved +:+ String sep EmptyString in
                        let resolved := resolved +:+ comp in
                        resolve_loop comps' fh resolved s1
                    end
                end
          end
      end
  end.

(** [resolve_path_from] *)
Definition resolve_path_from (fh : py_handle) (path : string) (s : S)
    : outcome py_handle * S :=
  match path with
  | EmptyString => (Raise (ValueError "path"), s)
  | String c path_tail =>
      match fh with
      | None =>
          if negb (bool_decide (c = sep))
          then (Raise (ValueError "cannot resolve relative path without filehandle"), s)
          else
            match get_rootfh_using_mnt s with
            | (Raise e, s1) => (Raise e, s1)
            | (Ret None, s1) => (Raise (RuntimeError "cannot get root filehandle"), s1)
            | (Ret (Some fh), s1) =>
                match path_tail with
                | EmptyString =>
                    (Py.bind (nfs_fh3_new fh) (fun h => Ret (Some h)), s1)
                | _ =>
                    let resolved := String sep EmptyString in
                    let path_remain := path_tail in
                    resolve_loop (split_sep path_remain) (Some fh) resolved s1
                end
            end
      | Some _ =>
          if bool_decide (c = sep)
          then (Raise (ValueError
                         "attempt to resolve absolute path starting with a filehandle"), s)
          else resolve_loop (split_sep path) fh EmptyString s
      end
  end.

(** [resolve_path] *)
Definition resolve_path (path : string) (s : S) : outcome py_handle * S :=
  resolve_path_from None path s.

End resolve.

End NFS3Util.

(** ** Vocabulary of the statements *)

Module Spec.
Import Enum Wire NFS3 RawTCPClient.

(** One use of the XID counter in the process: [get_new_xid] or [xid_used]
    called on a class (or on a client of that class). *)
Inductive xid_op : Type :=
  | op_get_new_xid (cls : client_class)
  | op_xid_used (cls : client_class) (xid : Z).

(** What the process observed: the value an allocation returned, or the
    value that was announced, with the class it was called on. *)
Inductive xid_event : Type :=
  | Returned (cls : client_class) (xid : Z)
  | Used (cls : client_class) (xid : Z).

Definition event_xid (e : xid_event) : Z :=
  match e with Returned _ x | Used _ x => x end.

Definition event_class (e : xid_event) : client_class :=
  match e with Returned c _ | Used c _ => c end.

(** The calls run one after the other in the process (each holds
    [_lastxid_lock]); the observations are returned in order. *)
Fixpoint run_xid_ops (ops : list xid_op) : M (list xid_event) :=
  match ops with
  | [] => mret []
  | op_get_new_xid c :: ops' =>
      mbind (get_new_xid c) (fun x =>
      mbind (run_xid_ops ops') (fun evs => mret (Returned c x :: evs)))
  | op_xid_used c x :: ops' =>
      mbind (xid_used c x) (fun _ =>
      mbind (run_xid_ops ops') (fun evs => mret (Used c x :: evs)))
  end.

(** A decoder that only reads forward in the buffer it was given. *)
Definition forward {A} (r : reader A) : Prop :=
  forall s a s', r s = Ret (a, s') ->
    getvalue s' = getvalue s /\ (tell s <= tell s')%nat.

(** The wire form of a list: pairs of a marker 1 and an item, closed by a
    marker 0.  [list_on_wire read_item s items s'] holds when that form
    starts at the position of [s], carries [items] and ends at [s']. *)
Inductive list_on_wire {A} (read_item : reader A) : BytesIO -> list A -> BytesIO -> Prop :=
  | wire_end s s' :
      read_uint32 s = Ret (0, s') -> list_on_wire read_item s [] s'
  | wire_item s s1 s2 s' x xs :
      read_uint32 s = Ret (1, s1) ->
      read_item s1 = Ret (x, s2) ->
      list_on_wire read_item s2 xs s' ->
      list_on_wire read_item s (x :: xs) s'.

(** A marker other than 0 or 1 is met after zero or more well-formed pairs. *)
Inductive bad_marker {A} (read_item : reader A) : BytesIO -> Prop :=
  | bad_here s v s' :
      read_uint32 s = Ret (v, s') -> v <> 0 -> v <> 1 -> bad_marker read_item s
  | bad_later s s1 s2 x :
      read_uint32 s = Ret (1, s1) ->
      read_item s1 = Ret (x, s2) ->
      bad_marker read_item s2 -> bad_marker read_item s.

(** The pad that brings [len] bytes to a four-byte boundary. *)
Definition xdr_pad (len : Z) : Z := (4 - len mod 4) mod 4.

(** The statuses that the call path hands to its callers: a string, or an
    enum of a class that sets [_MISMATCH_CMP_ALLOW]. *)
Definition transport_status (st : pyval) : Prop :=
  match st with
  | PEnum e => _MISMATCH_CMP_ALLOW (type_of e) = true
  | PStr _ => True
  | PInt _ | PNone => False
  end.

(** [status] is the nfsstat3 value NFS3ERR_JUKEBOX. *)
Definition is_JUKEBOX (st : pyval) : Prop := st = PEnum nfsstat3_NFS3ERR_JUKEBOX.

(** An nfsstat3 result ends the call, unless it is JUKEBOX on an XID that
    the call allocated itself. *)
Definition ends_call {B} (in_xid : option Z) (res : ONCRPCres B) : bool :=
  match status res with
  | PEnum e =>
      bool_decide (type_of e = nfsstat3)
      && (negb (_val e =? 10008) || bool_decide (is_Some in_xid))
  | _ => false
  end.

(** What the next try uses when a result does not end the call: a new XID
    after an nfsstat3 result (which is then JUKEBOX), the same XID otherwise. *)
Definition next_try {B W} (get_new_xid : W -> Z * W) (cur_xid : Z)
    (res : ONCRPCres B) (w2 : W) : Z * W :=
  match status res with
  | PEnum e =>
      if bool_decide (type_of e = nfsstat3) then get_new_xid w2 else (cur_xid, w2)
  | _ => (cur_xid, w2)
  end.

(** Components joined by [os.path.sep], and whether a component holds one. *)
Fixpoint join_sep (comps : list string) : string :=
  match comps with
  | [] => EmptyString
  | [c] => c
  | c :: rest => c +:+ String NFS3Util.sep (join_sep rest)
  end.

Fixpoint has_sep (s : string) : bool :=
  match s with
  | EmptyString => false
  | String c r => bool_decide (c = NFS3Util.sep) || has_sep r
  end.

(** Results as the decoders build them: the status is one the call path
    produces, and a result with the OK status carries its handle, of at most
    [NFS3_FHSIZE] bytes ([fhandle3.read] and [nfs_fh3.read] refuse more). *)
Definition wf_mnt_res (res : ONCRPCres NFS3Util.MNTfields) : Prop :=
  transport_status (status res)
  /\ (status res = PEnum mountstat3_MNT3_OK ->
      exists fh fl, body res = Some (NFS3Util.mk_MNT (Some fh) fl)
                    /\ Z.of_nat (length fh) <= NFS3_FHSIZE).

Definition wf_lookup_res (res : ONCRPCres NFS3Util.LOOKUPfields) : Prop :=
  transport_status (status res)
  /\ (status res = PEnum nfsstat3_NFS3_OK ->
      exists h oa da, body res = Some (NFS3Util.mk_LOOKUP (Some h) oa da)
                      /\ Z.of_nat (length h) <= NFS3_FHSIZE).

(** The walk in the specification's words, on file handles as the bytes the
    replies carry: [MOUNT_root] is the handle that MOUNT "/" returns,
    [LOOKUP parent name] the handle that one LOOKUP of [name] in [parent]
    returns (a resolution error on a status other than NFS3_OK), and
    [fold_LOOKUP] folds it over the components from a starting handle. *)
Section walk.
Context {S : Type}.
Variable rpc_mnt : string -> S -> ONCRPCres NFS3Util.MNTfields * S.
Variable rpc_lookup : NFS3Util.LOOKUP3args -> S -> ONCRPCres NFS3Util.LOOKUPfields * S.

Definition MOUNT_root (s : S) : outcome (list byte) * S :=
  let '(res, s1) := rpc_mnt "/" s in
  match status res, body res with
  | PEnum (mk_enum mountstat3 0), Some (NFS3Util.mk_MNT (Some fh) _) => (Ret fh, s1)
  | _, _ => (Raise (RuntimeError "cannot get root filehandle"), s1)
  end.

Definition LOOKUP (parent : list byte) (name : string) (s : S)
    : outcome (list byte) * S :=
  let '(res, s1) := rpc_lookup (NFS3Util.mk_LOOKUP3args parent name) s in
  match status res, body res with
  | PEnum (mk_enum nfsstat3 0), Some (NFS3Util.mk_LOOKUP (Some h) _ _) => (Ret h, s1)
  | _, _ => (Raise (RuntimeError "cannot resolve path"), s1)
  end.

Fixpoint fold_LOOKUP (comps : list string) (fh : list byte) (s : S)
    : outcome (list byte) * S :=
  match comps with
  | [] => (Ret fh, s)
  | comp :: comps' =>
      match LOOKUP fh comp s with
      | (Ret child, s1) => fold_LOOKUP comps' child s1
      | (Raise e, s1) => (Raise e, s1)
      end
  end.

End walk.

(** An observer on the calls that [NFS3_Client.make_call] makes to the
    inherited [make_call]: the process state is paired with a log, and each
    invocation appends the XID it was given, the state it started in, what
    it gave back and the state it left.  [get_new_xid] and
    [latencies.complete] act on the state and leave the log alone. *)
Record transport_call (B W : Type) : Type := mk_transport_call {
  t_xid : Z; t_before : W; t_res : outcome (ONCRPCres B); t_after : W }.
Arguments mk_transport_call {B W} _ _ _ _.
Arguments t_xid {B W} _.
Arguments t_before {B W} _.
Arguments t_res {B W} _.
Arguments t_after {B W} _.

Definition observed {B W} (transport : Z -> W -> outcome (ONCRPCres B) * W)
    (xid : Z) (wl : W * list (transport_call B W))
    : outcome (ONCRPCres B) * (W * list (transport_call B W)) :=
  let '(r, w1) := transport xid wl.1 in
  (r, (w1, wl.2 ++ [mk_transport_call xid wl.1 r w1])).

Definition beside_log {W L} (get_new_xid : W -> Z * W) (wl : W * L) : Z * (W * L) :=
  let '(x, w1) := get_new_xid wl.1 in (x, (w1, wl.2)).

Definition complete_beside_log {W L} (latencies_complete : pyval -> W -> W)
    (st : pyval) (wl : W * L) : W * L :=
  (latencies_complete st wl.1, wl.2).

(** The retry discipline at the observed call number [i] (counted from 0,
    after [tries_before] earlier tries) whose result is [res], in a run
    that made the calls [calls] and returned [r]; [w2] is the state once
    the latency tracker has the status. *)
Definition retry_discipline {B W} (get_new_xid : W -> Z * W)
    (latencies_complete : pyval -> W -> W) (callTries : Z)
    (in_xid : option Z) (tries_before : Z) (r : outcome (ONCRPCres B))
    (calls : list (transport_call B W)) (i : nat) (c : transport_call B W)
    (res : ONCRPCres B) : Prop :=
  let w2 := latencies_complete (status res) (t_after c) in
  (is_JUKEBOX (status res) -> in_xid = None ->
   tries_before + Z.of_nat (S i) < callTries ->
   exists c', calls !! S i = Some c'
              /\ (t_xid c', t_before c') = get_new_xid w2)
  /\ (is_JUKEBOX (status res) -> is_Some in_xid ->
      r = Ret res /\ calls !! S i = None)
  /\ (isinstance_nfsstat3 (status res) = true -> ~ is_JUKEBOX (status res) ->
      r = Ret res /\ calls !! S i = None)
  /\ (isinstance_nfsstat3 (status res) = false ->
      tries_before + Z.of_nat (S i) < callTries ->
      exists c', calls !! S i = Some c'
                 /\ (t_xid c', t_before c') = (t_xid c, w2)).

End Spec.

(** ** Concrete replies and networks used in the statements *)

Module Scenario.
Import Enum Wire NFS3 RawTCPClient.

(** A READ reply with one byte of data: status [NFS3_OK], no attributes,
    [count = 1], [eof = 1], the opaque length 1, the byte and three zeros
    of pad. *)
Definition read3_reply : list byte :=
  [x00; x00; x00; x00;  x00; x00; x00; x00;
   x00; x00; x00; x01;  x00; x00; x00; x01;  x00; x00; x00; x01;
   x41; x00; x00; x00].

(** A READLINK reply whose link text is the same one byte. *)
Definition readlink3_reply : list byte :=
  [x00; x00; x00; x00;  x00; x00; x00; x00;
   x00; x00; x00; x01;  x41; x00; x00; x00].

(** The head of a denied reply to the call with xid 7: the xid, [REPLY],
    [MSG_DENIED] and the reject-stat [AUTH_ERROR]; the auth-stat follows. *)
Definition denied_auth_error_head : list byte :=
  [x00; x00; x00; x07;  x00; x00; x00; x01;  x00; x00; x00; x01;  x00; x00; x00; x01].

(** A portmapper-style client ([mkcred_null]) and a NULL call. *)
Definition cfg0 : config := mk_config 100000 2 false [] TCPPortMapperClient.
Definition null_args : ONCRPCargs := mk_args None "NULL" (Ret []).
Definition null_read : reader (ONCRPCres unit) :=
  rret (mk_res None (PInt 0) (Some tt)).

(** The accepted reply to the call with xid 1: the record-marking word (last
    fragment, 24 bytes) and the record. *)
Definition accepted_reply_mark : list byte := [x80; x00; x00; x18].
Definition accepted_reply_1 : list byte :=
  [x00; x00; x00; x01;  x00; x00; x00; x01;  x00; x00; x00; x00;
   x00; x00; x00; x00;  x00; x00; x00; x00;  x00; x00; x00; x00].

(** The record that the NULL call with xid 1 puts on the wire. *)
Definition null_call_1 : list byte :=
  [x80; x00; x00; x28;
   x00; x00; x00; x01;  x00; x00; x00; x00;  x00; x00; x00; x02;
   x00; x01; x86; xa0;  x00; x00; x00; x02;  x00; x00; x00; x00;
   x00; x00; x00; x00;  x00; x00; x00; x00;
   x00; x00; x00; x00;  x00; x00; x00; x00].

(** A connected client (socket 0, nothing to reconnect) about to make one
    try; the send succeeds and the receive is left to the script. *)
Definition connected (r : list recv_result) : world :=
  mk_world (mk_client (Some 0%nat) true false None None) ∅
           (mk_net [] [send_ok] r) 1 [].

(** The same client when it is the send that times out in the socket. *)
Definition connected_send_timeout : world :=
  mk_world (mk_client (Some 0%nat) true false None None) ∅
           (mk_net [] [send_timeout] []) 1 [].

(** A fresh client whose first receive times out in the socket and whose
    second try is answered. *)
Definition timeout_then_reply : world :=
  mk_world client_init ∅
           (mk_net [connect_ok; connect_ok] [send_ok; send_ok]
                   [recv_timeout; recv_data accepted_reply_mark; recv_data accepted_reply_1])
           0 [].

(** A process for the retry loop: the XID counter and the statuses that the
    coming tries will produce (a timeout once they are used up). *)
Record scripted : Type := mk_scripted { s_lastxid : Z; s_pending : list pyval }.

Definition scripted_get_new_xid (w : scripted) : Z * scripted :=
  let '(x, l) := get_new_xid_pure (s_lastxid w) in (x, mk_scripted l (s_pending w)).

Definition scripted_transport (xid : Z) (w : scripted)
    : outcome (ONCRPCres unit) * scripted :=
  let l := xid_used_pure xid (s_lastxid w) in
  match s_pending w with
  | st :: rest => (Ret (mk_res (Some xid) st None), mk_scripted l rest)
  | [] => (Ret (ONCRPCresfailTimeout xid), mk_scripted l [])
  end.

Definition scripted_latencies (st : pyval) (w : scripted) : scripted := w.

(** The server answers JUKEBOX once, then NFS3_OK. *)
Definition jukebox_then_ok : scripted :=
  mk_scripted 0 [PEnum nfsstat3_NFS3ERR_JUKEBOX; PEnum nfsstat3_NFS3_OK].

(** Two tries that both come back with the status [None]. *)
Definition none_twice : scripted := mk_scripted 0 [PNone; PNone].

Definition none_result : ONCRPCres unit := mk_res (Some 1) PNone None.

(** Answers to READDIR and READDIRPLUS: a failure with NFS3ERR_NOENT, a
    failure below the protocol, and a first page that is not the last. *)
Definition readdir_noent {E} : ONCRPCres (NFS3Util.readdir3fields E) :=
  mk_res (Some 1) (PEnum nfsstat3_NFS3ERR_NOENT)
         (Some (NFS3Util.mk_readdir3 (Some None) None None)).

Definition readdir_timeout {E} : ONCRPCres (NFS3Util.readdir3fields E) :=
  ONCRPCresfailTimeout 1.

Definition readdir_page : ONCRPCres (NFS3Util.readdir3fields entry3) :=
  mk_res (Some 1) (PEnum nfsstat3_NFS3_OK)
         (Some (NFS3Util.mk_readdir3 (Some None) (Some (replicate 8 x00))
                  (Some (NFS3Util.mk_dirlist [mk_entry3 7 [x61] 1] false)))).

Definition readdirplus_page : ONCRPCres (NFS3Util.readdir3fields NFS3Util.entryplus3) :=
  mk_res (Some 1) (PEnum nfsstat3_NFS3_OK)
         (Some (NFS3Util.mk_readdir3 (Some None) (Some (replicate 8 x00))
                  (Some (NFS3Util.mk_dirlist
                           [NFS3Util.mk_entryplus3 7 [x61] 1 None None] false)))).

(** A small export: the root has the handle 01, its directory [a] the handle
    0a, and [a/b] the handle 0b; the state counts the calls. *)
Definition tree_mnt (adirpath : string) (s : nat)
    : ONCRPCres NFS3Util.MNTfields * nat :=
  (mk_res (Some 1) (PEnum mountstat3_MNT3_OK)
          (Some (NFS3Util.mk_MNT (Some [x01]) (Some [1]))), S s).

Definition tree_lookup (args : NFS3Util.LOOKUP3args) (s : nat)
    : ONCRPCres NFS3Util.LOOKUPfields * nat :=
  let found h :=
    mk_res (Some 1) (PEnum nfsstat3_NFS3_OK)
           (Some (NFS3Util.mk_LOOKUP (Some h) (Some None) (Some None))) in
  if bool_decide (NFS3Util.what_dir args = [x01] /\ NFS3Util.what_name args = "a")
  then (found [x0a], S s)
  else if bool_decide (NFS3Util.what_dir args = [x0a] /\ NFS3Util.what_name args = "b")
  then (found [x0b], S s)
  else (mk_res (Some 1) (PEnum nfsstat3_NFS3ERR_NOENT)
               (Some (NFS3Util.mk_LOOKUP None None (Some None))), S s).

(** A server that answers every LOOKUP with NFS3_OK and a handle of
    length zero. *)
Definition hollow_lookup (args : NFS3Util.LOOKUP3args) (s : nat)
    : ONCRPCres NFS3Util.LOOKUPfields * nat :=
  (mk_res (Some 1) (PEnum nfsstat3_NFS3_OK)
          (Some (NFS3Util.mk_LOOKUP (Some []) (Some None) (Some None))), S s).

(** A list holding the single item 42. *)
Definition one_item_list : list byte :=
  [x00; x00; x00; x01;  x00; x00; x00; x2a;  x00; x00; x00; x00].

(** A connected client, called with a deadline that has already passed:
    each try finds it expired when it is about to send. *)
Definition deadline_passed : world :=
  mk_world (mk_client (Some 0%nat) true false None None) ∅
           (mk_net [] [send_deadline; send_deadline] []) 1 [].

(** A connected client whose socket takes only the first five bytes of
    what it is given to send. *)
Definition short_send : world :=
  mk_world (mk_client (Some 0%nat) true false None None) ∅
           (mk_net [] [send_short 5] []) 1 [].

(** A connected client whose peer closes the connection instead of
    answering. *)
Definition peer_closes : world :=
  mk_world (mk_client (Some 0%nat) true false None None) ∅
           (mk_net [] [send_ok] [recv_data []]) 1 [].

(** A process in which no class has allocated yet, with a client that is
    not connected and a network that answers nothing. *)
Definition new_process : world := mk_world client_init ∅ (mk_net [] [] []) 0 [].

End Scenario.

(** ** Encoders, and the decoders that pair with them *)

Module Codec.
Import Enum Wire NFS3 RawTCPClient.
Local Open Scope reader_scope.

(** [struct.pack('!Q', v)] *)
Definition pack_Q (v : Z) : outcome (list byte) :=
  if (0 <=? v) && (v <? 2 ^ 64) then Ret (be_bytes 8 v) else Raise struct_error.

(** [ONCRPCwire.write_enum] and [annotated_enum.write]: a signed word. *)
Definition write_enum (val : Z) : outcome (list byte) := pack_i val.
Definition annotated_enum_write (e : annotated_enum) : outcome (list byte) :=
  pack_i (_val e).

(** [ONCRPCwire.write_uint32] *)
Definition write_uint32 (val : Z) : outcome (list byte) := pack_I val.

(** [vararray.write]: the length, the bytes, zeros up to a multiple of four. *)
Definition vararray_write (buf : list byte) : outcome (list byte) :=
  Py.bind (pack_I (Z.of_nat (length buf))) (fun l =>
    let extra := Z.of_nat (length buf) mod 4 in
    Ret (l ++ buf ++ (if extra =? 0 then [] else replicate (Z.to_nat (4 - extra)) x00))).

(** [fixedarray.read] and [fixedarray.write] for a class of size [_FIXEDSIZE];
    the latter asserts the size and defers to [vararray.write]. *)
Definition fixedarray_read (_FIXEDSIZE : Z) : reader (list byte) :=
  read_then_align _FIXEDSIZE 4.

Definition fixedarray_write (_FIXEDSIZE : Z) (buf : list byte) : outcome (list byte) :=
  if decide (Z.of_nat (length buf) = _FIXEDSIZE) then vararray_write buf
  else Raise (AssertionError "len(self._buf) == self._FIXEDSIZE").

Definition NFS3_COOKIEVERFSIZE : Z := 8.
Definition NFS3_CREATEVERFSIZE : Z := 8.

(** [nfstime3.read] and [nfstime3.write] *)
Definition nfstime3_read : reader nfstime3 :=
  b <- read_exact 8 ;;
  match unpack [fI; fI] b with
  | Ret [s; n] => rret (mk_time s n)
  | Ret _ => rraise struct_error
  | Raise e => rraise e
  end.

Definition nfstime3_write (t : nfstime3) : outcome (list byte) :=
  Py.bind (pack_I (seconds t)) (fun a =>
  Py.bind (pack_I (nseconds t)) (fun b => Ret (a ++ b))).

(** [diropargs3]: a directory handle and a name. *)
Record diropargs3 : Type := mk_dirop { adir : list byte; name : list byte }.

(** [diropargs3(adir=..., aname=...)] on byte strings *)
Definition diropargs3_new (adir0 aname : list byte) : outcome diropargs3 :=
  Py.bind (NFS3Util.nfs_fh3_new adir0) (fun fh => Ret (mk_dirop fh aname)).

Definition diropargs3_read : reader diropargs3 :=
  fh <- nfs_fh3_read ;;
  aname <- vararray_read ;;
  match diropargs3_new fh aname with
  | Ret d => rret d
  | Raise e => rraise e
  end.

Definition diropargs3_write (d : diropargs3) : outcome (list byte) :=
  Py.bind (vararray_write (adir d)) (fun a =>
  Py.bind (vararray_write (name d)) (fun b => Ret (a ++ b))).

(** [ONCRPCres.__bool__]: [bool(self.status)]. *)
Definition ONCRPCres_bool (st : pyval) : bool :=
  match st with
  | PEnum e => __bool__ e
  | PStr s => negb (bool_decide (s = EmptyString))
  | PInt z => negb (z =? 0)
  | PNone => false
  end.

(** The stream that has [pre] behind its position and [rest] ahead. *)
Definition stream_at (pre rest : list byte) : BytesIO :=
  mk_stream (pre ++ rest) (length pre).

End Codec.

(** ** Record marking, as the peer of [_sendrecord] and [_recvrecord] does it *)

Module Framing.
Import Wire RawTCPClient.

(** The four-byte fragment header: the length, and the top bit on the last
    fragment of a record. *)
Definition frag_header (last : bool) (n : Z) : list byte :=
  be_bytes 4 (Z.lor n (if last then 0x80000000 else 0)).

(** One fragment as the socket delivers it: the header, then the payload in
    pieces. *)
Definition frag_recvs (last : bool) (chunks : list (list byte)) : list recv_result :=
  recv_data (frag_header last (Z.of_nat (length (concat chunks)))) :: (recv_data <$> chunks).

(** A record: fragments that are not the last, then the last one. *)
Fixpoint record_recvs (frags : list (list (list byte))) (lastfrag : list (list byte))
    : list recv_result :=
  match frags with
  | [] => frag_recvs true lastfrag
  | f :: frags' => frag_recvs false f ++ record_recvs frags' lastfrag
  end.

(** A fragment whose pieces are not empty and whose length fits the header. *)
Definition wf_frag (chunks : list (list byte)) : Prop :=
  Forall (fun c => c <> []) chunks /\ Z.of_nat (length (concat chunks)) < 2 ^ 31.

(** The world with other receives to come. *)
Definition with_recvs (r : list recv_result) (w : world) : world :=
  mk_world (cli w) (_lastxid w) (mk_net (connects (net w)) (sends (net w)) r)
           (nsock w) (events w).

(** The world with other sends to come and more events seen. *)
Definition after_send (s : list send_result) (evs : list wire_event) (w : world) : world :=
  mk_world (cli w) (_lastxid w) (mk_net (connects (net w)) s (recvs (net w)))
           (nsock w) (events w ++ evs).

(** The first twelve bytes of a reply: the XID, the message type and the
    reply status, the last two as signed words. *)
Definition reply_head (xid mtype stat : Z) : list byte :=
  be_bytes 4 xid ++ be_bytes 4 (mtype mod 2 ^ 32) ++ be_bytes 4 (stat mod 2 ^ 32).

(** A verifier as [discard_auth] meets it: flavor, length, body. *)
Definition reply_verf (flavor : Z) (vbody : list byte) : list byte :=
  be_bytes 4 (flavor mod 2 ^ 32) ++ be_bytes 4 (Z.of_nat (length vbody)) ++ vbody.

Definition int32 (v : Z) : Prop := - 2 ^ 31 <= v < 2 ^ 31.
Definition uint32 (v : Z) : Prop := 0 <= v < 2 ^ 32.

(** The zero bytes that bring a field of [len] bytes to a multiple of four. *)
Definition xdr_zeros (len : Z) : list byte := replicate (Z.to_nat (Spec.xdr_pad len)) x00.

(** The worlds reached when each of [n] successive tries of a call raises
    an exception that [P] accepts, as the loop of [make_call] runs them:
    after a try that did not time out the loop sets [need_reconnect]. *)
Fixpoint tries_raise {B} (P : exn -> bool) (cfg : config) (proc : Z) (rpcargs : ONCRPCargs)
    (res_read : reader (NFS3.ONCRPCres B)) (xid : Z) (n : nat) (w : world)
    : option (list exn * world) :=
  match n with
  | O => Some ([], w)
  | S n' =>
      match _make_call_internal cfg proc rpcargs res_read xid w with
      | Some (Raise e, w1) =>
          if P e then
            let w2 := if is_RPCTimeout e then w1
                      else mk_world (set_need_reconnect true (cli w1)) (_lastxid w1)
                                    (net w1) (nsock w1) (events w1) in
            match tries_raise P cfg proc rpcargs res_read xid n' w2 with
            | Some (es, w') => Some (e :: es, w')
            | None => None
            end
          else None
      | _ => None
      end
  end.

End Framing.

(** ** Latency accounting: [_LatencyTrackerOp] and [LatencyTracker] *)

Module Latency.
Import Enum.

(** Times are Python floats, with their arithmetic and comparisons; the
    builtins [int] on a string ([None] when it raises) and [str] are taken
    as they are. *)
Class PyBuiltins (float : Type) : Type := {
  zero : float;
  fsub : float -> float -> float;
  fadd : float -> float -> float;
  fge : float -> float -> bool;
  flt : float -> float -> bool;
  fgt : float -> float -> bool;
  int_of_str : string -> option Z;
  py_str : pyval -> string }.

Section tracker.
Context `{PyBuiltins float}.

(** [int(status)]: [None] when it raises. *)
Definition py_int (status : pyval) : option Z :=
  match status with
  | PEnum e => Some (_val e)
  | PStr s => int_of_str s
  | PInt z => Some z
  | PNone => None
  end.

(** [stat_class.valid(status)] *)
Definition valid_status (stat_class : enum_class) (status : pyval) : bool :=
  match py_int status with
  | Some v => valid stat_class v
  | None => false
  end.

(** [stat_class.string_from_value(status)]: only an instance of the class is
    converted before the lookup; another enum still finds the key of its
    value, a string finds none. *)
Definition string_from_value (stat_class : enum_class) (status : pyval) : string :=
  match status with
  | PEnum e => default "?" (_XLAT stat_class !! _val e)
  | PInt z => default "?" (_XLAT stat_class !! z)
  | _ => "?"
  end.

(** An entry of the error list: ['string'] and ['value']. *)
Record error_entry : Type := mk_error { err_string : string; err_value : Z }.

Record _LatencyTrackerOp : Type := mk_op {
  op_stat_class : enum_class;
  opname : string;
  opcount : Z;
  opcount_success : Z;
  errors : list error_entry;
  latency_min : option float;
  latency_max : option float;
  latency_min_status : option Z;
  latency_max_status : option Z;
  total_time : float }.

(** [_LatencyTrackerOp.__init__] *)
Definition op_init (name : string) (stat_class : enum_class) : _LatencyTrackerOp :=
  mk_op stat_class name 0 0 [] None None None None zero.

(** [_error] *)
Definition _error (op : _LatencyTrackerOp) (status : pyval) : error_entry :=
  if negb (valid_status (op_stat_class op) status) then mk_error (py_str status) (-1)
  else mk_error (string_from_value (op_stat_class op) status) (default 0 (py_int status)).

Definition append_error (status : pyval) (op : _LatencyTrackerOp) : _LatencyTrackerOp :=
  mk_op (op_stat_class op) (opname op) (opcount op) (opcount_success op)
        (errors op ++ [_error op status])
        (latency_min op) (latency_max op) (latency_min_status op) (latency_max_status op)
        (total_time op).

Definition set_min (latency : float) (int_status : Z) (op : _LatencyTrackerOp)
    : _LatencyTrackerOp :=
  mk_op (op_stat_class op) (opname op) (opcount op) (opcount_success op) (errors op)
        (Some latency) (latency_max op) (Some int_status) (latency_max_status op)
        (total_time op).

Definition set_max (latency : float) (int_status : Z) (op : _LatencyTrackerOp)
    : _LatencyTrackerOp :=
  mk_op (op_stat_class op) (opname op) (opcount op) (opcount_success op) (errors op)
        (latency_min op) (Some latency) (latency_min_status op) (Some int_status)
        (total_time op).

(** [_LatencyTrackerOp.complete] *)
Definition op_complete (start end_ : float) (status : pyval) (op : _LatencyTrackerOp)
    : _LatencyTrackerOp :=
  let latency := if fge end_ start then fsub end_ start else zero in
  let op := mk_op (op_stat_class op) (opname op) (opcount op + 1) (opcount_success op)
                  (errors op) (latency_min op) (latency_max op)
                  (latency_min_status op) (latency_max_status op)
                  (fadd (total_time op) latency) in
  if negb (valid_status (op_stat_class op) status) then append_error status op
  else
    match py_int status with
    | None => append_error status op
    | Some int_status =>
        let op := if int_status =? 0
                  then mk_op (op_stat_class op) (opname op) (opcount op)
                             (opcount_success op + 1) (errors op)
                             (latency_min op) (latency_max op)
                             (latency_min_status op) (latency_max_status op)
                             (total_time op)
                  else append_error status op in
        let op := match latency_min op with
                  | Some m => if flt latency m then set_min latency int_status op else op
                  | None => set_min latency int_status op
                  end in
        match latency_max op with
        | Some m => if fgt latency m then set_max latency int_status op else op
        | None => set_max latency int_status op
        end
    end.

(** [LatencyTracker]: the two dictionaries, keyed by operation name, and
    the [success] flag. *)
Record LatencyTracker : Type := mk_tracker {
  _ops_all : gmap string _LatencyTrackerOp;
  _ops_success : gmap string _LatencyTrackerOp;
  stat_class : enum_class;
  success : bool }.

(** [LatencyTracker.__init__] *)
Definition tracker_init (stat_class : enum_class) : LatencyTracker :=
  mk_tracker ∅ ∅ stat_class true.

(** The body of the [for ops_dict in dlist] loop: the entry is created on a
    [KeyError], then updated in place. *)
Definition dict_complete (stat_class : enum_class) (name : string) (start end_ : float)
    (status : pyval) (ops_dict : gmap string _LatencyTrackerOp)
    : gmap string _LatencyTrackerOp :=
  let op := match ops_dict !! name with
            | Some op => op
            | None => op_init name stat_class
            end in
  <[name := op_complete start end_ status op]> ops_dict.

(** The [int_status] that [LatencyTracker.complete] computes. *)
Definition tracker_int_status (status : pyval) : option Z :=
  match status with
  | PStr _ => None
  | _ => py_int status
  end.

(** What [LatencyTracker.complete] takes for a success: [int_status == 0]. *)
Definition status_ok (status : pyval) : bool :=
  match tracker_int_status status with
  | Some i => i =? 0
  | None => false
  end.

(** [LatencyTracker.complete] *)
Definition complete (name : string) (start end_ : float) (status : pyval)
    (t : LatencyTracker) : LatencyTracker :=
  let ok := status_ok status in
  mk_tracker (dict_complete (stat_class t) name start end_ status (_ops_all t))
             (if ok then dict_complete (stat_class t) name start end_ status (_ops_success t)
              else _ops_success t)
             (stat_class t)
             (if ok then success t else false).

(** A completed call, as the arguments of [complete]. *)
Record call : Type := mk_call {
  c_opname : string; c_start : float; c_end : float; c_status : pyval }.

(** The tracker after a sequence of completed calls. *)
Definition completes (calls : list call) (t : LatencyTracker) : LatencyTracker :=
  fold_left (fun t c => complete (c_opname c) (c_start c) (c_end c) (c_status c) t) calls t.

Definition call_ok (c : call) : bool := status_ok (c_status c).

Definition calls_of (name : string) (calls : list call) : list call :=
  filter (fun c => c_opname c = name) calls.

(** The accounting identity of one operation. *)
Definition op_balanced (op : _LatencyTrackerOp) : Prop :=
  opcount op = opcount_success op + Z.of_nat (length (errors op)).

(** What a dictionary holds for an operation name after the calls [cs]
    that went into it: no entry if there were none, else an entry that
    counted them all and keeps the accounting identity. *)
Definition op_accounts (d : gmap string _LatencyTrackerOp) (name : string) (cs : list call)
    : Prop :=
  match d !! name with
  | Some op => cs <> [] /\ opcount op = Z.of_nat (length cs) /\ op_balanced op
  | None => cs = []
  end.

End tracker.

End Latency.

(** ** A server that pages a directory by cookie *)

Module Server.
Import Enum NFS3 NFS3Util.

(** The cookies of a directory's entries: positive and strictly increasing. *)
Fixpoint increasing_from (c : Z) (cookies : list Z) : Prop :=
  match cookies with
  | [] => True
  | x :: cookies' => c < x /\ increasing_from x cookies'
  end.

Definition cookies_increasing (all : list entryplus3) : Prop :=
  increasing_from 0 (p_cookie <$> all).

(** The entries after a cookie. *)
Definition dir_after (cookie : Z) (all : list entryplus3) : list entryplus3 :=
  filter (fun e => cookie < p_cookie e) all.

(** READDIRPLUS against the directory [all]: at most [k] entries after the
    cookie of the request, and [eof] when these are the last ones. *)
Definition serve_readdirplus (k : nat) (verf : list byte) (all : list entryplus3)
    (args : READDIRPLUS3args) : ONCRPCres (readdir3fields entryplus3) :=
  let rest := dir_after (rdp_cookie args) all in
  mk_res None (PEnum nfsstat3_NFS3_OK)
         (Some (mk_readdir3 None (Some verf)
                  (Some (mk_dirlist (take k rest) (bool_decide (length rest <= k)%nat))))).

End Server.

(** * Properties *)

Import Enum Wire NFS3 Spec Scenario.
Local Open Scope reader_scope.

(** ** Annotated enums *)

Lemma mismatch_except_never_set c : _MISMATCH_CMP_EXCEPT c = false.
Proof. reflexivity. Qed.

Lemma eq_never_raises self other : exists b, snd (__eq__ self other) = Ret b.
Proof.
  unfold __eq__. destruct other as [o| | |]; simpl.
  - case_decide; [eauto|]. destruct (_MISMATCH_CMP_ALLOW _); eauto.
  - destruct (_MISMATCH_CMP_ALLOW _); eauto.
  - eauto.
  - eauto.
Qed.

(** C1 fails on the code: the base class leaves [_MISMATCH_CMP_EXCEPT] at
    [False], so comparing enums of two classes that keep the default
    configuration never raises.  For every two values, [ftype3(v) ==
    stable_how(w)] logs a warning and returns whether the integers are
    equal; in particular [ftype3(1) == stable_how(1)] is [True]. *)
Theorem annotated_enum_eq_mismatch_returns :
  (forall v w,
     __eq__ (mk_enum ftype3 v) (PEnum (mk_enum stable_how w))
     = ([warn_mismatched_enums "ftype3" "stable_how"], Ret (v =? w)))
  /\ snd (__eq__ (mk_enum ftype3 1) (PEnum (mk_enum stable_how 1))) = Ret true
  /\ (forall self other, ~ raises (snd (__eq__ self other))).
Proof.
  split; [|split].
  - intros v w. reflexivity.
  - reflexivity.
  - intros self other. destruct (eq_never_raises self other) as [b ->]. simpl. tauto.
Qed.

(** ** The XID counter *)

Section xid.
Import RawTCPClient.

Lemma getattr_lastxid_own c v (attrs : gmap client_class Z) :
  attrs !! c = Some v -> getattr_lastxid c attrs = v.
Proof. intros H. unfold getattr_lastxid. destruct c; simpl; by rewrite H. Qed.

Lemma getattr_lastxid_insert c v (attrs : gmap client_class Z) :
  getattr_lastxid c (<[c := v]> attrs) = v.
Proof. apply getattr_lastxid_own. apply lookup_insert_eq. Qed.

Lemma getattr_lastxid_insert_ne c d v (attrs : gmap client_class Z) :
  c <> d -> is_Some (attrs !! c) ->
  getattr_lastxid c (<[d := v]> attrs) = getattr_lastxid c attrs.
Proof.
  intros Hne [v0 H0].
  rewrite (getattr_lastxid_own c v0 attrs H0).
  apply getattr_lastxid_own. rewrite lookup_insert_ne; [exact H0|congruence].
Qed.

(** One call: the observation and the state it leaves. *)
Lemma run_xid_ops_cons op ops w :
  run_xid_ops (op :: ops) w =
  match op with
  | op_get_new_xid c =>
      let x := getattr_lastxid c (_lastxid w) + 1 in
      match run_xid_ops ops (mk_world (cli w) (<[c := x]> (_lastxid w)) (net w) (nsock w)
                                      (events w)) with
      | Some (Ret evs, w') => Some (Ret (Returned c x :: evs), w')
      | Some (Raise e, w') => Some (Raise e, w')
      | None => None
      end
  | op_xid_used c y =>
      let v := Z.max (getattr_lastxid c (_lastxid w)) y in
      match run_xid_ops ops (mk_world (cli w) (<[c := v]> (_lastxid w)) (net w) (nsock w)
                                      (events w)) with
      | Some (Ret evs, w') => Some (Ret (Used c y :: evs), w')
      | Some (Raise e, w') => Some (Raise e, w')
      | None => None
      end
  end.
Proof.
  destruct op as [c|c y]; cbn [run_xid_ops]; unfold mbind at 1;
    unfold get_new_xid, xid_used, get_new_xid_attrs, xid_used_attrs, get_new_xid_pure,
      xid_used_pure; cbv zeta; unfold mbind, mret;
    destruct (run_xid_ops ops _) as [[[evs|e] w']|]; reflexivity.
Qed.

(** Every call returns: the run yields one observation per call. *)
Lemma run_xid_ops_returns ops : forall w,
  exists evs w', run_xid_ops ops w = Some (Ret evs, w') /\ length evs = length ops.
Proof.
  induction ops as [|op ops IH]; intros w; [by eexists _, _|].
  rewrite run_xid_ops_cons.
  destruct op as [c|c y]; cbv zeta;
    match goal with |- context [run_xid_ops ops ?w1] =>
      destruct (IH w1) as (evs & w' & -> & Hl) end;
    eexists _, _; (split; [reflexivity|]); simpl; by rewrite Hl.
Qed.

(** On a class that holds its own attribute, an allocation returns more
    than the attribute held when the run began. *)
Lemma returned_above_start ops : forall w evs w' i c x,
  run_xid_ops ops w = Some (Ret evs, w') ->
  evs !! i = Some (Returned c x) ->
  is_Some (_lastxid w !! c) ->
  getattr_lastxid c (_lastxid w) < x.
Proof.
  induction ops as [|op ops IH]; intros w evs w' i c x H Hi Hown.
  { injection H as <- <-. discriminate. }
  rewrite run_xid_ops_cons in H.
  destruct op as [d|d y]; cbv zeta in H;
    match type of H with context [run_xid_ops ops ?w1] =>
      destruct (run_xid_ops ops w1) as [[[evs1|e1] w1']|] eqn:Hrun; try discriminate
    end;
    injection H as <- <-; destruct i as [|i]; simpl in Hi.
  - injection Hi as <- <-. lia.
  - specialize (IH _ _ _ _ _ _ Hrun Hi). cbn [_lastxid] in IH.
    destruct (decide (c = d)) as [->|Hne].
    + rewrite getattr_lastxid_insert in IH.
      assert (is_Some (<[d := getattr_lastxid d (_lastxid w) + 1]> (_lastxid w) !! d))
        as Hs by (by rewrite lookup_insert_eq).
      apply IH in Hs. lia.
    + rewrite getattr_lastxid_insert_ne in IH by done.
      apply IH. by rewrite lookup_insert_ne.
  - discriminate.
  - specialize (IH _ _ _ _ _ _ Hrun Hi). cbn [_lastxid] in IH.
    destruct (decide (c = d)) as [->|Hne].
    + rewrite getattr_lastxid_insert in IH.
      assert (is_Some (<[d := Z.max (getattr_lastxid d (_lastxid w)) y]> (_lastxid w) !! d))
        as Hs by (by rewrite lookup_insert_eq).
      apply IH in Hs. lia.
    + rewrite getattr_lastxid_insert_ne in IH by done.
      apply IH. by rewrite lookup_insert_ne.
Qed.

(** A returned value exceeds whatever was returned or announced before on
    the same class. *)
Lemma returned_above_earlier ops : forall w evs w' i j c x e,
  run_xid_ops ops w = Some (Ret evs, w') ->
  (j < i)%nat ->
  evs !! i = Some (Returned c x) ->
  evs !! j = Some e ->
  event_class e = c ->
  event_xid e < x.
Proof.
  induction ops as [|op ops IH]; intros w evs w' i j c x e H Hji Hi Hj Hc.
  { injection H as <- <-. discriminate. }
  rewrite run_xid_ops_cons in H.
  destruct i as [|i]; [lia|].
  destruct op as [d|d y]; cbv zeta in H;
    match type of H with context [run_xid_ops ops ?w1] =>
      destruct (run_xid_ops ops w1) as [[[evs1|e1] w1']|] eqn:Hrun; try discriminate
    end;
    injection H as <- <-; simpl in Hi; destruct j as [|j]; simpl in Hj.
  - injection Hj as <-. simpl in Hc. subst d. simpl.
    pose proof (returned_above_start _ _ _ _ _ _ _ Hrun Hi) as Hlt. cbn [_lastxid] in Hlt.
    rewrite getattr_lastxid_insert in Hlt. apply Hlt. by rewrite lookup_insert_eq.
  - eapply IH; [exact Hrun| |exact Hi|exact Hj|exact Hc]. lia.
  - injection Hj as <-. simpl in Hc. subst d. simpl.
    pose proof (returned_above_start _ _ _ _ _ _ _ Hrun Hi) as Hlt. cbn [_lastxid] in Hlt.
    rewrite getattr_lastxid_insert in Hlt.
    assert (is_Some (<[c := Z.max (getattr_lastxid c (_lastxid w)) y]> (_lastxid w) !! c))
      as Hs by (by rewrite lookup_insert_eq).
    apply Hlt in Hs. lia.
  - eapply IH; [exact Hrun| |exact Hi|exact Hj|exact Hc]. lia.
Qed.

(** Neither closing the socket nor reconnecting touches the attributes. *)
Lemma reconnect_keeps_lastxid w r w' :
  reconnect w = Some (r, w') -> _lastxid w' = _lastxid w.
Proof.
  destruct w as [[sk et nr cr vf] lx [cs ss rs] ns evs].
  unfold reconnect, close, mbind, get_cli, next_connect, emit, put_cli, modify_cli,
    fresh_sock, mret, mraise; simpl.
  destruct sk as [k0|]; simpl; destruct cs as [|c cs']; simpl; try discriminate;
    destruct c; simpl; intros [= <- <-]; reflexivity.
Qed.


End xid.

(** ** Alignment of variable-length fields *)

Lemma read_exact_consumes count s b s' :
  read_exact count s = Ret (b, s') ->
  getvalue s' = getvalue s
  /\ Z.of_nat (tell s') = Z.of_nat (tell s) + count
  /\ Z.of_nat (length b) = count.
Proof.
  unfold read_exact, stream_read. intros H.
  case_decide as Hlen; [|discriminate].
  injection H as <- <-. simpl. split; [done|]. split; lia.
Qed.

Lemma xdr_pad_range len : 0 <= xdr_pad len <= 3 /\ (len + xdr_pad len) mod 4 = 0.
Proof.
  unfold xdr_pad.
  pose proof (Z.mod_pos_bound len 4 ltac:(lia)) as Hm.
  split.
  - pose proof (Z.mod_pos_bound (4 - len mod 4) 4 ltac:(lia)). lia.
  - rewrite Zplus_mod_idemp_r.
    replace (len + (4 - len mod 4)) with (len - len mod 4 + 1 * 4) by lia.
    rewrite Z.mod_add by lia. rewrite Zminus_mod_idemp_r.
    rewrite Z.sub_diag. reflexivity.
Qed.

(** [read_then_align] consumes the field and its pad. *)
Lemma read_then_align_consumes count s b s' :
  read_then_align count 4 s = Ret (b, s') ->
  getvalue s' = getvalue s
  /\ Z.of_nat (tell s') = Z.of_nat (tell s) + count + xdr_pad count
  /\ Z.of_nat (length b) = count.
Proof.
  unfold read_then_align, rbind. intros H.
  destruct (read_exact count s) as [[ret s1]|] eqn:H1; [|discriminate].
  apply read_exact_consumes in H1 as (Hv & Ht & Hl).
  pose proof (Z.mod_pos_bound count 4 ltac:(lia)) as Hm.
  destruct (count mod 4 =? 0) eqn:Hx.
  - injection H as <- <-. apply Z.eqb_eq in Hx.
    unfold xdr_pad. rewrite Hx. change ((4 - 0) mod 4) with 0.
    split; [done|]. split; lia.
  - apply Z.eqb_neq in Hx.
    destruct (read_exact (4 - count mod 4) s1) as [[pad s2]|] eqn:H2; [|discriminate].
    apply read_exact_consumes in H2 as (Hv2 & Ht2 & _).
    unfold rret in H. injection H as <- <-.
    unfold xdr_pad. rewrite (Z.mod_small (4 - count mod 4)) by lia.
    split; [congruence|]. split; lia.
Qed.

(** [vararray.read]: the length word, the bytes and the pad. *)
Lemma vararray_read_consumes s b s' :
  vararray_read s = Ret (b, s') ->
  let len := Z.of_nat (length b) in
  Z.of_nat (tell s') = Z.of_nat (tell s) + 4 + len + xdr_pad len.
Proof.
  unfold vararray_read, read_uint32, rbind, rret. intros H.
  destruct (read_exact 4 s) as [[w s1]|] eqn:H1; [|discriminate].
  apply read_exact_consumes in H1 as (_ & Ht & _).
  apply read_then_align_consumes in H as (_ & Ht2 & Hl).
  simpl. rewrite Hl. lia.
Qed.

(** C5 fails on the code for the data of a READ reply: [READ3res.read] takes
    the opaque with [read_exact], so it consumes the declared byte count and
    leaves the pad unread (position 21 of 24, three zeros remaining), where
    the sibling [READLINK3res.read] on the same opaque consumes its pad too. *)
Theorem READ3res_read_leaves_pad :
  (exists r s',
     READ3res_read (BytesIO_of read3_reply) = Ret (r, s')
     /\ (data <$> body r) = Some (Some [x41])
     /\ tell s' = 21%nat
     /\ unread s' = [x00; x00; x00])
  /\ (exists r s',
     READLINK3res_read (BytesIO_of readlink3_reply) = Ret (r, s')
     /\ (link_data <$> body r) = Some (Some [x41])
     /\ tell s' = 16%nat
     /\ unread s' = []).
Proof.
  split; eexists _, _; (split; [vm_compute; reflexivity|]); vm_compute; done.
Qed.

(** ** The transport *)

Section transport.
Import RawTCPClient.

(** C4 fails on the code: on [MSG_DENIED] with [AUTH_ERROR] the auth-stat
    word is read from the stream (the position moves to 20) but the status
    is built from the reject-stat, so whatever the four bytes of the
    auth-stat are, the result carries [Auth_stat(1)], AUTH_BADCRED; a reply
    saying AUTH_TOOWEAK (5) is reported as AUTH_BADCRED. *)
Theorem denied_auth_error_status_is_reject_stat :
  (forall (B : Type) (res_read : reader (ONCRPCres B)) (b0 b1 b2 b3 : byte),
     let reply := denied_auth_error_head ++ [b0; b1; b2; b3] in
     reply_dispatch res_read 7 (BytesIO_of reply)
     = Ret (ONCRPCresfail 7 (PEnum AUTH_BADCRED), false, mk_stream reply 20))
  /\ reply_dispatch null_read 7
       (BytesIO_of (denied_auth_error_head ++ [x00; x00; x00; x05]))
     = Ret (ONCRPCresfail 7 (PEnum (mk_enum Auth_stat 1)), false,
            mk_stream (denied_auth_error_head ++ [x00; x00; x00; x05]) 20)
  /\ read_uint32 (mk_stream (denied_auth_error_head ++ [x00; x00; x00; x05]) 16)
     = Ret (_val AUTH_TOOWEAK,
            mk_stream (denied_auth_error_head ++ [x00; x00; x00; x05]) 20).
Proof.
  split; [|split].
  - intros B res_read b0 b1 b2 b3. reflexivity.
  - reflexivity.
  - reflexivity.
Qed.
(** A timeout that the socket reports marks the client for reconnection
    before [RPCTimeout] is raised. *)
Lemma _recvwrapper_socket_timeout bufsize w rest k :
  recvs (net w) = recv_timeout :: rest ->
  sock (cli w) = Some k ->
  exists w', _recvwrapper bufsize w = Some (Raise RPCTimeout, w')
             /\ need_reconnect (cli w') = true.
Proof.
  intros Hr Hs. unfold _recvwrapper, mbind, next_recv. rewrite Hr. simpl.
  rewrite Hs. simpl. eauto.
Qed.

(** A deadline found expired before the socket is touched leaves the client
    as it was. *)
Lemma _recvwrapper_deadline bufsize w rest :
  recvs (net w) = recv_deadline :: rest ->
  exists w', _recvwrapper bufsize w = Some (Raise RPCTimeout, w')
             /\ cli w' = cli w.
Proof.
  intros Hr. unfold _recvwrapper, mbind, next_recv. rewrite Hr. simpl. eauto.
Qed.

(** C2 fails on the code: [_recvwrapper] sets [need_reconnect] when the
    socket times out, and the handler in [make_call] does not clear it.  A
    connected client whose receive times out ends the try with
    [need_reconnect = True] where it was [False]; with two tries, the second
    closes socket 0, connects socket 1 and sends the call (xid 1 again) on
    the new connection. *)
Theorem socket_timeout_forces_reconnect :
  (exists w',
     _make_call_internal cfg0 0 null_args null_read 1 (connected [recv_timeout])
     = Some (Raise RPCTimeout, w')
     /\ need_reconnect (cli (connected [recv_timeout])) = false
     /\ need_reconnect (cli w') = true)
  /\ (exists w',
     _make_call_internal cfg0 0 null_args null_read 1 connected_send_timeout
     = Some (Raise RPCTimeout, w')
     /\ need_reconnect (cli connected_send_timeout) = false
     /\ need_reconnect (cli w') = true)
  /\ (exists r w',
     make_call cfg0 0 null_args null_read None None (Some 2) None false timeout_then_reply
     = Some (Ret r, w')
     /\ xid r = Some 1
     /\ status r = PInt 0
     /\ events w' = [Connected 0; Sent 0 null_call_1;
                     Closed 0; Connected 1; Sent 1 null_call_1]).
Proof.
  split; [|split].
  - eexists. split; [vm_compute; reflexivity|]. split; reflexivity.
  - eexists. split; [vm_compute; reflexivity|]. split; reflexivity.
  - eexists _, _. split; [vm_compute; reflexivity|]. repeat split; reflexivity.
Qed.
End transport.

(** ** Lists on the wire *)

Lemma read_exact_unread count s b s' :
  read_exact count s = Ret (b, s') ->
  Z.of_nat (length (unread s')) = Z.of_nat (length (unread s)) - count.
Proof.
  unfold read_exact, stream_read. intros H.
  case_decide as Hlen; [|discriminate].
  injection H as <- <-. unfold unread in *. simpl.
  destruct (count <? 0) eqn:Hneg.
  - apply Z.ltb_lt in Hneg. lia.
  - apply Z.ltb_ge in Hneg. rewrite length_take, length_drop in Hlen.
    rewrite !length_drop, length_take, length_drop. lia.
Qed.

Lemma read_uint32_unread s v s' :
  read_uint32 s = Ret (v, s') ->
  (length (unread s') + 4 = length (unread s))%nat.
Proof.
  unfold read_uint32, rbind, rret. intros H.
  destruct (read_exact 4 s) as [[b s1]|] eqn:H1; [|discriminate].
  injection H as _ <-. apply read_exact_unread in H1. lia.
Qed.

Lemma read_uint32_forward : forward read_uint32.
Proof.
  intros s v s'. unfold read_uint32, rbind, rret. intros H.
  destruct (read_exact 4 s) as [[b s1]|] eqn:H1; [|discriminate].
  injection H as _ <-. apply read_exact_consumes in H1 as (Hv & Ht & _).
  split; [done|lia].
Qed.

Section read_list.
Context {A : Type}.
Variable read_item : reader A.
Hypothesis read_item_forward : forward read_item.

Lemma read_item_unread s x s' :
  read_item s = Ret (x, s') -> (length (unread s') <= length (unread s))%nat.
Proof.
  intros H. apply read_item_forward in H as [Hv Ht].
  unfold unread. rewrite !length_drop, Hv. lia.
Qed.

(** What the loop returns is what the wire form carries. *)
Lemma read_list_loop_sound fuel : forall acc s items s',
  read_list_loop fuel read_item acc s = Some (Ret (items, s')) ->
  exists xs, items = acc ++ xs /\ list_on_wire read_item s xs s'.
Proof.
  induction fuel as [|fuel IH]; intros acc s items s' H; [discriminate|].
  simpl in H.
  destruct (read_uint32 s) as [[nextval s1]|] eqn:Hm; [|discriminate].
  destruct (nextval =? 0) eqn:H0.
  - apply Z.eqb_eq in H0. subst nextval. injection H as <- <-.
    exists []. split; [by rewrite app_nil_r|]. by constructor.
  - destruct (nextval =? 1) eqn:H1; simpl in H; [|discriminate].
    apply Z.eqb_eq in H1. subst nextval.
    destruct (read_item s1) as [[x s2]|] eqn:Hi; [|discriminate].
    apply IH in H as (xs & -> & Hw).
    exists (x :: xs). split; [by rewrite <- app_assoc|].
    econstructor; eauto.
Qed.

(** With enough fuel the loop returns the list that is on the wire. *)
Lemma read_list_loop_complete s xs s' :
  list_on_wire read_item s xs s' ->
  forall fuel acc, (length (unread s) < fuel)%nat ->
    read_list_loop fuel read_item acc s = Some (Ret (acc ++ xs, s')).
Proof.
  induction 1 as [s s' Hm|s s1 s2 s' x xs Hm Hi Hw IH]; intros fuel acc Hf.
  - destruct fuel as [|fuel]; [lia|]. simpl. rewrite Hm. simpl. by rewrite app_nil_r.
  - destruct fuel as [|fuel]; [lia|]. simpl. rewrite Hm. simpl. rewrite Hi.
    rewrite IH.
    + by rewrite <- app_assoc.
    + apply read_uint32_unread in Hm. apply read_item_unread in Hi. lia.
Qed.

(** With enough fuel a bad marker raises [ProtocolError]. *)
Lemma read_list_loop_bad_marker s :
  bad_marker read_item s ->
  forall fuel acc, (length (unread s) < fuel)%nat ->
    read_list_loop fuel read_item acc s
    = Some (Raise (ProtocolError "unexpected nextval")).
Proof.
  induction 1 as [s v s' Hm Hv0 Hv1|s s1 s2 x Hm Hi Hb IH]; intros fuel acc Hf.
  - destruct fuel as [|fuel]; [lia|]. simpl. rewrite Hm.
    apply Z.eqb_neq in Hv0, Hv1. by rewrite Hv0, Hv1.
  - destruct fuel as [|fuel]; [lia|]. simpl. rewrite Hm. simpl. rewrite Hi.
    apply IH. apply read_uint32_unread in Hm. apply read_item_unread in Hi. lia.
Qed.

(** The unread length is enough fuel: the loop always leaves. *)
Lemma read_list_loop_leaves fuel : forall acc s,
  (length (unread s) < fuel)%nat ->
  exists r, read_list_loop fuel read_item acc s = Some r.
Proof.
  induction fuel as [|fuel IH]; intros acc s Hf; [lia|].
  simpl.
  destruct (read_uint32 s) as [[nextval s1]|] eqn:Hm; [|eauto].
  destruct (nextval =? 0); [eauto|].
  destruct (nextval =? 1); simpl; [|eauto].
  destruct (read_item s1) as [[x s2]|] eqn:Hi; [|eauto].
  apply IH. apply read_uint32_unread in Hm. apply read_item_unread in Hi. lia.
Qed.

(** C10: for an item decoder that reads forward, [read_list] always ends;
    it returns a list exactly when the stream holds that list as pairs of a
    marker 1 and an item closed by a marker 0 (and it stops right after that
    0); and it raises [ProtocolError] when it meets a marker that is neither
    0 nor 1. *)
Theorem read_list_returns_wire_list_or_raises s :
  (exists r, read_list read_item s = Some r)
  /\ (forall items s',
        read_list read_item s = Some (Ret (items, s')) <-> list_on_wire read_item s items s')
  /\ (bad_marker read_item s ->
        exists msg, read_list read_item s = Some (Raise (ProtocolError msg))).
Proof.
  unfold read_list. split; [|split].
  - apply read_list_loop_leaves. lia.
  - intros items s'. split.
    + intros H. apply read_list_loop_sound in H as (xs & -> & Hw). exact Hw.
    + intros Hw. apply (read_list_loop_complete _ _ _ Hw _ []). lia.
  - intros Hb. eexists. apply (read_list_loop_bad_marker _ Hb). lia.
Qed.

End read_list.

Lemma read_list_returns_wire_list_or_raises_witness :
  forward read_uint32
  /\ (exists r, read_list read_uint32 (BytesIO_of one_item_list) = Some r)
  /\ (forall items s',
        read_list read_uint32 (BytesIO_of one_item_list) = Some (Ret (items, s'))
        <-> list_on_wire read_uint32 (BytesIO_of one_item_list) items s')
  /\ (bad_marker read_uint32 (BytesIO_of one_item_list) ->
        exists msg,
          read_list read_uint32 (BytesIO_of one_item_list) = Some (Raise (ProtocolError msg))).
Proof.
  split.
  - exact read_uint32_forward.
  - apply (read_list_returns_wire_list_or_raises read_uint32 read_uint32_forward
             (BytesIO_of one_item_list)).
Defined.

(** The list of the scenario is read back, and a marker 2 is refused. *)
Example read_list_one_item :
  read_list read_uint32 (BytesIO_of one_item_list)
  = Some (Ret ([42], mk_stream one_item_list 12)).
Proof. reflexivity. Qed.

Example read_list_marker_2 :
  read_list read_uint32 (BytesIO_of [x00; x00; x00; x02; x00; x00; x00; x2a])
  = Some (Raise (ProtocolError "unexpected nextval")).
Proof. reflexivity. Qed.

(** ** The JUKEBOX retry loop *)

Lemma isinstance_nfsstat3_PEnum e :
  isinstance_nfsstat3 (PEnum e) = bool_decide (type_of e = nfsstat3).
Proof. reflexivity. Qed.

(** Among nfsstat3 values, [== nfsstat3_NFS3ERR_JUKEBOX] compares integers. *)
Lemma eq_JUKEBOX e :
  type_of e = nfsstat3 ->
  snd (__eq__ e (PEnum nfsstat3_NFS3ERR_JUKEBOX)) = Ret (_val e =? 10008).
Proof.
  intros Ht. unfold __eq__. simpl. rewrite Ht. by rewrite decide_True.
Qed.

Lemma is_JUKEBOX_PEnum e :
  is_JUKEBOX (PEnum e) <-> type_of e = nfsstat3 /\ _val e = 10008.
Proof.
  unfold is_JUKEBOX, nfsstat3_NFS3ERR_JUKEBOX. destruct e as [c v]. simpl. split.
  - intros H. injection H as -> ->. done.
  - intros [-> ->]. done.
Qed.

Section retry.
Import NFS3Util.
Context {B W : Type}.
Variable get_new_xid : W -> Z * W.
Variable transport : Z -> W -> outcome (ONCRPCres B) * W.
Variable latencies_complete : pyval -> W -> W.

(** One turn of the loop, case by case. *)
Lemma make_call_loop_step fuel callTries in_xid try_count cur w :
  make_call_loop get_new_xid transport latencies_complete
    (S fuel) callTries in_xid try_count cur cur w =
  match transport cur w with
  | (Raise e, w1) => Some (Raise e, w1, [mk_attempt cur (Raise e) w1])
  | (Ret res, w1) =>
      let w2 := latencies_complete (status res) w1 in
      let att := mk_attempt cur (Ret res) w2 in
      if ends_call in_xid res then Some (Ret res, w2, [att])
      else
        let '(x, w3) := next_try get_new_xid cur res w2 in
        if try_count + 1 <? callTries then
          match make_call_loop get_new_xid transport latencies_complete
                  fuel callTries in_xid (try_count + 1) x x w3 with
          | Some (r, w', atts) => Some (r, w', att :: atts)
          | None => None
          end
        else Some (Ret (finish res), w3, [att])
  end.
Proof.
  simpl. destruct (transport cur w) as [[res|e] w1]; [|done].
  unfold ends_call, next_try.
  destruct (status res) as [e| | |] eqn:Hst; try done.
  case_bool_decide as Ht; simpl; [|done].
  rewrite decide_True by done. simpl.
  destruct (_val e =? 10008); simpl; [|done].
  destruct in_xid as [x|]; simpl.
  - done.
  - destruct (get_new_xid _) as [x w3]. done.
Qed.

(** The first attempt recorded is made with the XID the loop was given. *)
Lemma make_call_loop_head fuel callTries in_xid try_count cur w r w' atts :
  make_call_loop get_new_xid transport latencies_complete
    fuel callTries in_xid try_count cur cur w = Some (r, w', atts) ->
  exists a rest, atts = a :: rest /\ a_xid a = cur.
Proof.
  destruct fuel as [|fuel]; [discriminate|].
  rewrite make_call_loop_step.
  destruct (transport cur w) as [[res|e] w1].
  - cbv zeta. destruct (ends_call in_xid res).
    + intros [= <- <- <-]. eauto.
    + destruct (next_try _ _ _ _) as [x w3].
      destruct (try_count + 1 <? callTries).
      * destruct (make_call_loop _ _ _ _ _ _ _ _ _ _) as [[[r0 w0] atts0]|]; [|discriminate].
        intros [= <- <- <-]. eauto.
      * intros [= <- <- <-]. eauto.
  - intros [= <- <- <-]. eauto.
Qed.

(** [callTries] turns are enough fuel. *)
Lemma make_call_loop_returns fuel : forall callTries in_xid try_count cur w,
  (0 < fuel)%nat ->
  callTries - try_count <= Z.of_nat fuel ->
  exists out,
    make_call_loop get_new_xid transport latencies_complete
      fuel callTries in_xid try_count cur cur w = Some out.
Proof.
  induction fuel as [|fuel IH]; intros callTries in_xid try_count cur w Hpos Hf; [lia|].
  rewrite make_call_loop_step.
  destruct (transport cur w) as [[res|e] w1]; [|eauto].
  cbv zeta. destruct (ends_call in_xid res); [eauto|].
  destruct (next_try _ _ _ _) as [x w3].
  destruct (try_count + 1 <? callTries) eqn:Hlt; [|eauto].
  apply Z.ltb_lt in Hlt.
  destruct (IH callTries in_xid (try_count + 1) x w3) as [[[r w'] atts] ->]; [lia|lia|].
  eauto.
Qed.
Lemma ends_call_true in_xid (res : ONCRPCres B) :
  ends_call in_xid res = true ->
  isinstance_nfsstat3 (status res) = true
  /\ (is_JUKEBOX (status res) -> is_Some in_xid).
Proof.
  unfold ends_call. destruct (status res) as [e| | |]; try discriminate.
  rewrite isinstance_nfsstat3_PEnum. intros [Ht Hj]%andb_true_iff.
  split; [done|]. intros [_ Hv]%is_JUKEBOX_PEnum.
  rewrite Hv in Hj. simpl in Hj. by apply bool_decide_eq_true in Hj.
Qed.

Lemma ends_call_false in_xid (res : ONCRPCres B) cur w2 :
  ends_call in_xid res = false ->
  (isinstance_nfsstat3 (status res) = false
   /\ next_try get_new_xid cur res w2 = (cur, w2))
  \/ (is_JUKEBOX (status res) /\ in_xid = None
      /\ next_try get_new_xid cur res w2 = get_new_xid w2).
Proof.
  unfold ends_call, next_try. destruct (status res) as [e| | |]; try (left; done).
  rewrite isinstance_nfsstat3_PEnum.
  case_bool_decide as Ht; simpl; [|left; done].
  intros [Hv Hx]%orb_false_iff. right.
  apply negb_false_iff, Z.eqb_eq in Hv. apply bool_decide_eq_false in Hx.
  split; [by apply is_JUKEBOX_PEnum|]. split; [|done].
  destruct in_xid; [|done]. exfalso. eauto.
Qed.

Lemma JUKEBOX_isinstance st : is_JUKEBOX st -> isinstance_nfsstat3 st = true.
Proof. intros ->. reflexivity. Qed.

(** What the loop returns never has the status [None]; when the last
    attempt had it, the loop returns that result with the status replaced. *)
Lemma make_call_loop_status fuel : forall callTries in_xid try_count cur w r w' atts,
  make_call_loop get_new_xid transport latencies_complete
    fuel callTries in_xid try_count cur cur w = Some (r, w', atts) ->
  (forall res, r = Ret res -> status res <> PNone)
  /\ forall a lastres, last atts = Some a -> a_res a = Ret lastres ->
       status lastres = PNone ->
       r = Ret (set_status (PStr "Unexpected_NoneStatus") lastres).
Proof.
  induction fuel as [|fuel IH]; intros callTries in_xid try_count cur w r w' atts H;
    [discriminate|].
  rewrite make_call_loop_step in H.
  destruct (transport cur w) as [[res0|e] w1]; cbv zeta in H.
  - destruct (ends_call in_xid res0) eqn:Hend.
    + injection H as <- <- <-. apply ends_call_true in Hend as [Hinst _].
      split.
      * intros res [= <-] Hnone. rewrite Hnone in Hinst. discriminate.
      * intros a lastres [= <-] [= <-] Hnone. rewrite Hnone in Hinst. discriminate.
    + destruct (next_try get_new_xid cur res0 _) as [x w3].
      destruct (try_count + 1 <? callTries).
      * destruct (make_call_loop _ _ _ _ _ _ _ _ _ _) as [[[r0 w0] atts0]|] eqn:Hrec;
          [|discriminate].
        injection H as <- <- <-.
        destruct (make_call_loop_head _ _ _ _ _ _ _ _ _ Hrec) as (a0 & rest & -> & _).
        destruct (IH _ _ _ _ _ _ _ _ Hrec) as [Hne Hlast].
        split; [exact Hne|].
        intros a lastres Ha. apply Hlast. rewrite last_cons in Ha.
        destruct (last (a0 :: rest)) eqn:Hl; [done|].
        by apply last_None in Hl.
      * injection H as <- <- <-. unfold finish. split.
        -- intros res [= <-]. destruct (status res0) eqn:Hst; simpl; congruence.
        -- intros a lastres [= <-] [= <-] Hnone. by rewrite Hnone.
  - injection H as <- <- <-. split; [discriminate|].
    intros a lastres [= <-]. discriminate.
Qed.

End retry.

Section observed_retry.
Import NFS3Util.
Context {B W : Type}.
Variable get_new_xid : W -> Z * W.
Variable transport : Z -> W -> outcome (ONCRPCres B) * W.
Variable latencies_complete : pyval -> W -> W.

(** Closes a case of the discipline whose premises contradict what is
    known of the call. *)
Ltac discipline_absurd :=
  solve [ congruence
        | lia
        | match goal with
          | H : is_Some None |- _ => destruct H; discriminate
          | H : is_JUKEBOX ?st, H' : isinstance_nfsstat3 ?st = false |- _ =>
              apply JUKEBOX_isinstance in H; congruence
          | H : is_JUKEBOX ?st, H' : ~ is_JUKEBOX ?st |- _ => destruct (H' H)
          end ].

Lemma next_try_beside_log {L} cur (res : ONCRPCres B) w2 (log : L) :
  next_try (beside_log get_new_xid) cur res (w2, log)
  = let '(x, w3) := next_try get_new_xid cur res w2 in (x, (w3, log)).
Proof.
  unfold next_try, beside_log. simpl.
  destruct (status res) as [e| | |]; try done.
  case_bool_decide; [|done]. by destruct (get_new_xid w2).
Qed.

(** The observed run follows the plain one: same result, same final state,
    and the calls it logs start with the XID and the state the loop was
    given and obey the discipline. *)
Lemma observed_loop fuel : forall callTries in_xid try_count cur w log0 r w' atts,
  make_call_loop get_new_xid transport latencies_complete
    fuel callTries in_xid try_count cur cur w = Some (r, w', atts) ->
  exists calls atts',
    make_call_loop (beside_log get_new_xid) (observed transport)
      (complete_beside_log latencies_complete)
      fuel callTries in_xid try_count cur cur (w, log0)
    = Some (r, (w', log0 ++ calls), atts')
    /\ (exists c rest, calls = c :: rest /\ t_xid c = cur /\ t_before c = w)
    /\ forall i c res, calls !! i = Some c -> t_res c = Ret res ->
         retry_discipline get_new_xid latencies_complete callTries in_xid
           try_count r calls i c res.
Proof.
  induction fuel as [|fuel IH];
    intros callTries in_xid try_count cur w log0 r w' atts H; [discriminate|].
  rewrite make_call_loop_step in H. rewrite make_call_loop_step.
  unfold observed at 1. cbn [fst snd].
  destruct (transport cur w) as [[res0|e] w1]; cbv zeta in H; cbv zeta.
  - set (c0 := mk_transport_call cur w (Ret res0) w1).
    destruct (ends_call in_xid res0) eqn:Hend.
    + injection H as <- <- <-. exists [c0]. eexists. split; [reflexivity|].
      split; [by exists c0, []|].
      intros [|i] c res Hc Hres; [|discriminate].
      injection Hc as <-. injection Hres as <-.
      apply ends_call_true in Hend as [Hinst Hjx].
      split; [|split; [|split]].
      * intros Hj Hn _. apply Hjx in Hj. subst in_xid. discipline_absurd.
      * intros _ _. done.
      * intros _ _. done.
      * intros Hinst' _. discipline_absurd.
    + unfold complete_beside_log at 1. cbn [fst snd].
      rewrite next_try_beside_log.
      destruct (next_try get_new_xid cur res0 _) as [x w3] eqn:Hnext.
      pose proof (ends_call_false get_new_xid in_xid res0 cur
                    (latencies_complete (status res0) w1) Hend) as Hcase.
      rewrite Hnext in Hcase.
      destruct (try_count + 1 <? callTries) eqn:Hlt.
      * destruct (make_call_loop get_new_xid _ _ _ _ _ _ _ _ _)
          as [[[r0 w0] atts0]|] eqn:Hrec; [|discriminate].
        injection H as <- <- <-.
        destruct (IH _ _ _ _ _ (log0 ++ [c0]) _ _ _ Hrec)
          as (calls & atts' & -> & (c1 & rest & -> & Hx & Hw) & Hd).
        exists (c0 :: c1 :: rest). eexists. split.
        { assert ((log0 ++ [c0]) ++ c1 :: rest = log0 ++ c0 :: c1 :: rest) as ->
            by (by rewrite <- app_assoc).
          reflexivity. }
        split; [by exists c0, (c1 :: rest)|].
        intros [|i] c res Hc Hres.
        -- injection Hc as <-. injection Hres as <-.
           destruct Hcase as [[Hinst Heq]|(Hj & Hn & Heq)].
           ++ injection Heq as -> ->.
              split; [|split; [|split]].
              ** intros Hj _ _. discipline_absurd.
              ** intros Hj _. discipline_absurd.
              ** intros Hinst' _. discipline_absurd.
              ** intros _ _. exists c1. split; [done|]. simpl. by rewrite Hx, Hw.
           ++ split; [|split; [|split]].
              ** intros _ _ _. exists c1. split; [done|]. simpl.
                 by rewrite Hx, Hw, <- Heq.
              ** intros _ Hsome. subst in_xid. discipline_absurd.
              ** intros _ Hnj. discipline_absurd.
              ** intros Hinst _. discipline_absurd.
        -- specialize (Hd i c res Hc Hres).
           destruct Hd as (H1 & H2 & H3 & H4).
           split; [|split; [|split]].
           ++ intros Hj Hn Hlt'. apply H1; [done|done|lia].
           ++ exact H2.
           ++ exact H3.
           ++ intros Hinst Hlt'. apply H4; [done|lia].
      * injection H as <- <- <-. apply Z.ltb_ge in Hlt.
        exists [c0]. eexists. split; [reflexivity|].
        split; [by exists c0, []|].
        intros [|i] c res Hc Hres; [|discriminate].
        injection Hc as <-. injection Hres as <-.
        destruct Hcase as [[Hinst Heq]|(Hj & Hn & Heq)].
        -- split; [|split; [|split]].
           ++ intros Hj _ _. discipline_absurd.
           ++ intros Hj _. discipline_absurd.
           ++ intros Hinst' _. discipline_absurd.
           ++ intros _ Hlt'. discipline_absurd.
        -- split; [|split; [|split]].
           ++ intros _ _ Hlt'. discipline_absurd.
           ++ intros _ Hsome. subst in_xid. discipline_absurd.
           ++ intros _ Hnj. discipline_absurd.
           ++ intros Hinst _. discipline_absurd.
  - injection H as <- <- <-.
    exists [mk_transport_call cur w (Raise e) w1]. eexists.
    split; [reflexivity|]. split; [by eexists _, []|].
    intros [|i] c res Hc Hres; [|discriminate].
    injection Hc as <-. discriminate.
Qed.

(** C3: with at least one try allowed, [make_call] returns, and the calls
    it makes to the inherited [make_call], as an observer on that method
    logs them, are these.  There is a first call, on the caller's XID or on
    one that [get_new_xid] allocates.  After a call whose result has the
    status NFS3ERR_JUKEBOX, with tries remaining and no XID from the caller,
    a further call is made, with the XID that [get_new_xid] allocates then;
    after NFS3ERR_JUKEBOX on an XID from the caller that result is returned
    and no further call is made; after any other nfsstat3 status the result
    is returned and no further call is made; after a status that is no
    nfsstat3, with tries remaining, a further call is made with the same
    XID.  The observer changes neither the result nor the final state. *)
Theorem NFS3_make_call_retry_discipline callTries in_xid w :
  1 <= default nfs3_callTries_default callTries ->
  exists r w' calls atts atts',
    make_call (beside_log get_new_xid) (observed transport)
      (complete_beside_log latencies_complete) callTries in_xid (w, [])
    = Some (r, (w', calls), atts)
    /\ make_call get_new_xid transport latencies_complete callTries in_xid w
       = Some (r, w', atts')
    /\ (exists c, calls !! 0%nat = Some c
          /\ (t_xid c, t_before c) = match in_xid with
                                     | Some x => (x, w)
                                     | None => get_new_xid w
                                     end)
    /\ forall i c res, calls !! i = Some c -> t_res c = Ret res ->
       let w2 := latencies_complete (status res) (t_after c) in
       (is_JUKEBOX (status res) -> in_xid = None ->
        Z.of_nat (S i) < default nfs3_callTries_default callTries ->
        exists c', calls !! S i = Some c'
                   /\ (t_xid c', t_before c') = get_new_xid w2)
       /\ (is_JUKEBOX (status res) -> is_Some in_xid ->
           r = Ret res /\ calls !! S i = None)
       /\ (isinstance_nfsstat3 (status res) = true -> ~ is_JUKEBOX (status res) ->
           r = Ret res /\ calls !! S i = None)
       /\ (isinstance_nfsstat3 (status res) = false ->
           Z.of_nat (S i) < default nfs3_callTries_default callTries ->
           exists c', calls !! S i = Some c'
                      /\ (t_xid c', t_before c') = (t_xid c, w2)).
Proof.
  intros Hn. unfold make_call.
  set (n := default nfs3_callTries_default callTries) in *.
  destruct (n <? 1) eqn:Hlt; [apply Z.ltb_lt in Hlt; lia|].
  assert (match in_xid with
          | Some x => (x, (w, @nil (transport_call B W)))
          | None => beside_log get_new_xid (w, [])
          end
          = let '(x, w0) := match in_xid with
                            | Some x => (x, w)
                            | None => get_new_xid w
                            end in (x, (w0, []))) as ->.
  { destruct in_xid; [done|]. unfold beside_log. simpl. by destruct (get_new_xid w). }
  destruct (match in_xid with Some x => (x, w) | None => get_new_xid w end)
    as [cur_xid w0].
  destruct (make_call_loop_returns get_new_xid transport latencies_complete
              (Z.to_nat n) n in_xid 0 cur_xid w0)
    as [[[r w'] atts'] Hrun]; [lia|lia|].
  destruct (observed_loop _ _ _ _ _ _ [] _ _ _ Hrun)
    as (calls & atts & Hobs & (c & rest & -> & Hx & Hw) & Hd).
  exists r, w', (c :: rest), atts, atts'.
  split; [exact Hobs|]. split; [exact Hrun|].
  split; [exists c; split; [done|by rewrite Hx, Hw]|].
  intros i c' res Hc Hres.
  pose proof (Hd i c' res Hc Hres) as H.
  unfold retry_discipline in H. rewrite !Z.add_0_l in H. exact H.
Qed.

End observed_retry.

Lemma NFS3_make_call_retry_discipline_witness :
  1 <= default NFS3Util.nfs3_callTries_default None
  /\ exists r w' calls atts atts',
    NFS3Util.make_call (beside_log scripted_get_new_xid) (observed scripted_transport)
      (complete_beside_log scripted_latencies) None None (jukebox_then_ok, [])
    = Some (r, (w', calls), atts)
    /\ NFS3Util.make_call scripted_get_new_xid scripted_transport scripted_latencies
         None None jukebox_then_ok
       = Some (r, w', atts')
    /\ (exists c, calls !! 0%nat = Some c
          /\ (t_xid c, t_before c) = scripted_get_new_xid jukebox_then_ok)
    /\ forall i c res, calls !! i = Some c -> t_res c = Ret res ->
       let w2 := scripted_latencies (status res) (t_after c) in
       (is_JUKEBOX (status res) -> @None Z = None ->
        Z.of_nat (S i) < default NFS3Util.nfs3_callTries_default None ->
        exists c', calls !! S i = Some c'
                   /\ (t_xid c', t_before c') = scripted_get_new_xid w2)
       /\ (is_JUKEBOX (status res) -> is_Some (@None Z) ->
           r = Ret res /\ calls !! S i = None)
       /\ (isinstance_nfsstat3 (status res) = true -> ~ is_JUKEBOX (status res) ->
           r = Ret res /\ calls !! S i = None)
       /\ (isinstance_nfsstat3 (status res) = false ->
           Z.of_nat (S i) < default NFS3Util.nfs3_callTries_default None ->
           exists c', calls !! S i = Some c'
                      /\ (t_xid c', t_before c') = (t_xid c, w2)).
Proof.
  assert (H : 1 <= default NFS3Util.nfs3_callTries_default None)
    by (vm_compute; discriminate).
  split; [exact H|].
  exact (NFS3_make_call_retry_discipline scripted_get_new_xid scripted_transport
           scripted_latencies None None jukebox_then_ok H).
Defined.

(** The calls of that scenario as the observer logs them: XID 1 is answered
    with JUKEBOX, then XID 2, allocated after it, with NFS3_OK. *)
Example jukebox_then_ok_calls :
  (fun out => (out.1.1, out.1.2))
    <$> NFS3Util.make_call (beside_log scripted_get_new_xid) (observed scripted_transport)
          (complete_beside_log scripted_latencies) None None (jukebox_then_ok, [])
  = Some (Ret (mk_res (Some 2) (PEnum nfsstat3_NFS3_OK) None),
          (mk_scripted 2 [],
           [mk_transport_call 1
              (mk_scripted 1 [PEnum nfsstat3_NFS3ERR_JUKEBOX; PEnum nfsstat3_NFS3_OK])
              (Ret (mk_res (Some 1) (PEnum nfsstat3_NFS3ERR_JUKEBOX) None))
              (mk_scripted 1 [PEnum nfsstat3_NFS3_OK]);
            mk_transport_call 2
              (mk_scripted 2 [PEnum nfsstat3_NFS3_OK])
              (Ret (mk_res (Some 2) (PEnum nfsstat3_NFS3_OK) None))
              (mk_scripted 2 [])])).
Proof. reflexivity. Qed.

(** The run of that scenario: a second try with the new XID 2 succeeds. *)
Example jukebox_then_ok_run :
  NFS3Util.make_call scripted_get_new_xid scripted_transport scripted_latencies
    None None jukebox_then_ok
  = Some (Ret (mk_res (Some 2) (PEnum nfsstat3_NFS3_OK) None),
          mk_scripted 2 [],
          [NFS3Util.mk_attempt 1 (Ret (mk_res (Some 1) (PEnum nfsstat3_NFS3ERR_JUKEBOX) None))
             (mk_scripted 1 [PEnum nfsstat3_NFS3_OK]);
           NFS3Util.mk_attempt 2 (Ret (mk_res (Some 2) (PEnum nfsstat3_NFS3_OK) None))
             (mk_scripted 2 [])]).
Proof. reflexivity. Qed.


(** The run of that scenario: both tries use XID 1 and the status is mapped. *)
Example none_twice_run :
  NFS3Util.make_call scripted_get_new_xid scripted_transport scripted_latencies
    (Some 2) None none_twice
  = Some (Ret (set_status (PStr "Unexpected_NoneStatus") none_result),
          mk_scripted 1 [],
          [NFS3Util.mk_attempt 1 (Ret none_result) (mk_scripted 1 [PNone]);
           NFS3Util.mk_attempt 1 (Ret none_result) (mk_scripted 1 [])]).
Proof. reflexivity. Qed.

(** ** Whole-directory listings *)

Section entire_dir.
Import NFS3Util.

(** At any iteration (any cookie, any entries gathered so far) a READDIRPLUS
    answer whose status is not NFS3_OK makes the method return (False, []). *)
Lemma readdirplus_loop_error rpc rest dirfh cookie cv acc lg args :
  READDIRPLUS3args_new dirfh cookie cv = Ret args ->
  status_ne (status (rpc args)) nfsstat3_NFS3_OK = true ->
  readdirplus_loop (rpc :: rest) dirfh cookie cv acc (Some lg) = Some (Ret (false, [])).
Proof. intros Ha Hne. simpl. rewrite Ha, Hne. reflexivity. Qed.

(** The same answer to READDIR reaches the use of the unassigned local. *)
Lemma readdir_loop_error rpc rest dirfh cookie cv acc args :
  READDIR3args_new dirfh cookie cv = Ret args ->
  status_ne (status (rpc args)) nfsstat3_NFS3_OK = true ->
  readdir_loop (rpc :: rest) dirfh cookie cv acc None
  = Some (Raise (UnboundLocalError "logger")).
Proof. intros Ha Hne. simpl. rewrite Ha, Hne. reflexivity. Qed.

(** C6 fails on the code for READDIR: [readdir_entire_dir] has no [logger]
    parameter, so on a status other than NFS3_OK (at the first iteration or
    after a page, for a protocol error or a transport failure) the statement
    [logger = LoggerState.logger_get(logger=logger)] raises
    [UnboundLocalError] and (False, []) is never returned;
    [readdirplus_entire_dir], which takes [logger=None], returns (False, [])
    on the same answers. *)
Theorem readdir_entire_dir_raises_on_error :
  readdir_entire_dir [fun _ => readdir_noent] [x01]
  = Some (Raise (UnboundLocalError "logger"))
  /\ readdir_entire_dir [fun _ => readdir_page; fun _ => readdir_noent] [x01]
     = Some (Raise (UnboundLocalError "logger"))
  /\ readdir_entire_dir [fun _ => readdir_timeout] [x01]
     = Some (Raise (UnboundLocalError "logger"))
  /\ readdirplus_entire_dir [fun _ => readdir_noent] [x01] logger_None
     = Some (Ret (false, []))
  /\ readdirplus_entire_dir [fun _ => readdirplus_page; fun _ => readdir_noent] [x01]
       logger_None
     = Some (Ret (false, []))
  /\ readdirplus_entire_dir [fun _ => readdir_timeout] [x01] logger_None
     = Some (Ret (false, [])).
Proof. repeat split; reflexivity. Qed.
End entire_dir.

(** ** Path resolution *)

Lemma split_sep_nonempty s : NFS3Util.split_sep s <> [].
Proof.
  destruct s as [|c r]; simpl; [done|].
  case_decide; [done|]. destruct (NFS3Util.split_sep r); done.
Qed.

(** A component without separator splits into itself. *)
Lemma split_sep_component c : has_sep c = false -> NFS3Util.split_sep c = [c].
Proof.
  induction c as [|a c IH]; simpl; [done|].
  intros [Ha Hc]%orb_false_iff. apply bool_decide_eq_false in Ha.
  rewrite decide_False by done. by rewrite (IH Hc).
Qed.

Lemma split_sep_app c r :
  has_sep c = false ->
  NFS3Util.split_sep (c +:+ String NFS3Util.sep r) = c :: NFS3Util.split_sep r.
Proof.
  induction c as [|a c IH]; simpl.
  - intros _. reflexivity.
  - intros [Ha Hc]%orb_false_iff. apply bool_decide_eq_false in Ha.
    rewrite decide_False by done. by rewrite (IH Hc).
Qed.

(** Splitting undoes joining. *)
Lemma split_sep_join comps :
  comps <> [] ->
  Forall (fun c => has_sep c = false) comps ->
  NFS3Util.split_sep (join_sep comps) = comps.
Proof.
  induction comps as [|c rest IH]; [done|]. intros _ Hall.
  apply Forall_cons in Hall as [Hc Hrest].
  destruct rest as [|c' rest'].
  - simpl. by apply split_sep_component.
  - change (join_sep (c :: c' :: rest'))
      with (c +:+ String NFS3Util.sep (join_sep (c' :: rest'))).
    rewrite split_sep_app by done. f_equal. by apply IH.
Qed.

(** Under [_MISMATCH_CMP_ALLOW], [status != const] is false only for the
    constant itself. *)
Lemma status_ne_false st c :
  transport_status st ->
  _MISMATCH_CMP_ALLOW (type_of c) = true ->
  status_ne st c = false <-> st = PEnum c.
Proof.
  intros Hst Hc. destruct st as [e| | |]; simpl in Hst; try done.
  - unfold status_ne, __ne__, __eq__. destruct e as [t v], c as [t' v']. simpl in *.
    case_decide as Ht; simpl.
    + subst t'. rewrite negb_false_iff, Z.eqb_eq. split; [by intros ->|].
      by intros [= ->].
    + rewrite Hst. simpl. split; [done|]. intros [= -> ->]. done.
  - unfold status_ne, __ne__, __eq__. rewrite Hc. simpl. done.
Qed.

Section resolve_facts.
Import NFS3Util.
Context {S : Type}.
Variable rpc_mnt : string -> S -> ONCRPCres MNTfields * S.
Variable rpc_lookup : LOOKUP3args -> S -> ONCRPCres LOOKUPfields * S.
Hypothesis rpc_mnt_wf : forall p s, wf_mnt_res (rpc_mnt p s).1.
Hypothesis rpc_lookup_wf : forall args s, wf_lookup_res (rpc_lookup args s).1.

Lemma nfs_fh3_new_fits h : Z.of_nat (length h) <= NFS3_FHSIZE -> nfs_fh3_new h = Ret h.
Proof.
  intros Hh. unfold nfs_fh3_new.
  destruct (NFS3_FHSIZE <? Z.of_nat (length h)) eqn:E; [|done].
  apply Z.ltb_lt in E. lia.
Qed.

(** The root handle, as the code and as the specification obtain it. *)
Lemma get_rootfh_MOUNT_root s :
  match MOUNT_root rpc_mnt s with
  | (Ret root, s1) =>
      get_rootfh_using_mnt rpc_mnt s = (Ret (Some root), s1)
      /\ Z.of_nat (length root) <= NFS3_FHSIZE
  | (Raise e, s1) =>
      get_rootfh_using_mnt rpc_mnt s = (Ret None, s1)
      /\ e = RuntimeError "cannot get root filehandle"
  end.
Proof.
  unfold MOUNT_root, get_rootfh_using_mnt.
  pose proof (rpc_mnt_wf "/" s) as [Hst Hok].
  destruct (rpc_mnt "/" s) as [res s1]. simpl in Hst, Hok.
  destruct (status_ne (status res) mountstat3_MNT3_OK) eqn:Hne.
  - assert (status res <> PEnum mountstat3_MNT3_OK) as Hneq.
    { intros Heq. apply (status_ne_false _ mountstat3_MNT3_OK Hst eq_refl) in Heq.
      congruence. }
    destruct (status res) as [[[] [| |]]| | |]; try done;
      destruct (body res) as [[[?|] ?]|]; done.
  - apply (status_ne_false _ mountstat3_MNT3_OK Hst eq_refl) in Hne.
    destruct (Hok Hne) as (fh & fl & Hb & Hlen). rewrite Hne, Hb. done.
Qed.

(** The arguments of the next LOOKUP carry the bytes of the handle that the
    last one returned, also when the variable [fh] holds [None] because that
    handle has length zero. *)
Lemma LOOKUP3args_new_handle fh h comp :
  fh = Some h \/ fh = get_handle h ->
  Z.of_nat (length h) <= NFS3_FHSIZE ->
  LOOKUP3args_new fh comp = Ret (mk_LOOKUP3args h comp).
Proof.
  intros Hfh Hlen. unfold LOOKUP3args_new.
  assert (fh = Some h \/ (fh = None /\ h = [])) as [->|[-> ->]].
  { destruct Hfh as [->| ->]; [by left|]. destruct h; [by right|by left]. }
  - by rewrite nfs_fh3_new_fits.
  - done.
Qed.

(** The loop follows the specification's fold on the bytes of the handles;
    what it returns is the last handle as [get_handle] gives it. *)
Lemma resolve_loop_fold comps : forall comp fh h resolved s,
  Forall (fun c => c <> EmptyString) (comp :: comps) ->
  fh = Some h \/ fh = get_handle h ->
  Z.of_nat (length h) <= NFS3_FHSIZE ->
  resolve_loop rpc_lookup (comp :: comps) fh resolved s
  = match fold_LOOKUP rpc_lookup (comp :: comps) h s with
    | (Ret h', s2) => (Ret (get_handle h'), s2)
    | (Raise e, s2) => (Raise e, s2)
    end.
Proof.
  induction comps as [|comp' comps IH]; intros comp fh h resolved s Hall Hfh Hlen;
    apply Forall_cons in Hall as [Hcomp Hall];
    (destruct comp as [|c comp]; [done|]);
    cbn [resolve_loop fold_LOOKUP]; unfold LOOKUP;
    rewrite (LOOKUP3args_new_handle fh h) by done;
    pose proof (rpc_lookup_wf (mk_LOOKUP3args h (String c comp)) s) as [Hst Hok];
    destruct (rpc_lookup _ s) as [res s1]; simpl in Hst, Hok;
    destruct (status_ne (status res) nfsstat3_NFS3_OK) eqn:Hne.
  - assert (status res <> PEnum nfsstat3_NFS3_OK) as Hneq.
    { intros Heq. apply (status_ne_false _ nfsstat3_NFS3_OK Hst eq_refl) in Heq.
      congruence. }
    destruct (status res) as [[[] [| |]]| | |]; try done;
      destruct (body res) as [[[?|] ? ?]|]; done.
  - apply (status_ne_false _ nfsstat3_NFS3_OK Hst eq_refl) in Hne.
    destruct (Hok Hne) as (h1 & oa & da & Hb & Hlen1). rewrite Hne, Hb. done.
  - assert (status res <> PEnum nfsstat3_NFS3_OK) as Hneq.
    { intros Heq. apply (status_ne_false _ nfsstat3_NFS3_OK Hst eq_refl) in Heq.
      congruence. }
    destruct (status res) as [[[] [| |]]| | |]; try done;
      destruct (body res) as [[[?|] ? ?]|]; done.
  - apply (status_ne_false _ nfsstat3_NFS3_OK Hst eq_refl) in Hne.
    destruct (Hok Hne) as (h1 & oa & da & Hb & Hlen1). rewrite Hne, Hb.
    cbn [aobject]. apply IH; [done|by right|done].
Qed.

(** An empty component stops the walk with an exception. *)
Lemma resolve_loop_empty_component comps : forall fh resolved s,
  EmptyString ∈ comps -> raises (resolve_loop rpc_lookup comps fh resolved s).1.
Proof.
  induction comps as [|comp comps IH]; intros fh resolved s Hin.
  - by apply elem_of_nil in Hin.
  - destruct comp as [|c comp]; [done|].
    apply elem_of_cons in Hin as [Heq|Hin]; [done|].
    cbn [resolve_loop].
    destruct (LOOKUP3args_new fh (String c comp)) as [args|e]; [|done].
    destruct (rpc_lookup args s) as [res s1].
    destruct (status_ne _ _); [done|].
    destruct (body res) as [f|]; [|done].
    destruct (aobject f) as [h|]; [|done].
    by apply IH.
Qed.
Lemma join_sep_empty comps :
  join_sep comps = EmptyString -> comps = [] \/ comps = [EmptyString].
Proof.
  destruct comps as [|c [|c' rest]]; simpl.
  - by left.
  - intros ->. by right.
  - destruct c; discriminate.
Qed.

End resolve_facts.

Lemma tree_mnt_wf p s : wf_mnt_res (tree_mnt p s).1.
Proof.
  split; [reflexivity|]. intros _. eexists _, _. split; [reflexivity|].
  vm_compute. discriminate.
Qed.

Lemma tree_lookup_wf args s : wf_lookup_res (tree_lookup args s).1.
Proof.
  unfold tree_lookup. repeat case_bool_decide; (split; [reflexivity|]); simpl.
  - intros _. eexists _, _, _. split; [reflexivity|]. vm_compute. discriminate.
  - intros _. eexists _, _, _. split; [reflexivity|]. vm_compute. discriminate.
  - discriminate.
Qed.


Lemma hollow_lookup_wf args s : wf_lookup_res (hollow_lookup args s).1.
Proof.
  split; [reflexivity|]. intros _. eexists _, _, _. split; [reflexivity|].
  vm_compute. discriminate.
Qed.


(** On the small export: "/a/b" is LOOKUP(LOOKUP(root, "a"), "b"), "/" is the
    root, and "/a//b" and "/a/" are refused. *)
Example resolve_a_b :
  NFS3Util.resolve_path tree_mnt tree_lookup "/a/b" 0%nat = (Ret (Some [x0b]), 3%nat)
  /\ NFS3Util.resolve_path tree_mnt tree_lookup "/" 0%nat = (Ret (Some [x01]), 1%nat)
  /\ NFS3Util.resolve_path tree_mnt tree_lookup "/a//b" 0%nat
     = (Raise (ValueError "invalid path"), 2%nat)
  /\ NFS3Util.resolve_path tree_mnt tree_lookup "/a/" 0%nat
     = (Raise (ValueError "invalid path"), 2%nat)
  /\ NFS3Util.resolve_path tree_mnt tree_lookup "/x" 0%nat
     = (Raise (RuntimeError "cannot resolve path"), 2%nat).
Proof. repeat split; reflexivity. Qed.

(** * Further properties *)

Import Codec.

(** ** Bytes and integers *)

Lemma to_N_byte_of z : Z.of_N (Byte.to_N (RawTCPClient.byte_of z)) = z mod 256.
Proof.
  unfold RawTCPClient.byte_of.
  pose proof (Z.mod_pos_bound z 256 ltac:(lia)) as Hm.
  destruct (Byte.of_N (Z.to_N (z mod 256))) as [b|] eqn:Hb; simpl.
  - apply Byte.to_of_N in Hb. rewrite Hb. lia.
  - apply Byte.of_N_None_iff in Hb. lia.
Qed.

Lemma be_uint_snoc l b : be_uint (l ++ [b]) = be_uint l * 256 + Z.of_N (Byte.to_N b).
Proof. unfold be_uint. by rewrite fold_left_app. Qed.

Lemma length_be_bytes w v : length (RawTCPClient.be_bytes w v) = w.
Proof.
  revert v. induction w as [|w IH]; intros v; simpl; [done|].
  rewrite length_app, IH. simpl. lia.
Qed.

Lemma be_uint_be_bytes w v :
  be_uint (RawTCPClient.be_bytes w v) = v mod 256 ^ Z.of_nat w.
Proof.
  revert v. induction w as [|w IH]; intros v.
  - simpl. by rewrite Z.mod_1_r.
  - cbn [RawTCPClient.be_bytes]. rewrite be_uint_snoc, IH, to_N_byte_of.
    rewrite Nat2Z.inj_succ, Z.pow_succ_r by lia.
    rewrite (Z.rem_mul_r v 256 (256 ^ Z.of_nat w)) by lia. lia.
Qed.

Lemma to_signed_mod v :
  - 2 ^ 31 <= v < 2 ^ 31 -> to_signed 4 (v mod 2 ^ 32) = v.
Proof.
  intros Hv. unfold to_signed.
  change (8 * 4 - 1) with 31. change (8 * 4) with 32.
  destruct (Z_lt_dec v 0) as [Hneg|Hpos].
  - replace (v mod 2 ^ 32) with (v + 2 ^ 32).
    + destruct (v + 2 ^ 32 <? 2 ^ 31) eqn:E; [apply Z.ltb_lt in E; lia|lia].
    + symmetry. rewrite <- (Z.mod_add v 1 (2 ^ 32)) by lia.
      apply Z.mod_small. lia.
  - rewrite Z.mod_small by lia.
    destruct (v <? 2 ^ 31) eqn:E; [done|apply Z.ltb_ge in E; lia].
Qed.

(** ** Reading at a position *)

Lemma read_exact_at pre d rest :
  read_exact (Z.of_nat (length d)) (stream_at pre (d ++ rest))
  = Ret (d, stream_at (pre ++ d) rest).
Proof.
  unfold read_exact, stream_read, stream_at, unread. simpl.
  destruct (Z.of_nat (length d) <? 0) eqn:E; [apply Z.ltb_lt in E; lia|].
  rewrite Nat2Z.id, drop_app_length, take_app_length.
  rewrite decide_True by done.
  by rewrite length_app, app_assoc.
Qed.

Lemma read_exact_cases count s :
  read_exact count s =
  if decide (0 <= count <= Z.of_nat (length (unread s)))
  then Ret (take (Z.to_nat count) (unread s),
            mk_stream (getvalue s) (tell s + Z.to_nat count))
  else Raise (ShortRead count (Z.of_nat (length (unread s)))).
Proof.
  unfold read_exact, stream_read.
  destruct (count <? 0) eqn:Hneg; cbv beta iota zeta.
  - apply Z.ltb_lt in Hneg.
    rewrite decide_False by lia. case_decide; [lia|done].
  - apply Z.ltb_ge in Hneg. rewrite length_take.
    case_decide as Hfit.
    + rewrite decide_True by lia. do 2 f_equal. f_equal. lia.
    + rewrite decide_False by lia. f_equal. f_equal. lia.
Qed.

(** [read_exact] returns exactly the next [count] bytes and advances by
    [count], or raises [ShortRead] with the count asked and the count
    available; nothing in between. *)
Theorem read_exact_exact_or_ShortRead count s :
  read_exact count s =
  if decide (0 <= count <= Z.of_nat (length (unread s)))
  then Ret (take (Z.to_nat count) (unread s),
            mk_stream (getvalue s) (tell s + Z.to_nat count))
  else Raise (ShortRead count (Z.of_nat (length (unread s)))).
Proof. apply read_exact_cases. Qed.

Lemma unread_advance buf p n :
  unread (mk_stream buf (p + n)) = drop n (unread (mk_stream buf p)).
Proof. unfold unread. simpl. by rewrite drop_drop. Qed.

Lemma read_then_align_cases count s :
  let len := Z.of_nat (length (unread s)) in
  let pad := xdr_pad count in
  read_then_align count 4 s =
  if decide (0 <= count <= len) then
    if decide (count + pad <= len)
    then Ret (take (Z.to_nat count) (unread s),
              mk_stream (getvalue s) (tell s + Z.to_nat (count + pad)))
    else Raise (ShortRead pad (len - count))
  else Raise (ShortRead count len).
Proof.
  destruct s as [buf p]. intros len pad.
  unfold read_then_align, rbind. rewrite read_exact_cases.
  fold len. case_decide as Hfit; [|done].
  pose proof (Z.mod_pos_bound count 4 ltac:(lia)) as Hm.
  destruct (count mod 4 =? 0) eqn:Hx.
  - apply Z.eqb_eq in Hx. unfold rret.
    assert (pad = 0) as -> by (unfold pad, xdr_pad; by rewrite Hx).
    rewrite decide_True by lia. by rewrite Z.add_0_r.
  - apply Z.eqb_neq in Hx.
    assert (pad = 4 - count mod 4) as Hpad
      by (unfold pad, xdr_pad; rewrite (Z.mod_small (4 - count mod 4)); lia).
    rewrite <- Hpad. rewrite read_exact_cases.
    rewrite unread_advance, length_drop. simpl.
    case_decide as Hfit2.
    + rewrite decide_True by (fold len; lia). unfold rret. simpl.
      do 2 f_equal. f_equal. lia.
    + rewrite decide_False by (fold len; lia). f_equal. f_equal.
      fold len. lia.
Qed.

(** [read_then_align] with alignment 4 returns the [count] bytes and
    advances over them and over the pad that reaches the next multiple of
    four; it raises [ShortRead] when the bytes or the pad are not all there. *)
Theorem read_then_align_consumes_field_and_pad count s :
  let len := Z.of_nat (length (unread s)) in
  let pad := xdr_pad count in
  (0 <= pad <= 3 /\ (count + pad) mod 4 = 0)
  /\ read_then_align count 4 s =
     if decide (0 <= count <= len) then
       if decide (count + pad <= len)
       then Ret (take (Z.to_nat count) (unread s),
                 mk_stream (getvalue s) (tell s + Z.to_nat (count + pad)))
       else Raise (ShortRead pad (len - count))
     else Raise (ShortRead count len).
Proof. split; [apply xdr_pad_range|apply read_then_align_cases]. Qed.

(** ** Encoding and decoding *)

Lemma unread_stream_at pre rest : unread (stream_at pre rest) = rest.
Proof. unfold unread, stream_at. simpl. by rewrite drop_app_length. Qed.

Lemma stream_at_app pre d rest : stream_at pre (d ++ rest) = mk_stream ((pre ++ d) ++ rest) (length pre).
Proof. unfold stream_at. by rewrite app_assoc. Qed.

(** The zeros that [write_then_align] and [vararray.write] append. *)
Lemma length_pad_zeros len :
  Z.of_nat (length (if len mod 4 =? 0 then []
                    else replicate (Z.to_nat (4 - len mod 4)) x00))
  = xdr_pad len.
Proof.
  unfold xdr_pad. pose proof (Z.mod_pos_bound len 4 ltac:(lia)) as Hm.
  destruct (len mod 4 =? 0) eqn:Hx.
  - apply Z.eqb_eq in Hx. by rewrite Hx.
  - apply Z.eqb_neq in Hx. rewrite length_replicate.
    rewrite (Z.mod_small (4 - len mod 4)) by lia. lia.
Qed.

Lemma read_then_align_at pre d padb rest :
  Z.of_nat (length padb) = xdr_pad (Z.of_nat (length d)) ->
  read_then_align (Z.of_nat (length d)) 4 (stream_at pre (d ++ padb ++ rest))
  = Ret (d, stream_at (pre ++ d ++ padb) rest).
Proof.
  intros Hpad. rewrite read_then_align_cases, unread_stream_at.
  rewrite !length_app. rewrite decide_True by lia. rewrite decide_True by lia.
  rewrite Nat2Z.id, take_app_length. unfold stream_at. simpl.
  do 2 f_equal. f_equal.
  - by rewrite <- !app_assoc.
  - rewrite !length_app. lia.
Qed.

Lemma read_uint32_at pre v rest :
  0 <= v < 2 ^ 32 ->
  read_uint32 (stream_at pre (RawTCPClient.be_bytes 4 v ++ rest))
  = Ret (v, stream_at (pre ++ RawTCPClient.be_bytes 4 v) rest).
Proof.
  intros Hv. pose proof (read_exact_at pre (RawTCPClient.be_bytes 4 v) rest) as H.
  rewrite length_be_bytes in H. change (Z.of_nat 4) with 4 in H.
  unfold read_uint32, rbind, rret. rewrite H, be_uint_be_bytes.
  change (256 ^ Z.of_nat 4) with (2 ^ 32). by rewrite Z.mod_small.
Qed.

(** [write_then_align] with alignment 4 appends to the data the zeros that
    bring its length to the next multiple of four (none, one, two or
    three), and the result has a length that is a multiple of four. *)
Theorem write_then_align_pads_with_zeros data :
  let len := Z.of_nat (length data) in
  RawTCPClient.write_then_align data 4 = data ++ replicate (Z.to_nat (xdr_pad len)) x00
  /\ 0 <= xdr_pad len <= 3
  /\ Z.of_nat (length (RawTCPClient.write_then_align data 4)) mod 4 = 0.
Proof.
  intros len. pose proof (xdr_pad_range len) as [Hr Hm].
  assert (RawTCPClient.write_then_align data 4
          = data ++ replicate (Z.to_nat (xdr_pad len)) x00) as Heq.
  { unfold RawTCPClient.write_then_align. fold len.
    pose proof (Z.mod_pos_bound len 4 ltac:(lia)) as Hb. unfold xdr_pad.
    destruct (len mod 4 =? 0) eqn:Hx.
    - apply Z.eqb_eq in Hx. rewrite Hx. simpl. by rewrite app_nil_r.
    - apply Z.eqb_neq in Hx. by rewrite (Z.mod_small (4 - len mod 4)) by lia. }
  split; [exact Heq|]. split; [exact Hr|].
  rewrite Heq, length_app, length_replicate.
  replace (Z.of_nat (length data + Z.to_nat (xdr_pad len))) with (len + xdr_pad len)
    by (subst len; lia).
  exact Hm.
Qed.

Lemma vararray_write_inv buf out :
  vararray_write buf = Ret out ->
  Z.of_nat (length buf) < 2 ^ 32
  /\ out = RawTCPClient.be_bytes 4 (Z.of_nat (length buf)) ++ buf
           ++ (if Z.of_nat (length buf) mod 4 =? 0 then []
               else replicate (Z.to_nat (4 - Z.of_nat (length buf) mod 4)) x00).
Proof.
  unfold vararray_write, RawTCPClient.pack_I.
  destruct (_ && _) eqn:Hr; simpl; [|discriminate].
  apply andb_true_iff in Hr as [_ Hr]. apply Z.ltb_lt in Hr.
  intros [= <-]. done.
Qed.

Lemma vararray_read_write_at buf out pre rest :
  vararray_write buf = Ret out ->
  vararray_read (stream_at pre (out ++ rest)) = Ret (buf, stream_at (pre ++ out) rest).
Proof.
  intros [Hlen ->]%vararray_write_inv.
  unfold vararray_read, rbind. rewrite <- !app_assoc.
  rewrite read_uint32_at by lia.
  rewrite read_then_align_at by apply length_pad_zeros.
  by rewrite <- !app_assoc.
Qed.

(** What [vararray.write] emits, [vararray.read] reads back: wherever the
    encoding stands in a stream, the decoder returns the same bytes and
    stops right after the encoding, whose length is a multiple of four. *)
Theorem vararray_read_inverts_write buf out pre rest :
  vararray_write buf = Ret out ->
  vararray_read (stream_at pre (out ++ rest)) = Ret (buf, stream_at (pre ++ out) rest)
  /\ Z.of_nat (length out) mod 4 = 0.
Proof.
  intros Hw. split; [by apply vararray_read_write_at|].
  apply vararray_write_inv in Hw as [_ ->].
  rewrite !length_app, length_be_bytes.
  pose proof (length_pad_zeros (Z.of_nat (length buf))) as Hp.
  pose proof (xdr_pad_range (Z.of_nat (length buf))) as [_ Hm].
  rewrite !Nat2Z.inj_add, Hp.
  replace (Z.of_nat 4 + (Z.of_nat (length buf) + xdr_pad (Z.of_nat (length buf))))
    with (Z.of_nat (length buf) + xdr_pad (Z.of_nat (length buf)) + 1 * 4) by lia.
  by rewrite Z.mod_add by lia.
Qed.

Lemma vararray_read_inverts_write_witness :
  vararray_write [x68; x69; x21] = Ret [x00; x00; x00; x03; x68; x69; x21; x00]
  /\ vararray_read (stream_at [xff] ([x00; x00; x00; x03; x68; x69; x21; x00] ++ [xee]))
     = Ret ([x68; x69; x21],
            stream_at ([xff] ++ [x00; x00; x00; x03; x68; x69; x21; x00]) [xee])
  /\ Z.of_nat (length [x00; x00; x00; x03; x68; x69; x21; x00]) mod 4 = 0.
Proof.
  assert (H : vararray_write [x68; x69; x21]
              = Ret [x00; x00; x00; x03; x68; x69; x21; x00]) by reflexivity.
  split; [exact H|].
  exact (vararray_read_inverts_write [x68; x69; x21] _ [xff] [xee] H).
Defined.

Lemma pack_I_inv v out :
  RawTCPClient.pack_I v = Ret out -> 0 <= v < 2 ^ 32 /\ out = RawTCPClient.be_bytes 4 v.
Proof.
  unfold RawTCPClient.pack_I. destruct (_ && _) eqn:Hr; [|discriminate].
  apply andb_true_iff in Hr as [H0 H1]. apply Z.leb_le in H0. apply Z.ltb_lt in H1.
  intros [= <-]. done.
Qed.

Lemma pack_i_inv v out :
  RawTCPClient.pack_i v = Ret out ->
  - 2 ^ 31 <= v < 2 ^ 31 /\ out = RawTCPClient.be_bytes 4 (v mod 2 ^ 32).
Proof.
  unfold RawTCPClient.pack_i. destruct (_ && _) eqn:Hr; [|discriminate].
  apply andb_true_iff in Hr as [H0 H1]. apply Z.leb_le in H0. apply Z.ltb_lt in H1.
  intros [= <-]. done.
Qed.

(** [write_uint32] and [read_uint32] are inverse on the values that
    [write_uint32] accepts (0 to 2^32 - 1), wherever the word stands in a
    stream. *)
Theorem read_uint32_inverts_write v out pre rest :
  write_uint32 v = Ret out ->
  read_uint32 (stream_at pre (out ++ rest)) = Ret (v, stream_at (pre ++ out) rest).
Proof. intros [Hv ->]%pack_I_inv. by apply read_uint32_at. Qed.

Lemma read_uint32_inverts_write_witness :
  write_uint32 4294967295 = Ret [xff; xff; xff; xff]
  /\ read_uint32 (stream_at [x01] ([xff; xff; xff; xff] ++ [x02]))
     = Ret (4294967295, stream_at ([x01] ++ [xff; xff; xff; xff]) [x02]).
Proof.
  assert (H : write_uint32 4294967295 = Ret [xff; xff; xff; xff]) by reflexivity.
  split; [exact H|].
  exact (read_uint32_inverts_write 4294967295 _ [x01] [x02] H).
Defined.

(** An enum written by [annotated_enum.write] is read back by [read_enum]
    with the same value, negative values included: enums travel as signed
    words. *)
Theorem read_enum_inverts_annotated_enum_write e out pre rest :
  annotated_enum_write e = Ret out ->
  read_enum (stream_at pre (out ++ rest)) = Ret (_val e, stream_at (pre ++ out) rest).
Proof.
  intros [Hv ->]%pack_i_inv.
  pose proof (read_exact_at pre (RawTCPClient.be_bytes 4 (_val e mod 2 ^ 32)) rest) as H.
  rewrite length_be_bytes in H. change (Z.of_nat 4) with 4 in H.
  unfold read_enum, rbind, rret. rewrite H, be_uint_be_bytes.
  change (256 ^ Z.of_nat 4) with (2 ^ 32). rewrite Z.mod_mod by lia.
  by rewrite to_signed_mod.
Qed.

Lemma read_enum_inverts_annotated_enum_write_witness :
  annotated_enum_write (mk_enum nfsstat3 (-1)) = Ret [xff; xff; xff; xff]
  /\ read_enum (stream_at [] ([xff; xff; xff; xff] ++ []))
     = Ret (-1, stream_at ([] ++ [xff; xff; xff; xff]) []).
Proof.
  assert (H : annotated_enum_write (mk_enum nfsstat3 (-1)) = Ret [xff; xff; xff; xff])
    by reflexivity.
  split; [exact H|].
  exact (read_enum_inverts_annotated_enum_write (mk_enum nfsstat3 (-1)) _ [] [] H).
Defined.

(** [nfs_fh3.read] never returns a handle longer than [NFS3_FHSIZE] bytes:
    a declared length above 64 raises [ProtocolError] before any byte of
    the handle is read. *)
Theorem nfs_fh3_read_at_most_64 s :
  match nfs_fh3_read s with
  | Ret (h, _) => Z.of_nat (length h) <= NFS3_FHSIZE
  | Raise _ => True
  end
  /\ forall c s1, read_uint32 s = Ret (c, s1) -> NFS3_FHSIZE < c ->
       nfs_fh3_read s = Raise (ProtocolError "count exceeds limit").
Proof.
  unfold nfs_fh3_read, vararray_limited_read, rbind. split.
  - destruct (read_uint32 s) as [[c s1]|]; [|done].
    destruct (NFS3_FHSIZE <? c) eqn:Hc; [done|]. apply Z.ltb_ge in Hc.
    destruct (read_then_align c 4 s1) as [[h s2]|] eqn:Hr; [|done].
    apply read_then_align_consumes in Hr as (_ & _ & Hl). lia.
  - intros c s1 -> Hc. apply Z.ltb_lt in Hc. by rewrite Hc.
Qed.

(** [fattr3.read] takes exactly 84 bytes: with 84 bytes or more ahead it
    returns attributes and stops 84 bytes further, with fewer it raises
    [ShortRead] with 84 and the number of bytes left. *)
Theorem fattr3_read_takes_84_bytes s :
  let len := Z.of_nat (length (unread s)) in
  if decide (84 <= len)
  then exists a, fattr3_read s = Ret (a, mk_stream (getvalue s) (tell s + 84))
  else fattr3_read s = Raise (ShortRead 84 len).
Proof.
  intros len. unfold fattr3_read, rbind. rewrite read_exact_cases.
  change fattr3_RSZ with 84. fold len.
  case_decide as Hfit.
  - rewrite decide_True by lia.
    assert (length (take (Z.to_nat 84) (unread s)) = 84%nat) as Hl
      by (rewrite length_take; subst len; lia).
    unfold unpack. rewrite decide_True by (rewrite Hl; reflexivity).
    cbn [fattr3_RFMT unpack_fields]. eexists. reflexivity.
  - rewrite decide_False by lia. done.
Qed.

(** [fixedarray.write] (the verifiers [cookieverf3], [createverf3],
    [writeverf3]) goes through [vararray.write] and so puts the length word
    8 before the eight bytes, twelve bytes in all, while [fixedarray.read]
    takes eight bytes and no length word: reading back what was written
    returns the length word followed by the first four bytes of the
    verifier, and leaves its last four bytes unread. *)
Theorem fixedarray_write_prefixes_length v pre rest :
  length v = 8%nat ->
  fixedarray_write NFS3_COOKIEVERFSIZE v = Ret ([x00; x00; x00; x08] ++ v)
  /\ fixedarray_read NFS3_COOKIEVERFSIZE
       (stream_at pre (([x00; x00; x00; x08] ++ v) ++ rest))
     = Ret ([x00; x00; x00; x08] ++ take 4 v,
            stream_at (pre ++ [x00; x00; x00; x08] ++ take 4 v) (drop 4 v ++ rest)).
Proof.
  intros Hl. split.
  - unfold fixedarray_write, NFS3_COOKIEVERFSIZE.
    rewrite decide_True by (rewrite Hl; reflexivity).
    unfold vararray_write. rewrite Hl. simpl. by rewrite app_nil_r.
  - unfold fixedarray_read, NFS3_COOKIEVERFSIZE.
    set (d := [x00; x00; x00; x08] ++ take 4 v).
    assert (length d = 8%nat) as Hd
      by (unfold d; rewrite length_app, length_take, Hl; reflexivity).
    assert (([x00; x00; x00; x08] ++ v) ++ rest = d ++ [] ++ drop 4 v ++ rest) as ->.
    { unfold d. rewrite <- (take_drop 4 v) at 1. by rewrite <- !app_assoc. }
    pose proof (read_then_align_at pre d [] (drop 4 v ++ rest)) as H.
    rewrite Hd in H. change (Z.of_nat 8) with 8 in H.
    rewrite H by reflexivity. by rewrite app_nil_r.
Qed.

Lemma fixedarray_write_prefixes_length_witness :
  length [x01; x02; x03; x04; x05; x06; x07; x09] = 8%nat
  /\ fixedarray_write NFS3_COOKIEVERFSIZE [x01; x02; x03; x04; x05; x06; x07; x09]
     = Ret ([x00; x00; x00; x08] ++ [x01; x02; x03; x04; x05; x06; x07; x09])
  /\ fixedarray_read NFS3_COOKIEVERFSIZE
       (stream_at [] (([x00; x00; x00; x08] ++ [x01; x02; x03; x04; x05; x06; x07; x09])
                      ++ []))
     = Ret ([x00; x00; x00; x08] ++ take 4 [x01; x02; x03; x04; x05; x06; x07; x09],
            stream_at ([] ++ [x00; x00; x00; x08]
                          ++ take 4 [x01; x02; x03; x04; x05; x06; x07; x09])
                      (drop 4 [x01; x02; x03; x04; x05; x06; x07; x09] ++ [])).
Proof.
  assert (H : length [x01; x02; x03; x04; x05; x06; x07; x09] = 8%nat) by reflexivity.
  split; [exact H|].
  exact (fixedarray_write_prefixes_length [x01; x02; x03; x04; x05; x06; x07; x09] [] [] H).
Defined.

(** [nfstime3.read] reads back the seconds and nanoseconds that
    [nfstime3.write] wrote, eight bytes in all. *)
Theorem nfstime3_read_inverts_write t out pre rest :
  nfstime3_write t = Ret out ->
  nfstime3_read (stream_at pre (out ++ rest)) = Ret (t, stream_at (pre ++ out) rest)
  /\ length out = 8%nat.
Proof.
  destruct t as [sec nsec]. unfold nfstime3_write. simpl.
  destruct (RawTCPClient.pack_I sec) as [a|] eqn:Ha; [|discriminate].
  destruct (RawTCPClient.pack_I nsec) as [b|] eqn:Hb; [|discriminate].
  simpl. intros [= <-].
  apply pack_I_inv in Ha as [Hs ->]. apply pack_I_inv in Hb as [Hn ->].
  assert (length (RawTCPClient.be_bytes 4 sec ++ RawTCPClient.be_bytes 4 nsec) = 8%nat)
    as Hl by (rewrite length_app, !length_be_bytes; reflexivity).
  split; [|exact Hl].
  pose proof (read_exact_at pre
                (RawTCPClient.be_bytes 4 sec ++ RawTCPClient.be_bytes 4 nsec) rest) as H.
  rewrite Hl in H. change (Z.of_nat 8) with 8 in H.
  unfold nfstime3_read, rbind. rewrite H.
  unfold unpack. rewrite decide_True by (rewrite Hl; reflexivity).
  cbn [unpack_fields fmt_size].
  rewrite take_app_length' by (by rewrite length_be_bytes).
  rewrite drop_app_length' by (by rewrite length_be_bytes).
  rewrite firstn_all2 by (rewrite length_be_bytes; lia).
  rewrite !be_uint_be_bytes. change (256 ^ Z.of_nat 4) with (2 ^ 32).
  rewrite !Z.mod_small by lia. reflexivity.
Qed.

Lemma nfstime3_read_inverts_write_witness :
  nfstime3_write (mk_time 1 500) = Ret [x00; x00; x00; x01; x00; x00; x01; xf4]
  /\ nfstime3_read (stream_at [] ([x00; x00; x00; x01; x00; x00; x01; xf4] ++ []))
     = Ret (mk_time 1 500, stream_at ([] ++ [x00; x00; x00; x01; x00; x00; x01; xf4]) [])
  /\ length [x00; x00; x00; x01; x00; x00; x01; xf4] = 8%nat.
Proof.
  assert (H : nfstime3_write (mk_time 1 500)
              = Ret [x00; x00; x00; x01; x00; x00; x01; xf4]) by reflexivity.
  split; [exact H|].
  exact (nfstime3_read_inverts_write (mk_time 1 500) _ [] [] H).
Defined.

Lemma nfs_fh3_read_write_at h out pre rest :
  vararray_write h = Ret out ->
  Z.of_nat (length h) <= NFS3_FHSIZE ->
  nfs_fh3_read (stream_at pre (out ++ rest)) = Ret (h, stream_at (pre ++ out) rest).
Proof.
  intros [Hlen ->]%vararray_write_inv Hfit.
  unfold nfs_fh3_read, vararray_limited_read, rbind. rewrite <- !app_assoc.
  rewrite read_uint32_at by lia.
  destruct (NFS3_FHSIZE <? Z.of_nat (length h)) eqn:E; [apply Z.ltb_lt in E; lia|].
  rewrite read_then_align_at by apply length_pad_zeros.
  by rewrite <- !app_assoc.
Qed.

(** A [diropargs3] that the constructor accepts (handle of at most 64
    bytes) is read back by [diropargs3.read] from what [diropargs3.write]
    wrote: the same handle and the same name. *)
Theorem diropargs3_read_inverts_write fh aname d out pre rest :
  diropargs3_new fh aname = Ret d ->
  diropargs3_write d = Ret out ->
  diropargs3_read (stream_at pre (out ++ rest)) = Ret (d, stream_at (pre ++ out) rest).
Proof.
  unfold diropargs3_new, NFS3Util.nfs_fh3_new.
  destruct (NFS3_FHSIZE <? Z.of_nat (length fh)) eqn:Hfit; [discriminate|].
  apply Z.ltb_ge in Hfit. simpl. intros [= <-].
  unfold diropargs3_write. simpl.
  destruct (vararray_write fh) as [a|] eqn:Ha; [|discriminate].
  destruct (vararray_write aname) as [b|] eqn:Hb; [|discriminate].
  simpl. intros [= <-].
  unfold diropargs3_read, rbind. rewrite <- app_assoc.
  rewrite (nfs_fh3_read_write_at fh a pre (b ++ rest) Ha Hfit).
  rewrite (vararray_read_write_at aname b (pre ++ a) rest Hb).
  unfold diropargs3_new, NFS3Util.nfs_fh3_new.
  destruct (NFS3_FHSIZE <? Z.of_nat (length fh)) eqn:E; [apply Z.ltb_lt in E; lia|].
  simpl. unfold rret. by rewrite <- app_assoc.
Qed.

Lemma diropargs3_read_inverts_write_witness :
  diropargs3_new [x01; x02] [x61] = Ret (mk_dirop [x01; x02] [x61])
  /\ diropargs3_write (mk_dirop [x01; x02] [x61])
     = Ret [x00; x00; x00; x02; x01; x02; x00; x00; x00; x00; x00; x01; x61; x00; x00; x00]
  /\ diropargs3_read
       (stream_at [] ([x00; x00; x00; x02; x01; x02; x00; x00;
                       x00; x00; x00; x01; x61; x00; x00; x00] ++ []))
     = Ret (mk_dirop [x01; x02] [x61],
            stream_at ([] ++ [x00; x00; x00; x02; x01; x02; x00; x00;
                              x00; x00; x00; x01; x61; x00; x00; x00]) []).
Proof.
  assert (H1 : diropargs3_new [x01; x02] [x61] = Ret (mk_dirop [x01; x02] [x61]))
    by reflexivity.
  assert (H2 : diropargs3_write (mk_dirop [x01; x02] [x61])
               = Ret [x00; x00; x00; x02; x01; x02; x00; x00;
                      x00; x00; x00; x01; x61; x00; x00; x00]) by reflexivity.
  split; [exact H1|]. split; [exact H2|].
  exact (diropargs3_read_inverts_write [x01; x02] [x61] _ _ [] [] H1 H2).
Defined.

(** ** The transport: connection, record marking *)

Import RawTCPClient Framing.

Lemma reconnect_cases w r w' :
  reconnect w = Some (r, w') ->
  _ever_tried_reconnect (cli w') = true
  /\ _lastxid w' = _lastxid w
  /\ (forall k, sock (cli w) = Some k -> In (Closed k) (events w'))
  /\ match r with
     | Ret _ =>
         need_reconnect (cli w') = false /\ sock (cli w') = Some (nsock w)
         /\ cred (cli w') = None /\ verf (cli w') = None
         /\ In (Connected (nsock w)) (events w')
     | Raise _ =>
         need_reconnect (cli w') = need_reconnect (cli w)
         /\ cred (cli w') = cred (cli w) /\ verf (cli w') = verf (cli w)
     end.
Proof.
  destruct w as [[sk et nr cr vf] lx [cs ss rs] ns evs].
  unfold reconnect, close, mbind, get_cli, next_connect, emit, put_cli, modify_cli,
    fresh_sock, mret, mraise; simpl.
  destruct sk as [k0|]; simpl; destruct cs as [|c cs']; simpl; try discriminate;
    destruct c; simpl; intros [= <- <-]; simpl;
    repeat split; try done; try (intros k [= <-]); rewrite ?in_app_iff; simpl; auto.
Qed.

(** [reconnect] closes the socket the client had, if any, and always leaves
    [_ever_tried_reconnect] set.  When it returns, the client has a new
    connected socket, no cached credential or verifier, and
    [need_reconnect] is cleared; when it raises, [need_reconnect], the
    credential and the verifier are as they were.  It gives an outcome
    whenever the network answers the connection attempt. *)
Theorem reconnect_returns_connected_or_raises_unchanged w :
  connects (net w) <> [] ->
  exists r w', reconnect w = Some (r, w')
  /\ _ever_tried_reconnect (cli w') = true
  /\ (forall k, sock (cli w) = Some k -> In (Closed k) (events w'))
  /\ match r with
     | Ret _ =>
         need_reconnect (cli w') = false /\ sock (cli w') = Some (nsock w)
         /\ cred (cli w') = None /\ verf (cli w') = None
         /\ In (Connected (nsock w)) (events w')
     | Raise _ =>
         need_reconnect (cli w') = need_reconnect (cli w)
         /\ cred (cli w') = cred (cli w) /\ verf (cli w') = verf (cli w)
     end.
Proof.
  intros Hc.
  assert (exists r w', reconnect w = Some (r, w')) as (r & w' & H).
  { destruct w as [[sk et nr cr vf] lx [cs ss rs] ns evs]. simpl in Hc.
    destruct cs as [|c cs']; [done|].
    unfold reconnect, close, mbind, get_cli, next_connect, emit, put_cli, modify_cli,
      fresh_sock, mret, mraise; simpl.
    destruct sk; simpl; destruct c; simpl; eauto. }
  exists r, w'. split; [exact H|].
  destruct (reconnect_cases _ _ _ H) as (H1 & _ & H3 & H4). auto.
Qed.

Lemma reconnect_returns_connected_or_raises_unchanged_witness :
  connects (net (timeout_then_reply)) <> []
  /\ exists r w', reconnect (timeout_then_reply) = Some (r, w')
  /\ _ever_tried_reconnect (cli w') = true
  /\ (forall k, sock (cli (timeout_then_reply)) = Some k -> In (Closed k) (events w'))
  /\ match r with
     | Ret _ =>
         need_reconnect (cli w') = false /\ sock (cli w') = Some (nsock (timeout_then_reply))
         /\ cred (cli w') = None /\ verf (cli w') = None
         /\ In (Connected (nsock (timeout_then_reply))) (events w')
     | Raise _ =>
         need_reconnect (cli w') = need_reconnect (cli (timeout_then_reply))
         /\ cred (cli w') = cred (cli (timeout_then_reply))
         /\ verf (cli w') = verf (cli (timeout_then_reply))
     end.
Proof.
  assert (H : connects (net (timeout_then_reply)) <> []) by (vm_compute; discriminate).
  split; [exact H|].
  exact (reconnect_returns_connected_or_raises_unchanged (timeout_then_reply) H).
Defined.

Lemma land_pow2_small a n : 0 <= n -> 0 <= a < 2 ^ n -> Z.land a (2 ^ n) = 0.
Proof.
  intros Hn Ha. apply Z.bits_inj'. intros i Hi.
  rewrite Z.land_spec, Z.bits_0, Z.pow2_bits_eqb by lia.
  destruct (Z.eqb_spec n i) as [<-|]; [|by rewrite andb_false_r].
  rewrite andb_true_r.
  destruct (Z.eq_dec a 0) as [->|]; [apply Z.bits_0|].
  apply Z.bits_above_log2; [lia|]. apply Z.log2_lt_pow2; lia.
Qed.

Lemma lor_top_bit a : 0 <= a < 2 ^ 31 -> Z.lor a 0x80000000 = a + 2 ^ 31.
Proof.
  intros Ha. change 0x80000000 with (2 ^ 31).
  pose proof (land_pow2_small a 31 ltac:(lia) Ha) as H0.
  rewrite <- Z.lxor_lor by exact H0. symmetry. by apply Z.add_nocarry_lxor.
Qed.

Lemma top_bit_set a : 0 <= a < 2 ^ 31 -> Z.land (a + 2 ^ 31) 0x80000000 = 2 ^ 31.
Proof.
  intros Ha. rewrite <- lor_top_bit by done. change 0x80000000 with (2 ^ 31).
  rewrite Z.land_lor_distr_l, land_pow2_small, Z.land_diag by lia. reflexivity.
Qed.

Lemma low_bits a b : 0 <= a < 2 ^ 31 -> (b = 0 \/ b = 1) ->
  Z.land (a + b * 2 ^ 31) 0x7fffffff = a.
Proof.
  intros Ha Hb. change 0x7fffffff with (Z.ones 31).
  rewrite Z.land_ones by lia. rewrite Z.mod_add by lia. apply Z.mod_small. lia.
Qed.

Lemma top_bit_clear a : 0 <= a < 2 ^ 31 -> Z.land a 0x80000000 = 0.
Proof. intros. change 0x80000000 with (2 ^ 31). apply land_pow2_small; lia. Qed.

Lemma _sendrecord_ok reserved payload w k rest :
  length reserved = 4%nat ->
  Z.of_nat (length payload) < 2 ^ 31 ->
  sock (cli w) = Some k ->
  sends (net w) = send_ok :: rest ->
  _sendrecord (reserved ++ payload) w
  = Some (Ret tt, after_send rest [Sent k (frag_header true (Z.of_nat (length payload))
                                           ++ payload)] w).
Proof.
  intros Hr Hp Hk Hs. unfold _sendrecord.
  rewrite length_app, Hr.
  destruct (Z.of_nat (4 + length payload) <? 4) eqn:E; [apply Z.ltb_lt in E; lia|].
  replace (Z.of_nat (4 + length payload) - 4) with (Z.of_nat (length payload)) by lia.
  unfold frag_header.
  rewrite lor_top_bit by lia.
  unfold pack_I.
  destruct ((0 <=? Z.of_nat (length payload) + 2 ^ 31)
            && (Z.of_nat (length payload) + 2 ^ 31 <? 2 ^ 32)) eqn:E2.
  2:{ apply andb_false_iff in E2 as [E2|E2];
      [apply Z.leb_gt in E2|apply Z.ltb_ge in E2]; lia. }
  rewrite drop_app_length' by done.
  destruct w as [c lx [cs ss rs] ns evs]. simpl in *. subst ss.
  unfold mbind, lift, next_send, get_cli, emit, after_send. simpl. rewrite Hk. reflexivity.
Qed.

Lemma _sendrecord_short reserved payload w k n rest :
  length reserved = 4%nat ->
  Z.of_nat (length payload) < 2 ^ 31 ->
  sock (cli w) = Some k ->
  sends (net w) = send_short n :: rest ->
  _sendrecord (reserved ++ payload) w
  = Some (Ret tt,
          after_send rest [Sent k (take n (frag_header true (Z.of_nat (length payload))
                                           ++ payload))] w).
Proof.
  intros Hr Hp Hk Hs. unfold _sendrecord.
  rewrite length_app, Hr.
  destruct (Z.of_nat (4 + length payload) <? 4) eqn:E; [apply Z.ltb_lt in E; lia|].
  replace (Z.of_nat (4 + length payload) - 4) with (Z.of_nat (length payload)) by lia.
  unfold frag_header.
  rewrite lor_top_bit by lia.
  unfold pack_I.
  destruct ((0 <=? Z.of_nat (length payload) + 2 ^ 31)
            && (Z.of_nat (length payload) + 2 ^ 31 <? 2 ^ 32)) eqn:E2.
  2:{ apply andb_false_iff in E2 as [E2|E2];
      [apply Z.leb_gt in E2|apply Z.ltb_ge in E2]; lia. }
  rewrite drop_app_length' by done.
  destruct w as [c lx [cs ss rs] ns evs]. simpl in *. subst ss.
  unfold mbind, lift, next_send, get_cli, emit, after_send. simpl. rewrite Hk. reflexivity.
Qed.

(** [_sendrecord] replaces the four reserved bytes by the record mark and
    gives the socket, in one [send], one fragment: a header with the top bit
    set (last fragment) and the payload length in the low 31 bits, followed
    by the payload unchanged.  It returns normally and leaves the client
    object alone both when the socket takes the whole fragment and when it
    takes only its first [n] bytes: the count that [send] returns is
    dropped, so that a short send puts a truncated fragment on the wire. *)
Theorem _sendrecord_one_send_of_last_fragment reserved payload w k r rest :
  length reserved = 4%nat ->
  Z.of_nat (length payload) < 2 ^ 31 ->
  sock (cli w) = Some k ->
  sends (net w) = r :: rest ->
  (r = send_ok \/ exists n, r = send_short n) ->
  exists hdr,
    _sendrecord (reserved ++ payload) w
    = Some (Ret tt,
            after_send rest [Sent k match r with
                                    | send_short n => take n (hdr ++ payload)
                                    | _ => hdr ++ payload
                                    end] w)
    /\ length hdr = 4%nat
    /\ Z.land (be_uint hdr) 0x80000000 <> 0
    /\ Z.land (be_uint hdr) 0x7fffffff = Z.of_nat (length payload).
Proof.
  intros Hr Hp Hk Hs Hcase. exists (frag_header true (Z.of_nat (length payload))).
  split.
  { destruct Hcase as [->|[n ->]];
      [by apply _sendrecord_ok|by apply _sendrecord_short]. }
  unfold frag_header. rewrite length_be_bytes, be_uint_be_bytes.
  rewrite lor_top_bit by lia. change (256 ^ Z.of_nat 4) with (2 ^ 32).
  rewrite Z.mod_small by lia.
  split; [done|]. split.
  - rewrite top_bit_set by lia. done.
  - rewrite <- (Z.mul_1_l (2 ^ 31)). apply low_bits; [lia|auto].
Qed.

Lemma _sendrecord_one_send_of_last_fragment_witness :
  exists hdr,
    _sendrecord (replicate 4 x00 ++ [x01; x02; x03]) short_send
    = Some (Ret tt, after_send [] [Sent 0%nat (take 5 (hdr ++ [x01; x02; x03]))] short_send)
    /\ length hdr = 4%nat
    /\ Z.land (be_uint hdr) 0x80000000 <> 0
    /\ Z.land (be_uint hdr) 0x7fffffff = Z.of_nat (length [x01; x02; x03]).
Proof.
  apply (_sendrecord_one_send_of_last_fragment (replicate 4 x00) [x01; x02; x03]
           short_send 0%nat (send_short 5) []);
    [reflexivity|simpl; lia|reflexivity|reflexivity|right; by exists 5%nat].
Defined.

(** On that socket the method returns although only the header and the
    first byte of the payload went out. *)
Example short_send_run :
  _sendrecord (replicate 4 x00 ++ [x01; x02; x03]) short_send
  = Some (Ret tt, after_send [] [Sent 0%nat [x80; x00; x00; x03; x01]] short_send).
Proof. reflexivity. Qed.

Lemma _recvwrapper_data bufsize b rest w k :
  sock (cli w) = Some k ->
  recvs (net w) = recv_data b :: rest ->
  _recvwrapper bufsize w = Some (Ret (take (Z.to_nat bufsize) b), with_recvs rest w).
Proof.
  intros Hk Hr. destruct w as [c lx [cs ss rs] ns evs]. simpl in *. subst rs.
  unfold _recvwrapper, mbind, next_recv, get_cli, mret, with_recvs. simpl.
  by rewrite Hk.
Qed.

Lemma with_recvs_with_recvs r r' w : with_recvs r (with_recvs r' w) = with_recvs r w.
Proof. reflexivity. Qed.

Lemma _recvfrag_loop_chunks chunks : forall fuel n recordbuf rest w k,
  Forall (fun c => c <> []) chunks ->
  n = Z.of_nat (length (concat chunks)) ->
  (length chunks <= fuel)%nat ->
  sock (cli w) = Some k ->
  recvs (net w) = (recv_data <$> chunks) ++ rest ->
  _recvfrag_loop fuel n recordbuf w
  = Some (Ret (recordbuf ++ concat chunks), with_recvs rest w).
Proof.
  induction chunks as [|c chunks IH]; intros fuel n recordbuf rest w k Hne -> Hfuel Hk Hr.
  - simpl in *. destruct fuel; simpl; rewrite app_nil_r; unfold mret;
      destruct w as [cl lx [cs ss rs] ns evs]; simpl in *; by subst.
  - apply Forall_cons in Hne as [Hc Hne].
    destruct fuel as [|fuel]; [simpl in Hfuel; lia|].
    simpl concat. rewrite length_app.
    assert (0 < length c)%nat by (destruct c; [done|simpl; lia]).
    cbn [_recvfrag_loop].
    destruct (0 <? Z.of_nat (length c + length (concat chunks))) eqn:E;
      [|apply Z.ltb_ge in E; lia].
    unfold mbind at 1.
    rewrite (_recvwrapper_data _ c _ w k Hk Hr).
    rewrite take_ge by lia.
    destruct c as [|x c]; [done|].
    rewrite (IH fuel _ (recordbuf ++ x :: c) rest _ k Hne); try done.
    + by rewrite <- app_assoc.
    + lia.
    + simpl in Hfuel. lia.
Qed.

Lemma _recvfrag_frag last chunks recordbuf rest w k :
  wf_frag chunks ->
  sock (cli w) = Some k ->
  recvs (net w) = frag_recvs last chunks ++ rest ->
  _recvfrag recordbuf w = Some (Ret (last, recordbuf ++ concat chunks), with_recvs rest w).
Proof.
  intros [Hne Hlen] Hk Hr. unfold _recvfrag, frag_recvs in *.
  unfold mbind at 1.
  rewrite (_recvwrapper_data 4 _ _ w k Hk Hr).
  unfold frag_header.
  set (n := Z.of_nat (length (concat chunks))) in *.
  assert (Z.lor n (if last then 0x80000000 else 0) = n + (if last then 1 else 0) * 2 ^ 31)
    as ->.
  { destruct last; [rewrite lor_top_bit by lia; lia|rewrite Z.lor_0_r; lia]. }
  rewrite take_ge by (rewrite length_be_bytes; simpl; lia).
  rewrite length_be_bytes. change (Z.of_nat 4 <? 4) with false. cbv iota.
  rewrite be_uint_be_bytes. change (256 ^ Z.of_nat 4) with (2 ^ 32).
  rewrite Z.mod_small by (destruct last; lia).
  rewrite low_bits by (destruct last; auto || lia).
  assert (negb (Z.land (n + (if last then 1 else 0) * 2 ^ 31) 0x80000000 =? 0) = last) as ->.
  { destruct last.
    - rewrite Z.mul_1_l, top_bit_set by lia. reflexivity.
    - rewrite Z.mul_0_l, Z.add_0_r, top_bit_clear by lia. reflexivity. }
  unfold mbind.
  rewrite (_recvfrag_loop_chunks chunks _ n recordbuf rest _ k Hne); try done.
  simpl. rewrite length_app, length_fmap. lia.
Qed.

Lemma _recvrecord_loop_frags frags : forall lastfrag fuel recordbuf rest w k,
  Forall wf_frag frags -> wf_frag lastfrag ->
  (length frags < fuel)%nat ->
  sock (cli w) = Some k ->
  recvs (net w) = record_recvs frags lastfrag ++ rest ->
  _recvrecord_loop fuel recordbuf w
  = Some (Ret (BytesIO_of (recordbuf ++ concat (concat frags) ++ concat lastfrag)),
          with_recvs rest w).
Proof.
  induction frags as [|f frags IH]; intros lastfrag fuel recordbuf rest w k Hf Hl Hfuel Hk Hr;
    (destruct fuel as [|fuel]; [simpl in Hfuel; lia|]); cbn [_recvrecord_loop].
  - simpl in Hr. unfold mbind.
    rewrite (_recvfrag_frag true lastfrag recordbuf rest w k Hl Hk Hr). reflexivity.
  - apply Forall_cons in Hf as [Hf1 Hf]. simpl in Hr. rewrite <- app_assoc in Hr.
    unfold mbind.
    rewrite (_recvfrag_frag false f recordbuf _ w k Hf1 Hk Hr). simpl.
    rewrite (IH lastfrag fuel (recordbuf ++ concat f) rest _ k Hf Hl); try done.
    + rewrite with_recvs_with_recvs, concat_app. by rewrite <- !app_assoc.
    + simpl in Hfuel. lia.
Qed.

Lemma length_record_recvs frags lastfrag :
  (length frags < length (record_recvs frags lastfrag))%nat.
Proof.
  induction frags as [|f frags IH]; simpl; [lia|].
  rewrite length_app. lia.
Qed.

(** [_recvrecord] puts a record together again: whatever the number of
    fragments the peer cut it into and whatever the pieces in which the
    socket delivers each fragment's payload, it returns a stream at position
    0 holding the payloads in order, takes exactly the receives of that
    record, and leaves the client object as it was. *)
Theorem _recvrecord_reassembles_fragments frags lastfrag rest w k :
  Forall wf_frag frags -> wf_frag lastfrag ->
  sock (cli w) = Some k ->
  recvs (net w) = record_recvs frags lastfrag ++ rest ->
  _recvrecord w
  = Some (Ret (BytesIO_of (concat (concat frags) ++ concat lastfrag)), with_recvs rest w).
Proof.
  intros Hf Hl Hk Hr. unfold _recvrecord.
  rewrite (_recvrecord_loop_frags frags lastfrag _ [] rest w k Hf Hl); try done.
  rewrite Hr, length_app. pose proof (length_record_recvs frags lastfrag). lia.
Qed.

Lemma _recvrecord_reassembles_fragments_witness :
  _recvrecord (connected (record_recvs [[[x01; x02]; [x03]]] [[x04]; [x05; x06]] ++ []))
  = Some (Ret (BytesIO_of (concat (concat [[[x01; x02]; [x03]]])
                           ++ concat [[x04]; [x05; x06]])),
          with_recvs []
            (connected (record_recvs [[[x01; x02]; [x03]]] [[x04]; [x05; x06]] ++ []))).
Proof.
  apply (_recvrecord_reassembles_fragments [[[x01; x02]; [x03]]] [[x04]; [x05; x06]] []
           _ 0%nat).
  - repeat constructor; (discriminate || (simpl; lia)).
  - repeat constructor; (discriminate || (simpl; lia)).
  - reflexivity.
  - reflexivity.
Defined.

(** ** The transport: reading the reply *)

Import Codec.

Lemma stream_read_head hdr rest :
  stream_read (Z.of_nat (length hdr)) (BytesIO_of (hdr ++ rest)) = (hdr, stream_at hdr rest).
Proof.
  unfold stream_read, BytesIO_of, unread, stream_at. cbn [tell getvalue].
  destruct (Z.of_nat (length hdr) <? 0) eqn:E; [apply Z.ltb_lt in E; lia|].
  rewrite drop_0, Nat2Z.id, take_app_length. reflexivity.
Qed.

Lemma be_signed_word v : int32 v -> to_signed 4 (be_uint (be_bytes 4 (v mod 2 ^ 32))) = v.
Proof.
  intros Hv. rewrite be_uint_be_bytes. change (256 ^ Z.of_nat 4) with (2 ^ 32).
  rewrite Z.mod_mod by lia. apply to_signed_mod. exact Hv.
Qed.

Lemma be_unsigned_word v : uint32 v -> be_uint (be_bytes 4 v) = v.
Proof.
  intros Hv. rewrite be_uint_be_bytes. change (256 ^ Z.of_nat 4) with (2 ^ 32).
  apply Z.mod_small. exact Hv.
Qed.

Lemma length_reply_head x m s : length (reply_head x m s) = 12%nat.
Proof. unfold reply_head. by rewrite !length_app, !length_be_bytes. Qed.

Lemma unpack_reply_head x m s :
  uint32 x -> int32 m -> int32 s ->
  unpack [fI; fi; fi] (reply_head x m s) = Ret [x; m; s].
Proof.
  intros Hx Hm Hs. unfold unpack.
  rewrite decide_True by (by rewrite length_reply_head).
  unfold reply_head. cbn [unpack_fields fmt_size].
  repeat first [rewrite take_app_length' by (by rewrite length_be_bytes)
               |rewrite drop_app_length' by (by rewrite length_be_bytes)].
  rewrite firstn_all2 by (rewrite length_be_bytes; lia).
  by rewrite be_unsigned_word, !be_signed_word.
Qed.

Lemma read_enum_at pre v rest :
  int32 v ->
  read_enum (stream_at pre (be_bytes 4 (v mod 2 ^ 32) ++ rest))
  = Ret (v, stream_at (pre ++ be_bytes 4 (v mod 2 ^ 32)) rest).
Proof.
  intros Hv. pose proof (read_exact_at pre (be_bytes 4 (v mod 2 ^ 32)) rest) as H.
  rewrite length_be_bytes in H. change (Z.of_nat 4) with 4 in H.
  unfold read_enum, rbind, rret. by rewrite H, be_signed_word.
Qed.

Lemma reply_dispatch_head {B} (res_read : reader (ONCRPCres B)) expect x m s rest :
  uint32 x -> int32 m -> int32 s ->
  reply_dispatch res_read expect (BytesIO_of (reply_head x m s ++ rest))
  = let s0 := stream_at (reply_head x m s) rest in
    if negb (m =? _val REPLY) then
      Ret (ONCRPCresfail x (PStr ("mtype " +:+ pretty m +:+ " is not REPLY")), true, s0)
    else if negb (x =? expect) then
      Ret (ONCRPCresfail expect
             (PStr ("wrong xid in reply: got " +:+ pretty x +:+ " expected "
                    +:+ pretty expect)), true, s0)
    else if s =? _val MSG_ACCEPTED then
      (discard_auth ;;;
       astat <- read_enum ;;
       if negb (astat =? _val SUCCESS)
       then rret (ONCRPCresfail x (PEnum (mk_enum accept_stat astat)), false)
       else ret <- res_read ;; rret (set_xid x ret, false))%reader s0
    else if s =? _val MSG_DENIED then
      (dstat <- read_enum ;;
       if dstat =? _val RPC_MISMATCH then
         fun s1 => Ret (ONCRPCresfail x (PEnum (mk_enum reject_stat dstat)), false,
                        seek_cur 8 s1)
       else if dstat =? _val AUTH_ERROR then
         astat <- read_uint32 ;;
         rret (ONCRPCresfail x (PEnum (mk_enum Auth_stat dstat)), false)
       else
         rret (ONCRPCresfail x
                 (PStr ("MSG_DENIED with unexpected dstatus in reply ("
                        +:+ pretty dstat +:+ ")")), false))%reader s0
    else
      Ret (ONCRPCresfail x
             (PStr ("unexpected status in reply (" +:+ pretty s +:+ ")")), true, s0).
Proof.
  intros Hx Hm Hs. unfold reply_dispatch.
  pose proof (stream_read_head (reply_head x m s) rest) as H.
  rewrite length_reply_head in H. change (Z.of_nat 12) with 12 in H. rewrite H.
  rewrite unpack_reply_head by done. reflexivity.
Qed.

(** A reply that is not of type REPLY, or that carries another XID than the
    call's, is never decoded: nothing is read after the twelve-byte head,
    the result is a failure with a string status (so no retry logic takes it
    for an NFS status), and the connection is marked for reconnection.  A
    wrong XID is reported under the expected XID, a wrong message type under
    the XID received. *)
Theorem reply_dispatch_foreign_reply_not_decoded {B} (res_read : reader (ONCRPCres B))
    expect x m s rest :
  uint32 x -> int32 m -> int32 s ->
  m <> 1 \/ x <> expect ->
  exists res s',
    reply_dispatch res_read expect (BytesIO_of (reply_head x m s ++ rest))
    = Ret (res, true, s')
    /\ tell s' = 12%nat
    /\ body res = None
    /\ (exists msg, status res = PStr msg)
    /\ xid res = Some (if decide (m = 1) then expect else x).
Proof.
  intros Hx Hm Hs Hf. rewrite reply_dispatch_head by done. cbv zeta.
  change (_val REPLY) with 1.
  destruct (Z.eqb_spec m 1) as [->|Hm1]; simpl negb; cbv iota.
  - destruct (Z.eqb_spec x expect) as [->|Hxe]; [destruct Hf; done|]. simpl negb. cbv iota.
    eexists _, _. split; [reflexivity|].
    unfold stream_at. cbn [tell]. rewrite length_reply_head.
    repeat split; eauto.
  - eexists _, _. split; [reflexivity|].
    unfold stream_at. cbn [tell]. rewrite length_reply_head.
    rewrite decide_False by done. repeat split; eauto.
Qed.

Lemma reply_dispatch_foreign_reply_not_decoded_witness :
  exists res s',
    reply_dispatch null_read 7 (BytesIO_of (reply_head 8 1 0 ++ []))
    = Ret (res, true, s')
    /\ tell s' = 12%nat
    /\ body res = None
    /\ (exists msg, status res = PStr msg)
    /\ xid res = Some (if decide (1 = 1) then 7 else 8).
Proof.
  apply (reply_dispatch_foreign_reply_not_decoded null_read 7 8 1 0 []);
    unfold uint32, int32; try lia.
Defined.

Lemma write_then_align_zeros data :
  write_then_align data 4 = data ++ xdr_zeros (Z.of_nat (length data)).
Proof.
  unfold write_then_align, xdr_zeros, xdr_pad.
  pose proof (Z.mod_pos_bound (Z.of_nat (length data)) 4 ltac:(lia)) as Hm.
  destruct (Z.of_nat (length data) mod 4 =? 0) eqn:Hx.
  - apply Z.eqb_eq in Hx. rewrite Hx. simpl. by rewrite app_nil_r.
  - apply Z.eqb_neq in Hx.
    by rewrite (Z.mod_small (4 - Z.of_nat (length data) mod 4)) by lia.
Qed.

Lemma length_xdr_zeros len : Z.of_nat (length (xdr_zeros len)) = xdr_pad len.
Proof.
  unfold xdr_zeros. rewrite length_replicate. pose proof (xdr_pad_range len). lia.
Qed.

Lemma write_bytes_inv data out :
  write_bytes data = Ret out ->
  Z.of_nat (length data) < 2 ^ 32
  /\ out = be_bytes 4 (Z.of_nat (length data)) ++ data ++ xdr_zeros (Z.of_nat (length data)).
Proof.
  unfold write_bytes. intros H.
  destruct (pack_I (Z.of_nat (length data))) as [l|] eqn:Hl; [|discriminate].
  apply pack_I_inv in Hl as [Hr ->]. simpl in H. injection H as <-.
  split; [lia|]. by rewrite write_then_align_zeros.
Qed.

(** [read_bytes], documented as the reverse of [write_bytes], returns the
    bytes that [write_bytes] wrote but stops right after them: the zeros
    that [write_bytes] added to reach a multiple of four are left unread. *)
Theorem read_bytes_inverts_write_bytes_but_leaves_pad data out pre rest :
  write_bytes data = Ret out ->
  exists pad,
    out = be_bytes 4 (Z.of_nat (length data)) ++ data ++ pad
    /\ Z.of_nat (length pad) = xdr_pad (Z.of_nat (length data))
    /\ read_bytes (stream_at pre (out ++ rest))
       = Ret (data, stream_at (pre ++ be_bytes 4 (Z.of_nat (length data)) ++ data)
                              (pad ++ rest)).
Proof.
  intros [Hlen ->]%write_bytes_inv. exists (xdr_zeros (Z.of_nat (length data))).
  split; [done|]. split; [apply length_xdr_zeros|].
  unfold read_bytes, rbind. rewrite <- !app_assoc.
  rewrite read_uint32_at by lia.
  rewrite read_exact_at. by rewrite <- !app_assoc.
Qed.

Lemma read_bytes_inverts_write_bytes_but_leaves_pad_witness :
  exists pad,
    be_bytes 4 1 ++ [x41] ++ xdr_zeros 1 = be_bytes 4 (Z.of_nat (length [x41])) ++ [x41] ++ pad
    /\ Z.of_nat (length pad) = xdr_pad (Z.of_nat (length [x41]))
    /\ read_bytes (stream_at [] ((be_bytes 4 1 ++ [x41] ++ xdr_zeros 1) ++ []))
       = Ret ([x41], stream_at ([] ++ be_bytes 4 (Z.of_nat (length [x41])) ++ [x41])
                               (pad ++ [])).
Proof.
  apply (read_bytes_inverts_write_bytes_but_leaves_pad [x41] _ [] []). reflexivity.
Defined.

Lemma Credential_write_inv c out :
  Credential_write c = Ret out ->
  int32 (flavor c) /\ Z.of_nat (length (cred_data c)) < 2 ^ 32
  /\ out = be_bytes 4 (flavor c mod 2 ^ 32)
           ++ be_bytes 4 (Z.of_nat (length (cred_data c)))
           ++ cred_data c ++ xdr_zeros (Z.of_nat (length (cred_data c))).
Proof.
  unfold Credential_write. intros H.
  destruct (pack_i (flavor c)) as [f|] eqn:Hf; [|discriminate].
  destruct (write_bytes (cred_data c)) as [d|] eqn:Hd; [|discriminate].
  simpl in H. injection H as <-.
  apply pack_i_inv in Hf as [Hr ->]. apply write_bytes_inv in Hd as [Hl ->].
  split; [exact Hr|]. split; [exact Hl|]. by rewrite <- ?app_assoc.
Qed.

Lemma discard_auth_at pre fl n rest :
  uint32 n ->
  discard_auth (stream_at pre (fl ++ be_bytes 4 n ++ rest))
  = Ret (tt, mk_stream (pre ++ fl ++ be_bytes 4 n ++ rest)
                       (length pre + length fl + 4 + Z.to_nat n))
  \/ length fl <> 4%nat.
Proof.
  intros Hn. destruct (decide (length fl = 4%nat)) as [Hf|]; [left|by right].
  unfold discard_auth, rbind.
  pose proof (read_exact_at pre (fl ++ be_bytes 4 n) rest) as H.
  rewrite length_app, length_be_bytes, Hf in H. change (Z.of_nat (4 + 4)) with 8 in H.
  rewrite <- app_assoc in H. rewrite H.
  rewrite drop_app_length' by done. rewrite be_unsigned_word by done.
  unfold seek_cur, stream_at. cbn [getvalue tell]. do 2 f_equal. f_equal.
  - by rewrite <- !app_assoc.
  - rewrite !length_app, length_be_bytes. lia.
Qed.

Lemma discard_auth_write_at c out pre rest :
  Credential_write c = Ret out ->
  exists pad,
    out = be_bytes 4 (flavor c mod 2 ^ 32) ++ be_bytes 4 (Z.of_nat (length (cred_data c)))
          ++ cred_data c ++ pad
    /\ Z.of_nat (length pad) = xdr_pad (Z.of_nat (length (cred_data c)))
    /\ discard_auth (stream_at pre (out ++ rest))
       = Ret (tt, stream_at (pre ++ be_bytes 4 (flavor c mod 2 ^ 32)
                                 ++ be_bytes 4 (Z.of_nat (length (cred_data c)))
                                 ++ cred_data c)
                            (pad ++ rest)).
Proof.
  intros (Hf & Hl & ->)%Credential_write_inv.
  exists (xdr_zeros (Z.of_nat (length (cred_data c)))).
  split; [done|]. split; [apply length_xdr_zeros|].
  rewrite <- !app_assoc.
  destruct (discard_auth_at pre (be_bytes 4 (flavor c mod 2 ^ 32))
              (Z.of_nat (length (cred_data c)))
              (cred_data c ++ xdr_zeros (Z.of_nat (length (cred_data c))) ++ rest))
    as [->|Hbad]; [unfold uint32; lia| |by rewrite length_be_bytes in Hbad].
  unfold stream_at. do 2 f_equal. f_equal.
  - by rewrite <- !app_assoc.
  - rewrite !length_app, !length_be_bytes. lia.
Qed.

(** [discard_auth] skips the flavor, the length and exactly as many bytes as
    the length says: of a credential or verifier that [Credential.write]
    wrote, it leaves the pad unread, so the next field is read at the right
    place only if the body's length is a multiple of four. *)
Theorem discard_auth_skips_body_not_pad c out pre rest :
  Credential_write c = Ret out ->
  exists pad,
    out = be_bytes 4 (flavor c mod 2 ^ 32) ++ be_bytes 4 (Z.of_nat (length (cred_data c)))
          ++ cred_data c ++ pad
    /\ Z.of_nat (length pad) = xdr_pad (Z.of_nat (length (cred_data c)))
    /\ discard_auth (stream_at pre (out ++ rest))
       = Ret (tt, stream_at (pre ++ be_bytes 4 (flavor c mod 2 ^ 32)
                                 ++ be_bytes 4 (Z.of_nat (length (cred_data c)))
                                 ++ cred_data c)
                            (pad ++ rest)).
Proof. apply discard_auth_write_at. Qed.

Lemma discard_auth_skips_body_not_pad_witness :
  exists pad,
    [x00; x00; x00; x01; x00; x00; x00; x01; x41; x00; x00; x00]
    = be_bytes 4 (flavor (mk_cred 1 [x41]) mod 2 ^ 32)
      ++ be_bytes 4 (Z.of_nat (length (cred_data (mk_cred 1 [x41]))))
      ++ cred_data (mk_cred 1 [x41]) ++ pad
    /\ Z.of_nat (length pad) = xdr_pad (Z.of_nat (length (cred_data (mk_cred 1 [x41]))))
    /\ discard_auth
         (stream_at [] ([x00; x00; x00; x01; x00; x00; x00; x01; x41; x00; x00; x00] ++ []))
       = Ret (tt, stream_at ([] ++ be_bytes 4 (flavor (mk_cred 1 [x41]) mod 2 ^ 32)
                                ++ be_bytes 4 (Z.of_nat (length (cred_data (mk_cred 1 [x41]))))
                                ++ cred_data (mk_cred 1 [x41]))
                            (pad ++ [])).
Proof.
  apply (discard_auth_skips_body_not_pad (mk_cred 1 [x41]) _ [] []). reflexivity.
Defined.

(** On an accepted reply whose verifier [Credential.write] would write
    without pad, [_make_call_internal] decodes as follows: with an accept
    status other than SUCCESS the result is a failure carrying that
    [accept_stat], which the is-error check [bool(res)] counts as an error;
    with SUCCESS the result is what the result class decodes from the bytes
    after the accept status (an exception of the decoder propagates), under
    the reply's XID.  Neither asks for a reconnection. *)
Theorem reply_dispatch_accepted_reply {B} (res_read : reader (ONCRPCres B))
    x v vw astat rest :
  uint32 x -> int32 astat ->
  Credential_write v = Ret vw ->
  Z.of_nat (length (cred_data v)) mod 4 = 0 ->
  let after := stream_at (reply_head x 1 0 ++ vw ++ be_bytes 4 (astat mod 2 ^ 32)) rest in
  reply_dispatch res_read x
    (BytesIO_of (reply_head x 1 0 ++ vw ++ be_bytes 4 (astat mod 2 ^ 32) ++ rest))
  = (if astat =? 0 then
       match res_read after with
       | Ret (ret, s') => Ret (set_xid x ret, false, s')
       | Raise e => Raise e
       end
     else Ret (ONCRPCresfail x (PEnum (mk_enum accept_stat astat)), false, after))
  /\ (astat <> 0 -> ONCRPCres_bool (PEnum (mk_enum accept_stat astat)) = true).
Proof.
  intros Hx Ha Hv Hmod after. split.
  - rewrite reply_dispatch_head by (done || (unfold int32; lia)). cbv zeta.
    change (_val REPLY) with 1. change (_val MSG_ACCEPTED) with 0.
    change (_val SUCCESS) with 0.
    rewrite Z.eqb_refl. simpl negb. cbv iota. rewrite Z.eqb_refl. simpl negb. cbv iota.
    change (0 =? 0) with true. cbv iota.
    destruct (discard_auth_write_at v vw (reply_head x 1 0)
                (be_bytes 4 (astat mod 2 ^ 32) ++ rest) Hv) as (pad & Hout & Hpad & Hd).
    assert (pad = []) as ->.
    { unfold xdr_pad in Hpad. rewrite Hmod in Hpad. change ((4 - 0) mod 4) with 0 in Hpad.
      apply length_zero_iff_nil. lia. }
    rewrite app_nil_l in Hd. rewrite !app_nil_r in Hout.
    unfold rbind at 1. rewrite Hd. rewrite <- Hout.
    unfold rbind at 1. rewrite read_enum_at by done.
    subst after. rewrite <- !app_assoc. cbv beta.
    destruct (astat =? 0); cbn [negb]; cbv beta iota; [|reflexivity].
    unfold rbind, rret. destruct (res_read _) as [[ret s']|e]; reflexivity.
  - intros Hne. unfold ONCRPCres_bool, __bool__. simpl.
    by destruct (Z.eqb_spec astat 0).
Qed.

Lemma reply_dispatch_accepted_reply_witness :
  let after := stream_at (reply_head 1 1 0 ++ [x00; x00; x00; x00; x00; x00; x00; x00]
                          ++ be_bytes 4 (2 mod 2 ^ 32)) [] in
  reply_dispatch null_read 1
    (BytesIO_of (reply_head 1 1 0 ++ [x00; x00; x00; x00; x00; x00; x00; x00]
                 ++ be_bytes 4 (2 mod 2 ^ 32) ++ []))
  = (if 2 =? 0 then
       match null_read after with
       | Ret (ret, s') => Ret (set_xid 1 ret, false, s')
       | Raise e => Raise e
       end
     else Ret (ONCRPCresfail 1 (PEnum (mk_enum accept_stat 2)), false, after))
  /\ (2 <> 0 -> ONCRPCres_bool (PEnum (mk_enum accept_stat 2)) = true).
Proof.
  apply (reply_dispatch_accepted_reply null_read 1 (mk_cred 0 []) _ 2 []);
    unfold uint32, int32; try lia; reflexivity.
Defined.

(** A denied reply (RPC_MISMATCH or AUTH_ERROR) gives a failure result that
    asks for no reconnection and that the is-error check [bool(res)] does
    not count as an error, because [reject_stat] and [Auth_stat] have no
    success value. *)
Theorem reply_dispatch_denied_reply_is_falsy {B} (res_read : reader (ONCRPCres B))
    x dstat tail :
  uint32 x ->
  dstat = 0 \/ (dstat = 1 /\ (4 <= length tail)%nat) ->
  exists res s',
    reply_dispatch res_read x
      (BytesIO_of (reply_head x 1 1 ++ be_bytes 4 (dstat mod 2 ^ 32) ++ tail))
    = Ret (res, false, s')
    /\ body res = None
    /\ xid res = Some x
    /\ ONCRPCres_bool (status res) = false.
Proof.
  intros Hx Hd.
  rewrite reply_dispatch_head by (done || (unfold int32; lia)). cbv zeta.
  change (_val REPLY) with 1. change (_val MSG_ACCEPTED) with 0.
  change (_val MSG_DENIED) with 1. change (_val RPC_MISMATCH) with 0.
  change (_val AUTH_ERROR) with 1.
  rewrite Z.eqb_refl. simpl negb. cbv iota. rewrite Z.eqb_refl. simpl negb. cbv iota.
  change (1 =? 0) with false. change (1 =? 1) with true. cbv iota.
  unfold rbind at 1. rewrite read_enum_at by (unfold int32; lia).
  destruct Hd as [->|[-> Ht]].
  - change (0 =? 0) with true. cbv iota.
    eexists _, _. split; [reflexivity|]. done.
  - change (1 =? 0) with false. change (1 =? 1) with true. cbv iota.
    unfold rbind, read_uint32.
    rewrite <- (take_drop 4 tail).
    pose proof (read_exact_at (reply_head x 1 1 ++ be_bytes 4 (1 mod 2 ^ 32))
                  (take 4 tail) (drop 4 tail)) as H.
    rewrite length_take in H. replace (4 `min` length tail)%nat with 4%nat in H by lia.
    change (Z.of_nat 4) with 4 in H. unfold rbind. rewrite H. unfold rret.
    eexists _, _. split; [reflexivity|]. done.
Qed.

Lemma reply_dispatch_denied_reply_is_falsy_witness :
  exists res s',
    reply_dispatch null_read 1
      (BytesIO_of (reply_head 1 1 1 ++ be_bytes 4 (1 mod 2 ^ 32) ++ [x00; x00; x00; x05]))
    = Ret (res, false, s')
    /\ body res = None
    /\ xid res = Some 1
    /\ ONCRPCres_bool (status res) = false.
Proof.
  apply (reply_dispatch_denied_reply_is_falsy null_read 1 1 [x00; x00; x00; x05]).
  - unfold uint32. lia.
  - right. split; [reflexivity|simpl; lia].
Defined.

(** ** The transport: the tries of a call *)

Lemma make_call_loop_timeouts {B} cfg proc rpcargs (res_read : reader (ONCRPCres B))
    callTries x :
  forall n fuel tries logger w es w',
    (1 <= n <= fuel)%nat ->
    Z.of_nat n = callTries - tries ->
    tries_raise is_RPCTimeout cfg proc rpcargs res_read x n w = Some (es, w') ->
    RawTCPClient.make_call_loop fuel cfg proc rpcargs res_read callTries x tries logger w
    = Some (Ret (ONCRPCresfailTimeout x), w').
Proof.
  induction n as [|n IH]; intros fuel tries logger w es w' Hn Hc Ht; [lia|].
  destruct fuel as [|fuel]; [lia|].
  cbn [RawTCPClient.make_call_loop].
  destruct (tries <? callTries) eqn:E; [|apply Z.ltb_ge in E; lia].
  cbn [tries_raise] in Ht.
  destruct (_make_call_internal cfg proc rpcargs res_read x w) as [[[r|e] w1]|];
    try discriminate.
  destruct (is_RPCTimeout e) eqn:He; [|discriminate].
  destruct e; try discriminate. cbn [is_RuntimeError is_wire_error is_RPCTimeout].
  unfold mbind at 1, mret at 1.
  destruct n as [|n].
  - cbn [tries_raise] in Ht. injection Ht as <- <-.
    destruct (tries + 1 <? callTries) eqn:E2; [apply Z.ltb_lt in E2; lia|].
    reflexivity.
  - destruct (tries + 1 <? callTries) eqn:E2; [|apply Z.ltb_ge in E2; lia].
    destruct (tries_raise is_RPCTimeout cfg proc rpcargs res_read x (S n) w1)
      as [[es' w'']|] eqn:Ht'; [|discriminate].
    injection Ht as <- <-.
    apply (IH fuel (tries + 1) true w1 es' w''); [lia|lia|exact Ht'].
Qed.

(** When every try of a call ends in [RPCTimeout], [make_call] runs exactly
    [callTries] tries with the same XID and then returns
    [ONCRPCresfailTimeout] under that XID; it changes nothing itself: the
    process is left as the last try left it. *)
Theorem make_call_returns_timeout_after_callTries_tries {B} cfg proc rpcargs
    (res_read : reader (ONCRPCres B)) timeoutRel timeoutAbs callTries x logger w es w' :
  1 <= callTries ->
  ~ (is_Some timeoutAbs /\ is_Some timeoutRel) ->
  tries_raise is_RPCTimeout cfg proc rpcargs res_read x (Z.to_nat callTries) w
  = Some (es, w') ->
  RawTCPClient.make_call cfg proc rpcargs res_read timeoutRel timeoutAbs
    (Some callTries) (Some x) logger w
  = Some (Ret (ONCRPCresfailTimeout x), w')
  /\ length es = Z.to_nat callTries.
Proof.
  intros Hc Ht Hr. split.
  - unfold RawTCPClient.make_call.
    change (default callTries_default (Some callTries)) with callTries. cbv zeta.
    destruct (callTries <? 1) eqn:E; [apply Z.ltb_lt in E; lia|].
    unfold mbind at 1, mret at 1.
    destruct (bool_decide (is_Some timeoutAbs) && bool_decide (is_Some timeoutRel)) eqn:Eb.
    { apply andb_true_iff in Eb as [H1%bool_decide_eq_true H2%bool_decide_eq_true].
      destruct Ht; done. }
    apply (make_call_loop_timeouts cfg proc rpcargs res_read callTries x
             (Z.to_nat callTries) _ 0 logger w es w'); [lia|lia|exact Hr].
  - clear Hc Ht. revert w es w' Hr. generalize (Z.to_nat callTries) as n.
    induction n as [|n IH]; intros w es w' Hr; cbn [tries_raise] in Hr.
    + by injection Hr as <- <-.
    + destruct (_make_call_internal cfg proc rpcargs res_read x w) as [[[r|e] w1]|];
        try discriminate.
      destruct (is_RPCTimeout e); [|discriminate].
      destruct (tries_raise _ _ _ _ _ _ n _) as [[es' w'']|] eqn:Hr'; [|discriminate].
      injection Hr as <- <-. simpl. f_equal. eapply IH. exact Hr'.
Qed.

Lemma make_call_returns_timeout_after_callTries_tries_witness :
  exists es w',
    tries_raise is_RPCTimeout cfg0 0 null_args null_read 7 (Z.to_nat 2) deadline_passed
    = Some (es, w')
    /\ RawTCPClient.make_call cfg0 0 null_args null_read None (Some 0) (Some 2) (Some 7)
         false deadline_passed
       = Some (Ret (ONCRPCresfailTimeout 7), w')
    /\ length es = Z.to_nat 2.
Proof.
  destruct (tries_raise is_RPCTimeout cfg0 0 null_args null_read 7 (Z.to_nat 2)
              deadline_passed) as [[es w']|] eqn:H; [|vm_compute in H; discriminate].
  exists es, w'. split; [reflexivity|].
  apply (make_call_returns_timeout_after_callTries_tries cfg0 0 null_args null_read
           None (Some 0) 2 7 false deadline_passed es w'); [lia| |exact H].
  intros [_ [? [=]]].
Defined.

Lemma make_call_loop_result_xid {B} cfg proc rpcargs (res_read : reader (ONCRPCres B))
    callTries x :
  forall fuel tries logger w res w',
    RawTCPClient.make_call_loop fuel cfg proc rpcargs res_read callTries x tries logger w
    = Some (Ret res, w') ->
    xid res = Some x.
Proof.
  induction fuel as [|fuel IH]; intros tries logger w res w' H;
    cbn [RawTCPClient.make_call_loop] in H;
    destruct (tries <? callTries) eqn:E;
    try (unfold mbind, modify_cli, get_cli, put_cli, mret in H; simpl in H;
         injection H as <- <-; reflexivity);
    try discriminate.
  destruct (_make_call_internal cfg proc rpcargs res_read x w) as [[[r|e] w1]|];
    [injection H as <- <-; reflexivity| |discriminate].
  assert (forall (m : M unit) w2, (exists w3, m w2 = Some (Ret tt, w3)) ->
            forall k : M (ONCRPCres B),
              (forall w3 w', k w3 = Some (Ret res, w') -> xid res = Some x) ->
              mbind m (fun _ => k) w2 = Some (Ret res, w') ->
              xid res = Some x) as Hstep.
  { intros m w2 [w3 Hm] k Hk Hb. unfold mbind in Hb. rewrite Hm in Hb.
    exact (Hk _ _ Hb). }
  assert (forall w3 w0,
            RawTCPClient.make_call_loop fuel cfg proc rpcargs res_read callTries x
              (tries + 1) true w3 = Some (Ret res, w0) ->
            xid res = Some x) as Hagain by (intros w3 w0 H0; by eapply IH).
  destruct (is_RuntimeError e); [|destruct (is_wire_error e)].
  - eapply Hstep; [| |exact H]; [by eexists|].
    intros w3 w0 H0. destruct (tries + 1 <? callTries); [by eapply Hagain|].
    destruct logger; unfold mret, mraise in H0; [|discriminate].
    by injection H0 as <- <-.
  - eapply Hstep; [| |exact H]; [destruct (is_RPCTimeout e); by eexists|].
    intros w3 w0 H0. destruct (tries + 1 <? callTries); [by eapply Hagain|].
    destruct (is_RPCTimeout e); [unfold mret in H0; by injection H0 as <- <-|].
    destruct logger; unfold mret, mraise in H0; [|discriminate].
    by injection H0 as <- <-.
  - eapply Hstep; [| |exact H]; [by eexists|].
    intros w3 w0 H0. destruct (tries + 1 <? callTries); [by eapply Hagain|].
    unfold mret in H0. by injection H0 as <- <-.
Qed.

(** Whatever the network does, every result that [make_call] returns
    carries the XID of the call: the one passed, else the one of the
    arguments object, else the one [get_new_xid] allocates on the class of
    the client.  This holds of a decoded reply and of every failure result,
    also when the reply that came back carried another XID. *)
Theorem make_call_result_carries_call_xid {B} cfg proc rpcargs
    (res_read : reader (ONCRPCres B)) timeoutRel timeoutAbs callTries xid0 logger w res w' :
  RawTCPClient.make_call cfg proc rpcargs res_read timeoutRel timeoutAbs callTries xid0
    logger w = Some (Ret res, w') ->
  xid res = Some (match xid0, args_xid rpcargs with
                  | Some x, _ => x
                  | None, Some x => x
                  | None, None => getattr_lastxid (client_cls cfg) (_lastxid w) + 1
                  end).
Proof.
  intros H. unfold RawTCPClient.make_call in H. cbv zeta in H.
  destruct (default callTries_default callTries <? 1); [discriminate|].
  set (x := match xid0, args_xid rpcargs with
            | Some x, _ => x
            | None, Some x => x
            | None, None => getattr_lastxid (client_cls cfg) (_lastxid w) + 1
            end).
  assert (exists w1,
            (match xid0 with
             | Some x => mret x
             | None => match args_xid rpcargs with
                       | Some x => mret x
                       | None => get_new_xid (client_cls cfg)
                       end
             end) w = Some (Ret x, w1)) as [w1 Hx].
  { subst x. destruct xid0; [by eexists|]. destruct (args_xid rpcargs); by eexists. }
  unfold mbind in H. rewrite Hx in H.
  destruct (bool_decide (is_Some timeoutAbs) && bool_decide (is_Some timeoutRel));
    [discriminate|].
  by apply make_call_loop_result_xid in H.
Qed.

Lemma make_call_result_carries_call_xid_witness :
  exists res w',
    RawTCPClient.make_call cfg0 0 null_args null_read None None (Some 2) None false
      timeout_then_reply = Some (Ret res, w')
    /\ xid res = Some (match @None Z, args_xid null_args with
                       | Some x, _ => x
                       | None, Some x => x
                       | None, None =>
                           getattr_lastxid (client_cls cfg0) (_lastxid timeout_then_reply) + 1
                       end).
Proof.
  destruct (RawTCPClient.make_call cfg0 0 null_args null_read None None (Some 2) None false
              timeout_then_reply) as [[[res|e] w']|] eqn:H;
    try (vm_compute in H; discriminate).
  exists res, w'. split; [reflexivity|].
  exact (make_call_result_carries_call_xid cfg0 0 null_args null_read None None (Some 2)
           None false timeout_then_reply res w' H).
Defined.

(** With [callTries = 1] a try that raises [ConnectionResetError],
    [EOFError] or [ProtocolError] is the last one: [make_call] sets
    [need_reconnect] and, if a logger was passed, returns the failure
    ['RPCFailed'] under the call's XID; if none was passed, the handler calls
    [logger.warning] on [None] and [make_call] raises [AttributeError]. *)
Theorem make_call_single_try_failure_needs_logger {B} cfg proc rpcargs
    (res_read : reader (ONCRPCres B)) timeoutRel x logger w e w1 :
  _make_call_internal cfg proc rpcargs res_read x w = Some (Raise e, w1) ->
  is_wire_error e = true -> is_RPCTimeout e = false ->
  RawTCPClient.make_call cfg proc rpcargs res_read timeoutRel None (Some 1) (Some x) logger w
  = Some (if logger then Ret (ONCRPCresfail x (PStr "RPCFailed")) else Raise no_logger,
          mk_world (set_need_reconnect true (cli w1)) (_lastxid w1) (net w1) (nsock w1)
                   (events w1)).
Proof.
  intros H Hw Ht. unfold RawTCPClient.make_call.
  change (default callTries_default (Some 1)) with 1. cbv zeta.
  change (1 <? 1) with false. cbv iota. unfold mbind at 1, mret at 1.
  change (bool_decide (is_Some (@None Z))) with false. cbn [andb].
  change (Z.to_nat 1) with 1%nat. cbn [RawTCPClient.make_call_loop].
  change (0 <? 1) with true. cbv beta iota. rewrite H.
  assert (is_RuntimeError e = false) as -> by (by destruct e).
  rewrite Hw, Ht. change (0 + 1 <? 1) with false. cbv iota.
  unfold mbind, modify_cli, get_cli, put_cli, mret, mraise. cbn [cli _lastxid net nsock events].
  by destruct logger.
Qed.

Lemma make_call_single_try_failure_needs_logger_witness :
  exists w1,
    _make_call_internal cfg0 0 null_args null_read 7 peer_closes = Some (Raise EOFError, w1)
    /\ RawTCPClient.make_call cfg0 0 null_args null_read None None (Some 1) (Some 7) false
         peer_closes
       = Some (if false then Ret (ONCRPCresfail 7 (PStr "RPCFailed")) else Raise no_logger,
               mk_world (set_need_reconnect true (cli w1)) (_lastxid w1) (net w1) (nsock w1)
                        (events w1)).
Proof.
  destruct (_make_call_internal cfg0 0 null_args null_read 7 peer_closes)
    as [[[r|e] w1]|] eqn:H; try (vm_compute in H; discriminate).
  assert (e = EOFError) as -> by (vm_compute in H; injection H as <- _; reflexivity).
  exists w1. split; [reflexivity|].
  apply (make_call_single_try_failure_needs_logger cfg0 0 null_args null_read None 7 false
           peer_closes EOFError w1 H); reflexivity.
Defined.

(** A fragment header that the socket delivers in fewer than four bytes
    (none at all when the peer has closed the connection, but also one to
    three bytes of a header that arrives in two pieces) makes [_recvrecord]
    raise [EOFError] and set [need_reconnect]; the rest of the header is
    never asked for. *)
Theorem _recvrecord_short_header_is_EOFError hdr rest w k :
  (length hdr < 4)%nat ->
  sock (cli w) = Some k ->
  recvs (net w) = recv_data hdr :: rest ->
  exists w',
    _recvrecord w = Some (Raise EOFError, w')
    /\ need_reconnect (cli w') = true
    /\ recvs (net w') = rest
    /\ sock (cli w') = Some k.
Proof.
  intros Hl Hk Hr. unfold _recvrecord. rewrite Hr. cbn [length _recvrecord_loop].
  unfold mbind at 1. unfold _recvfrag. unfold mbind at 1.
  rewrite (_recvwrapper_data 4 hdr rest w k Hk Hr).
  rewrite take_ge by (simpl; lia).
  destruct (Z.of_nat (length hdr) <? 4) eqn:E; [|apply Z.ltb_ge in E; lia].
  unfold mbind, modify_cli, get_cli, put_cli, mraise, with_recvs.
  cbn [cli _lastxid net nsock events].
  eexists. split; [reflexivity|]. cbn. auto.
Qed.

Lemma _recvrecord_short_header_is_EOFError_witness :
  exists w',
    _recvrecord (connected [recv_data [x80; x00]; recv_data [x00; x00]])
    = Some (Raise EOFError, w')
    /\ need_reconnect (cli w') = true
    /\ recvs (net w') = [recv_data [x00; x00]]
    /\ sock (cli w') = Some 0%nat.
Proof.
  apply (_recvrecord_short_header_is_EOFError [x80; x00] [recv_data [x00; x00]]
           (connected [recv_data [x80; x00]; recv_data [x00; x00]]) 0%nat);
    [simpl; lia|reflexivity|reflexivity].
Defined.

(** ** Latency accounting *)

Section latency_facts.
Import Latency.
Context `{PyBuiltins float}.

Lemma op_complete_counts start end_ status (op : @_LatencyTrackerOp float) :
  opcount (op_complete start end_ status op) = opcount op + 1
  /\ opcount_success (op_complete start end_ status op)
     + Z.of_nat (length (errors (op_complete start end_ status op)))
     = opcount_success op + Z.of_nat (length (errors op)) + 1
  /\ op_stat_class (op_complete start end_ status op) = op_stat_class op.
Proof.
  unfold op_complete. cbv zeta. cbn [op_stat_class].
  destruct (negb (valid_status (op_stat_class op) status));
    [|destruct (py_int status) as [i|]; [destruct (i =? 0)|]];
    unfold append_error, set_min, set_max;
    cbn [latency_min latency_max opcount opcount_success errors op_stat_class];
    repeat match goal with
           | |- context [match ?o with Some _ => _ | None => _ end] => destruct o
           | |- context [if ?b then _ else _] => destruct b
           end;
    cbn [latency_min latency_max opcount opcount_success errors op_stat_class];
    rewrite ?length_app; cbn [length]; repeat split; lia.
Qed.

Lemma completes_snoc (calls : list (@call float)) c (t : @LatencyTracker float) :
  completes (calls ++ [c]) t
  = complete (c_opname c) (c_start c) (c_end c) (c_status c) (completes calls t).
Proof. unfold completes. by rewrite fold_left_app. Qed.

Lemma calls_of_snoc name (calls : list (@call float)) (c : @call float) :
  calls_of name (calls ++ [c])
  = calls_of name calls ++ (if decide (c_opname c = name) then [c] else []).
Proof.
  unfold calls_of. rewrite filter_app. reflexivity.
Qed.

Lemma stat_class_completes (calls : list (@call float)) (t : @LatencyTracker float) :
  stat_class (completes calls t) = stat_class t.
Proof.
  induction calls as [|c calls IH] using rev_ind; [done|].
  by rewrite completes_snoc.
Qed.

Lemma dict_complete_accounts sc (d : gmap string (@_LatencyTrackerOp float)) name
    (cs : list (@call float)) (c : @call float) :
  op_accounts d name cs ->
  op_accounts (dict_complete sc (c_opname c) (c_start c) (c_end c) (c_status c) d) name
    (cs ++ (if decide (c_opname c = name) then [c] else [])).
Proof.
  intros Hd. unfold op_accounts, dict_complete in *. cbv zeta.
  destruct (decide (c_opname c = name)) as [<-|Hne].
  - rewrite lookup_insert_eq.
    pose proof (op_complete_counts (c_start c) (c_end c) (c_status c)
                  (match d !! c_opname c with
                   | Some op => op
                   | None => op_init (c_opname c) sc
                   end)) as (Hc & Hb & _).
    split; [by destruct cs|]. rewrite length_app. cbn [length].
    unfold op_balanced in *.
    destruct (d !! c_opname c) as [op|].
    + destruct Hd as (_ & Hn & Hbal). split; lia.
    + subst cs. cbn in *. split; lia.
  - rewrite lookup_insert_ne by done. by rewrite app_nil_r.
Qed.

(** After any sequence of [LatencyTracker.complete] calls on a new tracker,
    [_ops_all] has an entry for exactly the operation names that completed,
    whose [opcount] is the number of their calls; [_ops_success] has an
    entry for exactly the names with a successful call ([int(status) == 0],
    not a string), whose [opcount] is the number of those; and every entry
    of both keeps [opcount = opcount_success + len(errors)]. *)
Theorem LatencyTracker_counts_every_call sc (calls : list (@call float)) name :
  op_accounts (_ops_all (completes calls (tracker_init sc))) name (calls_of name calls)
  /\ op_accounts (_ops_success (completes calls (tracker_init sc))) name
       (filter (fun c => call_ok c = true) (calls_of name calls)).
Proof.
  induction calls as [|c calls [IHa IHs]] using rev_ind.
  - split; done.
  - rewrite completes_snoc, calls_of_snoc. unfold complete. cbv zeta.
    cbn [_ops_all _ops_success]. rewrite stat_class_completes. split.
    + by apply dict_complete_accounts.
    + rewrite filter_app. fold (call_ok c).
      destruct (call_ok c) eqn:Hok.
      * replace (filter (fun c0 => call_ok c0 = true)
                   (if decide (c_opname c = name) then [c] else []))
          with (if decide (c_opname c = name) then [c] else []).
        { by apply dict_complete_accounts. }
        destruct (decide (c_opname c = name)); [|done].
        rewrite filter_cons, filter_nil. by rewrite decide_True.
      * replace (filter (fun c0 => call_ok c0 = true)
                   (if decide (c_opname c = name) then [c] else []))
          with (@nil (@call float)).
        { by rewrite app_nil_r. }
        destruct (decide (c_opname c = name)); [|done].
        rewrite filter_cons, filter_nil. rewrite decide_False; [done|]. by rewrite Hok.
Qed.

(** [success] stays [True] exactly as long as every completed call had a
    non-string status whose [int()] is 0; a single other status clears it
    for good.  While it is [True] the two dictionaries hold the same
    accounts. *)
Theorem LatencyTracker_success_iff_all_ok sc (calls : list (@call float)) :
  success (completes calls (tracker_init sc)) = forallb call_ok calls
  /\ (success (completes calls (tracker_init sc)) = true ->
      _ops_success (completes calls (tracker_init sc))
      = _ops_all (completes calls (tracker_init sc))).
Proof.
  induction calls as [|c calls [IH1 IH2]] using rev_ind; [done|].
  rewrite completes_snoc, forallb_app. cbn [forallb]. rewrite andb_true_r.
  unfold complete. cbv zeta. cbn [success _ops_success _ops_all].
  fold (call_ok c). destruct (call_ok c).
  - rewrite andb_true_r. split; [exact IH1|]. intros Hs. by rewrite IH2.
  - rewrite andb_false_r. split; done.
Qed.

End latency_facts.

(** ** Listing a whole directory *)

Section listing.
Import NFS3Util Server.

Lemma increasing_from_weaken c c' l : c' <= c -> increasing_from c l -> increasing_from c' l.
Proof. destruct l; [done|]. simpl. intros ? [? ?]. split; [lia|done]. Qed.

Lemma increasing_from_all_above c l : increasing_from c l -> Forall (fun x => c < x) l.
Proof.
  revert c. induction l as [|x l IH]; intros c; [constructor|].
  simpl. intros [Hx Hl]. constructor; [done|].
  eapply Forall_impl; [apply (IH x Hl)|]. simpl. intros. lia.
Qed.

Lemma increasing_from_app c l1 x l2 :
  increasing_from c (l1 ++ x :: l2) ->
  Forall (fun y => y <= x) (l1 ++ [x]) /\ increasing_from x l2.
Proof.
  revert c. induction l1 as [|y l1 IH]; intros c; simpl.
  - intros [_ H]. split; [repeat constructor; lia|done].
  - intros [Hy H]. destruct (IH y H) as [Hle Hinc]. split; [|done].
    constructor; [|done].
    apply increasing_from_all_above in H.
    rewrite Forall_app, Forall_cons in H. lia.
Qed.

Lemma dir_after_all c (l : list entryplus3) :
  Forall (fun x => c < x) (p_cookie <$> l) -> dir_after c l = l.
Proof.
  unfold dir_after. induction l as [|e l IH]; [done|].
  rewrite fmap_cons, Forall_cons. intros [He Hl].
  rewrite filter_cons, decide_True by done. by rewrite IH.
Qed.

Lemma dir_after_none c (l : list entryplus3) :
  Forall (fun x => x <= c) (p_cookie <$> l) -> dir_after c l = [].
Proof.
  unfold dir_after. induction l as [|e l IH]; [done|].
  rewrite fmap_cons, Forall_cons. intros [He Hl].
  rewrite filter_cons, decide_False by lia. by rewrite IH.
Qed.

Lemma dir_after_split c0 (l1 : list entryplus3) x l2 :
  increasing_from c0 (p_cookie <$> (l1 ++ x :: l2)) ->
  dir_after (p_cookie x) (l1 ++ x :: l2) = l2.
Proof.
  rewrite fmap_app, fmap_cons. intros [Hle Hinc]%increasing_from_app.
  replace (l1 ++ x :: l2) with ((l1 ++ [x]) ++ l2) by (by rewrite <- app_assoc).
  unfold dir_after. rewrite filter_app.
  fold (dir_after (p_cookie x) (l1 ++ [x])). fold (dir_after (p_cookie x) l2).
  rewrite dir_after_none by (by rewrite fmap_app).
  rewrite dir_after_all by (by apply increasing_from_all_above). reflexivity.
Qed.

Lemma readdirplus_loop_lists k verf all dirfh lg :
  (1 <= k)%nat -> length verf = 8%nat -> Z.of_nat (length dirfh) <= NFS3_FHSIZE ->
  cookies_increasing all ->
  forall n acc rest c cv,
    all = acc ++ rest -> dir_after c all = rest -> length cv = 8%nat ->
    (1 <= n)%nat -> (length rest <= k * n)%nat ->
    readdirplus_loop (replicate n (serve_readdirplus k verf all)) dirfh c (Some cv) acc lg
    = Some (Ret (true, all)).
Proof.
  intros Hk Hv Hfh Hinc.
  induction n as [|n IH]; intros acc rest c cv Hall Hrest Hcv Hn Hlen; [lia|].
  cbn [replicate readdirplus_loop].
  remember (replicate n (serve_readdirplus k verf all)) as script eqn:Hscript.
  unfold READDIRPLUS3args_new, nfs_fh3_new, cookieverf3_new.
  destruct (NFS3_FHSIZE <? Z.of_nat (length dirfh)) eqn:E; [apply Z.ltb_lt in E; lia|].
  rewrite decide_True by done. cbn [Py.bind]. cbv zeta.
  unfold serve_readdirplus. cbn [NFS3.status NFS3.body rdp_cookie reply entries dl_eof
                                 res_cookieverf].
  change (status_ne (PEnum nfsstat3_NFS3_OK) nfsstat3_NFS3_OK) with false. cbv iota.
  rewrite Hrest. subst script.
  destruct (bool_decide (length rest <= k)%nat) eqn:Hb.
  - apply bool_decide_eq_true in Hb. rewrite take_ge by done. by rewrite <- Hall.
  - apply bool_decide_eq_false in Hb.
    destruct (last (take k rest)) as [x|] eqn:Hlast.
    2:{ apply last_None in Hlast. apply (f_equal length) in Hlast.
        rewrite length_take in Hlast. simpl in Hlast. lia. }
    apply last_Some in Hlast as [l' Hl'].
    assert (all = (acc ++ l') ++ x :: drop k rest) as Hsplit.
    { rewrite Hall. rewrite <- (take_drop k rest) at 1. rewrite Hl'.
      rewrite <- !app_assoc. reflexivity. }
    apply (IH (acc ++ take k rest) (drop k rest) (p_cookie x) verf).
    + by rewrite <- app_assoc, take_drop.
    + rewrite Hsplit. apply (dir_after_split 0). rewrite <- Hsplit. exact Hinc.
    + done.
    + destruct n; [|lia]. lia.
    + rewrite length_drop. lia.
Qed.

(** Against a server that holds a directory whose cookies are positive and
    strictly increasing and that answers each READDIRPLUS with at most [k]
    entries after the cookie asked for (and [eof] when they are the last),
    [readdirplus_entire_dir] returns [(True, entries)] with every entry of
    the directory exactly once, in order, whatever the page size; an empty
    directory gives [(True, [])]. *)
Theorem readdirplus_entire_dir_lists_whole_directory k verf all dirfh lg n :
  (1 <= k)%nat -> length verf = 8%nat -> Z.of_nat (length dirfh) <= NFS3_FHSIZE ->
  cookies_increasing all ->
  (1 <= n)%nat -> (length all <= k * n)%nat ->
  readdirplus_entire_dir (replicate n (serve_readdirplus k verf all)) dirfh lg
  = Some (Ret (true, all)).
Proof.
  intros Hk Hv Hfh Hinc Hn Hlen. unfold readdirplus_entire_dir.
  apply (readdirplus_loop_lists k verf all dirfh (Some lg) Hk Hv Hfh Hinc n [] all 0
           (replicate 8 x00)); try done.
  apply dir_after_all. by apply increasing_from_all_above.
Qed.

Lemma readdirplus_entire_dir_lists_whole_directory_witness :
  readdirplus_entire_dir
    (replicate 2 (serve_readdirplus 2 (replicate 8 x00)
                    [mk_entryplus3 10 [x61] 1 None None; mk_entryplus3 11 [x62] 2 None None;
                     mk_entryplus3 12 [x63] 5 None None]))
    [x01] logger_None
  = Some (Ret (true, [mk_entryplus3 10 [x61] 1 None None; mk_entryplus3 11 [x62] 2 None None;
                      mk_entryplus3 12 [x63] 5 None None])).
Proof.
  apply (readdirplus_entire_dir_lists_whole_directory 2 (replicate 8 x00) _ [x01]
           logger_None 2).
  - lia.
  - reflexivity.
  - unfold NFS3_FHSIZE. simpl. lia.
  - unfold cookies_increasing. simpl. repeat split; reflexivity.
  - lia.
  - simpl. lia.
Defined.

End listing.
